(** * erag: knowledge-graph construction and hybrid retrieval

    A shallow embedding of [kg.py] (graph construction and pruning) and of
    [src/search_utils.py] (the constructor and the four search strategies of
    [SearchUtils]), with the properties the specification states about them
    and further properties of the code.

    Conventions of the embedding.
    - Python [float] is IEEE binary64: Rocq's primitive [float].
    - Python [str] is [string]; the character-class functions ([lower],
      [\w], white space) are the ASCII ones.
    - An exception is a value of [exn]; a function that may raise returns
      [result].
    - A Python [set] is a [gset]; a [dict] whose iteration order is observed
      (the node and edge stores of a networkx graph) is an association list
      in insertion order.
    - spaCy and the sentence-embedding model are collaborators: their
      outputs are structured data supplied by section variables. *)

From stdpp Require Import base option list gmap sets strings.
From Stdlib Require Import Floats Uint63 ZArith Ascii Lia.
From Stdlib Require String.
From Stdlib Require Import DecimalString DecimalNat Permutation Sorted.

Set Warnings "-inexact-float".

(** ** Python primitives *)

Module Py.

(** Exceptions the modelled code can raise. [InvalidInput] is the error the
    specification names for graph construction; no statement of the source
    raises it. [NetworkXError] is the error of networkx for a node that is
    not in the graph, [UnboundLocalError] the one of a local name that is
    read before it is bound. *)
Inductive exn : Set :=
| IndexError
| KeyError
| ValueError
| InvalidInput
| NetworkXError
| UnboundLocalError.

Inductive result (A : Type) : Type :=
| Ok (a : A)
| Raise (e : exn).
Arguments Ok {A} a.
Arguments Raise {A} e.

#[export] Instance result_ret : MRet result := fun A a => Ok a.
#[export] Instance result_bind : MBind result := fun A B f m =>
  match m with
  | Ok a => f a
  | Raise e => Raise e
  end.

(** A [for] loop whose body may raise, threading the loop's state. *)
Fixpoint for_each {A S : Type} (body : S -> A -> result S) (l : list A) (s : S)
  : result S :=
  match l with
  | [] => Ok s
  | x :: r => s' ← body s x; for_each body r s'
  end.

(** A list comprehension whose element expression may raise. *)
Fixpoint comprehension {A B : Type} (f : A -> result (option B)) (l : list A)
  : result (list B) :=
  match l with
  | [] => Ok []
  | x :: r =>
      y ← f x;
      ys ← comprehension f r;
      Ok (match y with Some b => b :: ys | None => ys end)
  end.

(** *** Characters and strings *)

Definition is_upper (c : ascii) : bool :=
  let n := nat_of_ascii c in (65 <=? n)%nat && (n <=? 90)%nat.

Definition is_space (c : ascii) : bool :=
  let n := nat_of_ascii c in
  ((9 <=? n)%nat && (n <=? 13)%nat) || ((28 <=? n)%nat && (n <=? 32)%nat).

(** The class [\w] of [re]. *)
Definition is_word (c : ascii) : bool :=
  let n := nat_of_ascii c in
  ((48 <=? n)%nat && (n <=? 57)%nat) || ((65 <=? n)%nat && (n <=? 90)%nat)
  || ((97 <=? n)%nat && (n <=? 122)%nat) || (n =? 95)%nat.

Definition lower_char (c : ascii) : ascii :=
  if is_upper c then ascii_of_nat (nat_of_ascii c + 32) else c.

(** [s.lower()] *)
Fixpoint lower (s : string) : string :=
  match s with
  | EmptyString => EmptyString
  | String c r => String (lower_char c) (lower r)
  end.

(** [s.find(sub)], [None] for [-1]. *)
Definition find (sub s : string) : option nat := String.index 0 sub s.

(** [sub in s] *)
Definition contains (sub s : string) : bool :=
  match find sub s with
  | Some _ => true
  | None => false
  end.

(** Maximal runs of characters satisfying [keep]: [acc] is the run being
    read, in reverse. *)
Fixpoint runs_aux (keep : ascii -> bool) (s : string) (acc : list ascii)
  : list string :=
  let flush (rest : list string) :=
    match acc with
    | [] => rest
    | _ => String.string_of_list_ascii (rev acc) :: rest
    end in
  match s with
  | EmptyString => flush []
  | String c r =>
      if keep c then runs_aux keep r (c :: acc)
      else flush (runs_aux keep r [])
  end.

Definition runs (keep : ascii -> bool) (s : string) : list string :=
  runs_aux keep s [].

(** [s.split()] *)
Definition split (s : string) : list string :=
  runs (fun c => negb (is_space c)) s.

(** [re.findall(r'\w+', s)] *)
Definition findall_words (s : string) : list string := runs is_word s.

(** [sep.join(l)] *)
Fixpoint join (sep : string) (l : list string) : string :=
  match l with
  | [] => ""
  | [x] => x
  | x :: r => x +:+ sep +:+ join sep r
  end.

Fixpoint lstrip (s : string) : string :=
  match s with
  | EmptyString => EmptyString
  | String c r => if is_space c then lstrip r else s
  end.

Fixpoint rstrip (s : string) : string :=
  match s with
  | EmptyString => EmptyString
  | String c r =>
      match rstrip r with
      | EmptyString => if is_space c then EmptyString else String c EmptyString
      | r' => String c r'
      end
  end.

(** [s.strip()] *)
Definition strip (s : string) : string := rstrip (lstrip s).

(** [str(n)] for a non-negative integer. *)
Definition str (n : nat) : string := NilEmpty.string_of_uint (Nat.to_uint n).

(** *** Slices *)

(** [l[:stop]] *)
Definition slice_to {A : Type} (stop : Z) (l : list A) : list A :=
  if (0 <=? stop)%Z then firstn (Z.to_nat stop) l
  else firstn (length l - Z.to_nat (- stop)) l.

(** [l[start:]] *)
Definition slice_from {A : Type} (start : Z) (l : list A) : list A :=
  if (0 <=? start)%Z then skipn (Z.to_nat start) l
  else skipn (length l - Z.to_nat (- start)) l.

(** [l[i]] for a non-negative index. *)
Definition index {A : Type} (l : list A) (i : nat) : result A :=
  match nth_error l i with
  | Some x => Ok x
  | None => Raise IndexError
  end.

(** *** Sorting *)

(** [sorted(l, key=key, reverse=True)] for a key compared by [lt]: the sort
    is stable, so of two elements neither of whose keys is below the other
    the one that came first stays first. *)
Section Sorting.
Context {A K : Type} (lt : K -> K -> bool) (key : A -> K).

Fixpoint insert_desc (x : A) (l : list A) : list A :=
  match l with
  | [] => [x]
  | y :: r => if lt (key x) (key y) then y :: insert_desc x r else x :: l
  end.

Definition sorted_reverse (l : list A) : list A :=
  foldr insert_desc [] l.

(** [sorted(l, key=key)]: ascending, stable. *)
Fixpoint insert_asc (x : A) (l : list A) : list A :=
  match l with
  | [] => [x]
  | y :: r => if lt (key y) (key x) then y :: insert_asc x r else x :: l
  end.

Definition sorted (l : list A) : list A :=
  foldr insert_asc [] l.
End Sorting.

(** [x in l] for a list of strings. *)
Definition in_list (x : string) (l : list string) : bool :=
  existsb (String.eqb x) l.

(** Truthiness of a string. *)
Definition nonempty (s : string) : bool :=
  match s with
  | EmptyString => false
  | String _ _ => true
  end.

(** [enumerate(l)] *)
Definition enumerate {A : Type} (l : list A) : list (nat * A) :=
  combine (seq 0 (length l)) l.

(** The pairs [(l[i], l[j])] with [i < j], as the nested loops
    [for i, x in enumerate(l): for j in range(i+1, len(l))] meet them. *)
Fixpoint pairs {A : Type} (l : list A) : list (A * A) :=
  match l with
  | [] => []
  | x :: r => map (pair x) r ++ pairs r
  end.

(** [float(n)] for a length. *)
Definition float_of_nat (n : nat) : float :=
  PrimFloat.of_uint63 (Uint63.of_Z (Z.of_nat n)).

End Py.

(** ** spaCy documents

    What [kg.py] reads of a parsed document: tokens with their character
    offset, lemma and part of speech; entity and sentence spans with token
    and character bounds; the syntactic subtree below a span's root. The
    parse itself is the pipeline's; the accessors are spaCy's. *)

Module Spacy.

Record Token : Type := mkToken {
  i : nat;            (* position in the document *)
  idx : nat;          (* character offset *)
  tok_text : string;
  lemma_ : string;
  pos_ : string
}.

Record Span : Type := mkSpan {
  start : nat;        (* first token *)
  end_ : nat;         (* one past the last token *)
  start_char : nat;
  end_char : nat;
  label_ : string
}.

(** The output of the pipeline on a text. *)
Record Parse : Type := mkParse {
  tokens : list Token;
  parse_ents : list Span;
  parse_sents : list Span;
  root_subtree : Span -> list Token   (* [span.root.subtree] *)
}.

Record Doc : Type := mkDoc {
  doc_text : string;
  parse : Parse
}.

Definition ents (doc : Doc) : list Span := parse_ents (parse doc).
Definition sents (doc : Doc) : list Span := parse_sents (parse doc).

(** [span.text]: the characters of the document the span covers. *)
Definition span_text (doc : Doc) (sp : Span) : string :=
  String.substring (start_char sp) (end_char sp - start_char sp) (doc_text doc).

(** [bool(span)]: a span of no token is falsy. *)
Definition span_truthy (sp : Span) : bool := (start sp <? end_ sp)%nat.

(** [doc.char_span(s, e)]: the span of the tokens that begin at [s] and end
    at [e], when both offsets fall on token boundaries. *)
Definition char_span (doc : Doc) (s e : nat) : option Span :=
  match List.find (fun t => (idx t =? s)%nat) (tokens (parse doc)),
        List.find (fun t => (idx t + String.length (tok_text t) =? e)%nat)
                  (tokens (parse doc)) with
  | Some t1, Some t2 => Some (mkSpan (i t1) (S (i t2)) s e "")
  | _, _ => None
  end.

(** Whether a span lies within a sentence. *)
Definition within (sent sp : Span) : bool :=
  (start sent <=? start sp)%nat && (end_ sp <=? end_ sent)%nat.

(** [sent.ents]: the document's entities that lie within the sentence. *)
Definition span_ents (doc : Doc) (sent : Span) : list Span :=
  List.filter (within sent) (ents doc).

End Spacy.

(** ** networkx graphs

    An undirected [nx.Graph] with attribute dictionaries on nodes and edges.
    Nodes are kept in insertion order, as [G.nodes] iterates them. The
    adjacency is kept as one entry per unordered pair of endpoints, in the
    order the pairs were first joined: [G.neighbors(n)] lists the other
    endpoints of the entries at [n] in that order, which is the order of
    networkx's adjacency dictionary of [n]. The attributes the two source
    files read and write are the fields of [NodeData] and [EdgeData]; an
    absent key is [None]. *)

Module Nx.

Record NodeData : Type := mkNode {
  type : option string;
  text : option string;
  entity_type : option string;
  confidence : option float
}.

Record EdgeData : Type := mkEdge {
  relation : option string;
  weight : option float
}.

Definition no_node_attrs : NodeData := mkNode None None None None.
Definition no_edge_attrs : EdgeData := mkEdge None None.

Record Graph : Type := mkGraph {
  nodes : list (string * NodeData);
  edges : list (string * string * EdgeData)
}.

(** [nx.Graph()] *)
Definition empty : Graph := mkGraph [] [].

(** [G.nodes[n]], when [n] is a node. *)
Fixpoint lookup_node (l : list (string * NodeData)) (n : string)
  : option NodeData :=
  match l with
  | [] => None
  | (m, d) :: r => if String.eqb m n then Some d else lookup_node r n
  end.

Definition node_data (G : Graph) (n : string) : option NodeData :=
  lookup_node (nodes G) n.

(** [G.has_node(n)] *)
Definition has_node (G : Graph) (n : string) : bool :=
  match node_data G n with
  | Some _ => true
  | None => false
  end.

(** Storing attributes at a key: the dictionary of an existing key is
    updated where it stands, a new key goes last. *)
Fixpoint update_node (l : list (string * NodeData)) (n : string)
  (attrs : NodeData -> NodeData) : list (string * NodeData) :=
  match l with
  | [] => [(n, attrs no_node_attrs)]
  | (m, d) :: r =>
      if String.eqb m n then (m, attrs d) :: r
      else (m, d) :: update_node r n attrs
  end.

(** [G.add_node(n, **attrs)]: [attrs] is the update the keyword arguments
    make to the node's dictionary. *)
Definition add_node (G : Graph) (n : string) (attrs : NodeData -> NodeData)
  : Graph :=
  mkGraph (update_node (nodes G) n attrs) (edges G).

(** Whether an adjacency entry joins [u] and [v], in either direction. *)
Definition joins (u v : string) (e : string * string * EdgeData) : bool :=
  let '(a, b, _) := e in
  (String.eqb a u && String.eqb b v) || (String.eqb a v && String.eqb b u).

(** [G.edges[u, v]], when the edge exists. *)
Fixpoint lookup_edge (l : list (string * string * EdgeData)) (u v : string)
  : option EdgeData :=
  match l with
  | [] => None
  | e :: r => if joins u v e then Some (snd e) else lookup_edge r u v
  end.

Definition edge_data (G : Graph) (u v : string) : option EdgeData :=
  lookup_edge (edges G) u v.

Definition has_edge (G : Graph) (u v : string) : bool :=
  match edge_data G u v with
  | Some _ => true
  | None => false
  end.

Fixpoint update_edge (l : list (string * string * EdgeData)) (u v : string)
  (attrs : EdgeData -> EdgeData) : list (string * string * EdgeData) :=
  match l with
  | [] => [(u, v, attrs no_edge_attrs)]
  | e :: r =>
      if joins u v e then (fst e, attrs (snd e)) :: r
      else e :: update_edge r u v attrs
  end.

(** [G.add_edge(u, v, **attrs)]: an endpoint that is not a node yet becomes
    one, with no attribute; the dictionary of the edge, a new one if the pair
    was not joined, is updated with the keyword arguments. *)
Definition add_edge (G : Graph) (u v : string) (attrs : EdgeData -> EdgeData)
  : Graph :=
  let G1 := if has_node G u then G else add_node G u (fun d => d) in
  let G2 := if has_node G1 v then G1 else add_node G1 v (fun d => d) in
  mkGraph (nodes G2) (update_edge (edges G2) u v attrs).

(** [G.neighbors(n)] for a node [n] of [G]. For any other [n] networkx
    raises [NetworkXError]: a caller that can pass one checks [has_node]
    first. *)
Definition neighbors (G : Graph) (n : string) : list string :=
  omap (fun e : string * string * EdgeData =>
          let '(a, b, _) := e in
          if String.eqb a n then Some b
          else if String.eqb b n then Some a
          else None)
       (edges G).

(** [G.remove_edges_from(ebunch)]: pairs that are not joined are ignored. *)
Definition remove_edge (G : Graph) (uv : string * string) : Graph :=
  mkGraph (nodes G)
          (List.filter (fun e => negb (joins (fst uv) (snd uv) e)) (edges G)).

Definition remove_edges_from (G : Graph) (ebunch : list (string * string))
  : Graph :=
  fold_left remove_edge ebunch G.

(** The invariant of the representation: a pair of endpoints has at most
    one adjacency entry. *)
Fixpoint distinct_pairs (l : list (string * string * EdgeData)) : bool :=
  match l with
  | [] => true
  | e :: r =>
      forallb (fun e' => negb (joins (fst (fst e)) (snd (fst e)) e')) r
      && distinct_pairs r
  end.

Definition wf (G : Graph) : Prop := distinct_pairs (edges G) = true.

(** The endpoints of every edge are nodes. *)
Definition closed (G : Graph) : Prop :=
  forall u v d, In (u, v, d) (edges G) ->
                has_node G u = true /\ has_node G v = true.

End Nx.

(** ** kg.py *)

Module Kg.
Import Py.

Definition triple : Type := string * string * string.

Definition FAMILY_RELATIONS : list string :=
  [ "sister"; "sisters"; "brother"; "brothers"; "father"; "mother"; "parent";
    "parents"; "son"; "sons"; "daughter"; "daughters"; "husband"; "wife";
    "spouse"; "grandfather"; "grandmother"; "grandparent"; "grandparents";
    "grandson"; "granddaughter"; "grandchild"; "grandchildren";
    "uncle"; "aunt"; "cousin"; "cousins"; "niece"; "nephew" ].

Definition KEY_LABELS : list string :=
  [ "PERSON"; "ORG"; "GPE"; "LOC"; "PRODUCT"; "EVENT"; "WORK_OF_ART" ].

Definition preprocess_text (text : string) : string :=
  join " " (split text).

(** A row of the embedding tensor. *)
Definition embedding : Type := list float.

(** The reverse relation [extract_family_relations] adds after a triple. *)
Definition reverse_relation (e1 relation e2 : string) : list triple :=
  if in_list relation ["sister"; "brother"] then [(e2, relation, e1)]
  else if String.eqb relation "parent" then [(e2, "child", e1)]
  else if String.eqb relation "child" then [(e2, "parent", e1)]
  else [].

(** The set of the tokens of a path: a token is its position. *)
Fixpoint token_set (l : list Spacy.Token) : list Spacy.Token :=
  match l with
  | [] => []
  | t :: r =>
      if existsb (fun t' => (Spacy.i t' =? Spacy.i t)%nat) r then token_set r
      else t :: token_set r
  end.

Section Collaborators.

(** [nlp = spacy.load("en_core_web_sm")]: the parse of a text. *)
Variable pipeline : string -> Spacy.Parse.

(** [util.pytorch_cos_sim(a, b).item()] *)
Variable pytorch_cos_sim : embedding -> embedding -> float.

Definition nlp (text : string) : Spacy.Doc := Spacy.mkDoc text (pipeline text).

Definition extract_key_entities (text : string) : list (string * string) :=
  let doc := nlp text in
  map (fun ent => (Spacy.span_text doc ent, Spacy.label_ ent))
      (List.filter (fun ent => in_list (Spacy.label_ ent) KEY_LABELS)
                   (Spacy.ents doc)).

(** The span of a key entity: its first occurrence in the text, when that
    falls on token boundaries. *)
Definition entity_span (doc : Spacy.Doc) (text : string)
  (entity : string * string) : option Spacy.Span :=
  let ent := fst entity in
  match find ent text with
  | None => None
  | Some start =>
      match Spacy.char_span doc start (start + String.length ent) with
      | Some span => if Spacy.span_truthy span then Some span else None
      | None => None
      end
  end.

(** The lemmas of the verbs and adpositions below the two entities' roots,
    in document order. *)
Definition syntactic_relation (doc : Spacy.Doc) (entity1 entity2 : Spacy.Span)
  : string :=
  let path := Spacy.root_subtree (Spacy.parse doc) entity1
              ++ Spacy.root_subtree (Spacy.parse doc) entity2 in
  let path := sorted Nat.ltb Spacy.i (token_set path) in
  join " " (map Spacy.lemma_
                (List.filter (fun token => in_list (Spacy.pos_ token) ["VERB"; "ADP"])
                             path)).

Definition sentence_relations (doc : Spacy.Doc) (entity_spans : list Spacy.Span)
  (sent : Spacy.Span) : list triple :=
  let sent_entities := List.filter (Spacy.within sent) entity_spans in
  omap (fun p : Spacy.Span * Spacy.Span =>
          let '(entity1, entity2) := p in
          let relation := syntactic_relation doc entity1 entity2 in
          let family_relation :=
            List.find (fun rel => contains rel (lower (Spacy.span_text doc sent)))
                      FAMILY_RELATIONS in
          let relation :=
            match family_relation with
            | Some rel => if nonempty rel then rel else relation
            | None => relation
            end in
          if nonempty relation
          then Some (Spacy.span_text doc entity1, relation,
                     Spacy.span_text doc entity2)
          else None)
       (pairs sent_entities).

Definition extract_relations (text : string)
  (key_entities : list (string * string)) : list triple :=
  let doc := nlp text in
  let entity_spans := omap (entity_span doc text) key_entities in
  flat_map (sentence_relations doc entity_spans) (Spacy.sents doc).

(** [[ent for ent in sent.ents if ent.label_ == 'PERSON']] *)
Definition sentence_persons (doc : Spacy.Doc) (sent : Spacy.Span)
  : list Spacy.Span :=
  List.filter (fun ent => String.eqb (Spacy.label_ ent) "PERSON")
              (Spacy.span_ents doc sent).

Definition sentence_family_relations (doc : Spacy.Doc) (sent : Spacy.Span)
  : list triple :=
  let entities := sentence_persons doc sent in
  flat_map (fun p : Spacy.Span * Spacy.Span =>
              let '(entity1, entity2) := p in
              flat_map (fun relation =>
                          if contains relation (lower (Spacy.span_text doc sent))
                          then (Spacy.span_text doc entity1, relation,
                                Spacy.span_text doc entity2)
                               :: reverse_relation (Spacy.span_text doc entity1)
                                    relation (Spacy.span_text doc entity2)
                          else [])
                       FAMILY_RELATIONS)
           (pairs entities).

Definition extract_family_relations (text : string) : list triple :=
  let doc := nlp text in
  flat_map (sentence_family_relations doc) (Spacy.sents doc).

(** [(a, k, b)] is the triple the loops append first for a pair of persons
    of a sentence, in their order, and a keyword the sentence contains. *)
Definition emitted_forward (text : string) (a k b : string) : Prop :=
  let doc := nlp text in
  exists sent entity1 entity2,
    In sent (Spacy.sents doc) /\
    In (entity1, entity2) (pairs (sentence_persons doc sent)) /\
    In k FAMILY_RELATIONS /\
    contains k (lower (Spacy.span_text doc sent)) = true /\
    a = Spacy.span_text doc entity1 /\ b = Spacy.span_text doc entity2.

(** The keyword arguments of the four kinds of [add_node] and [add_edge]
    calls, as updates of the attribute dictionary. *)
Definition document_attrs (chunk : string) (d : Nx.NodeData) : Nx.NodeData :=
  Nx.mkNode (Some "document") (Some chunk) (Nx.entity_type d) (Nx.confidence d).

Definition entity_attrs (entity_type : string) (d : Nx.NodeData) : Nx.NodeData :=
  Nx.mkNode (Some "entity") (Nx.text d) (Some entity_type) (Nx.confidence d).

Definition relation_attrs (rel : string) (d : Nx.EdgeData) : Nx.EdgeData :=
  Nx.mkEdge (Some rel) (Nx.weight d).

Definition similar_attrs (similarity : float) (d : Nx.EdgeData) : Nx.EdgeData :=
  Nx.mkEdge (Some "similar") (Some similarity).

(** [f"doc_{i}"] *)
Definition doc_name (i : nat) : string := "doc_" +:+ str i.

Definition add_entity (doc_node : string) (G : Nx.Graph)
  (e : string * string) : Nx.Graph :=
  let '(entity, entity_type) := e in
  let G := if Nx.has_node G entity then G
           else Nx.add_node G entity (entity_attrs entity_type) in
  Nx.add_edge G doc_node entity (relation_attrs "contains").

Definition add_triple (G : Nx.Graph) (t : triple) : Nx.Graph :=
  let '(subj, rel, obj) := t in
  Nx.add_edge G subj obj (relation_attrs rel).

(** The body of the loop over the chunks. *)
Definition add_chunk (G : Nx.Graph) (ic : nat * string) : Nx.Graph :=
  let '(i, chunk) := ic in
  let chunk := preprocess_text chunk in
  let key_entities := extract_key_entities chunk in
  let triples := extract_relations chunk key_entities in
  let family_triples := extract_family_relations chunk in
  let doc_node := doc_name i in
  let G := Nx.add_node G doc_node (document_attrs chunk) in
  let G := fold_left (add_entity doc_node) key_entities G in
  fold_left add_triple (triples ++ family_triples) G.

(** [[n for n, d in G.nodes(data=True) if d['type'] == 'document']] *)
Definition document_nodes (G : Nx.Graph) : result (list string) :=
  comprehension
    (fun nd : string * Nx.NodeData =>
       match Nx.type (snd nd) with
       | Some t => Ok (if String.eqb t "document" then Some (fst nd) else None)
       | None => Raise KeyError
       end)
    (Nx.nodes G).

(** The body of the inner loop over [j]. *)
Definition add_similarity (embeddings : list embedding) (doc_nodes : list string)
  (i : nat) (node1 : string) (G : Nx.Graph) (j : nat) : result Nx.Graph :=
  node2 ← index doc_nodes j;
  a ← index embeddings i;
  b ← index embeddings j;
  let similarity := pytorch_cos_sim a b in
  Ok (if (0.7 <? similarity)%float
      then Nx.add_edge G node1 node2 (similar_attrs similarity)
      else G).

Definition add_similarities (embeddings : list embedding) (G : Nx.Graph)
  : result Nx.Graph :=
  doc_nodes ← document_nodes G;
  for_each
    (fun G (inode : nat * string) =>
       let '(i, node1) := inode in
       for_each (add_similarity embeddings doc_nodes i node1)
                (seq (i + 1) (length doc_nodes - (i + 1))) G)
    (enumerate doc_nodes) G.

Definition create_networkx_graph (data : list string)
  (embeddings : list embedding) : result Nx.Graph :=
  let G := fold_left add_chunk (enumerate data) Nx.empty in
  add_similarities embeddings G.

(** *** The calls of [add_edge]

    The calls [G.add_edge(u, v, relation=rel)] and
    [G.add_edge(u, v, relation='similar', weight=w)] that
    [create_networkx_graph] makes, in the order it makes them. *)

Record edge_call : Type := mkCall {
  call_u : string;
  call_v : string;
  call_relation : string;
  call_weight : option float
}.

(** The update a call makes to the dictionary of its edge. *)
Definition call_attrs (c : edge_call) (d : Nx.EdgeData) : Nx.EdgeData :=
  Nx.mkEdge (Some (call_relation c))
            (match call_weight c with
             | Some w => Some w
             | None => Nx.weight d
             end).

Definition record_call (l : list (string * string * Nx.EdgeData))
  (c : edge_call) : list (string * string * Nx.EdgeData) :=
  Nx.update_edge l (call_u c) (call_v c) (call_attrs c).

Definition call_joins (u v : string) (c : edge_call) : bool :=
  Nx.joins u v (call_u c, call_v c, Nx.no_edge_attrs).

(** The most recent call for the pair of [u] and [v]. *)
Definition last_call (calls : list edge_call) (u v : string)
  : option edge_call :=
  last (List.filter (call_joins u v) calls).

Definition triple_call (t : triple) : edge_call :=
  let '(subj, rel, obj) := t in mkCall subj obj rel None.

(** The calls of one iteration of the loop over the chunks. *)
Definition chunk_edge_calls (ic : nat * string) : list edge_call :=
  let '(i, chunk) := ic in
  let chunk := preprocess_text chunk in
  let key_entities := extract_key_entities chunk in
  map (fun e : string * string => mkCall (doc_name i) (fst e) "contains" None)
      key_entities
  ++ map triple_call (extract_relations chunk key_entities)
  ++ map triple_call (extract_family_relations chunk).

(** The call of the loop over the pairs of document nodes at the positions
    [i < j], if it makes one. *)
Definition similarity_call (embeddings : list embedding)
  (p : (nat * string) * (nat * string)) : option edge_call :=
  let '((i, node1), (j, node2)) := p in
  match nth_error embeddings i, nth_error embeddings j with
  | Some a, Some b =>
      let similarity := pytorch_cos_sim a b in
      if (0.7 <? similarity)%float
      then Some (mkCall node1 node2 "similar" (Some similarity))
      else None
  | _, _ => None
  end.

Definition similarity_calls (embeddings : list embedding)
  (doc_nodes : list string) : list edge_call :=
  omap (similarity_call embeddings) (pairs (enumerate doc_nodes)).

Definition edge_calls (data : list string) (embeddings : list embedding)
  : list edge_call :=
  flat_map chunk_edge_calls (enumerate data)
  ++ match document_nodes (fold_left add_chunk (enumerate data) Nx.empty) with
     | Ok doc_nodes => similarity_calls embeddings doc_nodes
     | Raise _ => []
     end.

(** The step of the similarity loops at one pair of positions. *)
Definition similarity_step (embeddings : list embedding) (G : Nx.Graph)
  (p : (nat * string) * (nat * string)) : result Nx.Graph :=
  let '((i, node1), (j, node2)) := p in
  a ← index embeddings i;
  b ← index embeddings j;
  let similarity := pytorch_cos_sim a b in
  Ok (if (0.7 <? similarity)%float
      then Nx.add_edge G node1 node2 (similar_attrs similarity)
      else G).

(** The node store after the guarded [add_node] of an entity. *)
Definition ensure_entity (l : list (string * Nx.NodeData))
  (e : string * string) : list (string * Nx.NodeData) :=
  match Nx.lookup_node l (fst e) with
  | Some _ => l
  | None => l ++ [(fst e, entity_attrs (snd e) Nx.no_node_attrs)]
  end.

(** The node store after one iteration of the loop over the chunks. *)
Definition chunk_nodes (l : list (string * Nx.NodeData)) (ic : nat * string)
  : list (string * Nx.NodeData) :=
  let chunk := preprocess_text (snd ic) in
  fold_left ensure_entity (extract_key_entities chunk)
            (Nx.update_node l (doc_name (fst ic)) (document_attrs chunk)).

(** What the attributes of a node of a constructed graph satisfy. *)
Definition built_node (d : Nx.NodeData) : Prop :=
  (Nx.type d = Some "document" \/ Nx.type d = Some "entity") /\
  Nx.confidence d = None.

(** What the attributes of an edge of a constructed graph satisfy: a weight
    comes with the label 'similar' and is above 0.7, and an edge without
    weight has a label that is not empty. *)
Definition built_edge (d : Nx.EdgeData) : Prop :=
  match Nx.weight d with
  | Some w => Nx.relation d = Some "similar" /\ (0.7 <? w)%float = true
  | None => exists r, Nx.relation d = Some r /\ r <> ""
  end.

(** No entity extracted from the chunk is named like a document node. *)
Definition no_collision (chunk : string) : Prop :=
  forall e k, In e (extract_key_entities (preprocess_text chunk)) ->
              fst e <> doc_name k.

(** Every node typed 'document' is a [doc_k] with [k < i]. *)
Definition docs_below (i : nat) (l : list (string * Nx.NodeData)) : Prop :=
  forall n d, In (n, d) l -> Nx.type d = Some "document" ->
              exists k, k < i /\ n = doc_name k.

(** Every node is a document node [doc_k] with [k < i], or is not typed
    'document' and not named like a document node. *)
Definition names_ok (i : nat) (l : list (string * Nx.NodeData)) : Prop :=
  forall n d, In (n, d) l ->
    (Nx.type d = Some "document" /\ exists k, k < i /\ n = doc_name k) \/
    (Nx.type d <> Some "document" /\ forall k, n <> doc_name k).

(** Both positions of a pair have an embedding. *)
Definition in_range (embeddings : list embedding)
  (p : (nat * string) * (nat * string)) : Prop :=
  fst (fst p) < length embeddings /\ fst (snd p) < length embeddings.

(** The names of the nodes typed 'document', in node order. *)
Definition document_names (l : list (string * Nx.NodeData)) : list string :=
  omap (fun nd : string * Nx.NodeData =>
          if bool_decide (Nx.type (snd nd) = Some "document")
          then Some (fst nd) else None) l.

End Collaborators.

Definition prune_graph (G : Nx.Graph) (min_edge_weight : float) : Nx.Graph :=
  let edges_to_remove :=
    omap (fun e : string * string * Nx.EdgeData =>
            let '(u, v, d) := e in
            match Nx.weight d with
            | Some w => if (w <? min_edge_weight)%float then Some (u, v) else None
            | None => None
            end)
         (Nx.edges G) in
  Nx.remove_edges_from G edges_to_remove.

Section Pipeline.

Variable pipeline : string -> Spacy.Parse.
Variable pytorch_cos_sim : embedding -> embedding -> float.

(** [create_knowledge_graph()]: [embeddings] and [content] are what
    [load_embeddings_and_data] returned, [None] for a null. The graph is
    constructed and pruned at the default weight 0.7; the function then
    writes the graph to [knowledge_graph.json] and returns it. *)
Definition create_knowledge_graph (embeddings : option (list embedding))
  (content : option (list string)) : result (option Nx.Graph) :=
  match embeddings, content with
  | Some embeddings, Some content =>
      G ← create_networkx_graph pipeline pytorch_cos_sim content embeddings;
      let G := prune_graph G 0.7 in
      Ok (Some G)
  | _, _ => Ok None
  end.

End Pipeline.

End Kg.

(** ** src/search_utils.py *)

Module Search.
Import Py.

(** The fields of [src.settings.settings] the class reads. *)
Record Settings : Type := mkSettings {
  enable_lexical_search : bool;
  enable_semantic_search : bool;
  enable_graph_search : bool;
  enable_text_search : bool;
  top_k : Z;
  entity_relevance_threshold : float
}.

(** A numpy array of one or two dimensions; the rows of [Mat rows ncols]
    have [ncols] entries each. [np.array([])], the default of
    [db_embeddings], is [Vec []]. *)
Inductive ndarray : Type :=
| Vec (l : list float)
| Mat (rows : list (list float)) (ncols : nat).

(** [a.size] *)
Definition size (a : ndarray) : nat :=
  match a with
  | Vec l => length l
  | Mat rows ncols => length rows * ncols
  end.

Definition dot (a b : list float) : float :=
  fold_left (fun acc xy => (acc + fst xy * snd xy)%float) (combine a b) 0%float.

(** [np.dot(a, e.T).flatten()] for the one-row array [e] of [encode]. *)
Definition dot_flatten (a : ndarray) (e : list float) : result (list float) :=
  match a with
  | Vec l =>
      if (length l =? length e)%nat then Ok [dot l e] else Raise ValueError
  | Mat rows ncols =>
      if (ncols =? length e)%nat then Ok (map (fun row => dot row e) rows)
      else Raise ValueError
  end.

(** The order numpy sorts floats in: NaN comes last. *)
Definition np_lt (a b : float) : bool :=
  (a <? b)%float || (PrimFloat.is_nan b && negb (PrimFloat.is_nan a)).

(** [scores.argsort()]: a permutation of the indices in ascending order of
    the scores. Equal scores are left in index order here; numpy's default
    sort is not stable, so among equal scores it may return another
    order. *)
Definition argsort (scores : list float) : list nat :=
  map fst (sorted np_lt snd (enumerate scores)).

(** The state of a [SearchUtils] object. [model] is the [encode] method of
    the model, when it has one. *)
Record SearchUtils : Type := mkSearchUtils {
  model : option (string -> list float);
  db_embeddings : ndarray;
  db_content : list string;
  knowledge_graph : Nx.Graph
}.

(** What the constructor finds at a path of the output folder: no file, a
    file whose loading raises, or the value loaded from it. *)
Inductive file (A : Type) : Type :=
| Missing
| Unreadable (e : exn)
| Loaded (a : A).
Arguments Missing {A}.
Arguments Unreadable {A} e.
Arguments Loaded {A} a.

(** The three files the constructor looks for: [db_embeddings.npy],
    [db_content.txt], read with [readlines], and the knowledge graph in
    node-link form. *)
Record Disk : Type := mkDisk {
  embeddings_file : file ndarray;
  content_file : file (list string);
  graph_file : file Nx.Graph
}.

(** [SearchUtils.__init__]: the embeddings and the content are the two
    arguments when both are given and are loaded from the disk otherwise, a
    missing or unreadable file leaving the empty default. The graph is the
    argument or the graph of the file, whose loading is not guarded. When
    there is no file the source evaluates [nx.Graph()]; the statement
    [import networkx as nx] in the branch of the existing file makes [nx] a
    local name of the function, which is unbound on this path, so the
    evaluation raises [UnboundLocalError]. *)
Definition init (disk : Disk) (model : option (string -> list float))
  (db_embeddings : option ndarray) (db_content : option (list string))
  (knowledge_graph : option Nx.Graph) : result SearchUtils :=
  let stores :=
    match db_embeddings, db_content with
    | Some embeddings, Some content => (embeddings, content)
    | _, _ =>
        (match embeddings_file disk with
         | Loaded embeddings => embeddings
         | _ => Vec []
         end,
         match content_file disk with
         | Loaded content => content
         | _ => []
         end)
    end in
  graph ←
    match knowledge_graph with
    | Some G => Ok G
    | None =>
        match graph_file disk with
        | Loaded G => Ok G
        | Unreadable e => Raise e
        | Missing => Raise UnboundLocalError
        end
    end;
  Ok (mkSearchUtils model (fst stores) (snd stores) graph).

Definition newline : string := String (ascii_of_nat 10) EmptyString.

(** [[str(self.db_content[i].strip()) for i in top_indices]] *)
Definition contents_at (db_content : list string) (top_indices : list nat)
  : result (list string) :=
  comprehension (fun i => c ← index db_content i; Ok (Some (strip c)))
                top_indices.

(** [sorted(range(len(scores)), key=lambda i: scores[i], reverse=True)] *)
Definition rank (scores : list nat) : list nat :=
  sorted_reverse Nat.ltb (fun i => nth i scores 0%nat) (seq 0 (length scores)).

(** [set(re.findall(r'\w+', s.lower()))] *)
Definition word_set (s : string) : gset string :=
  list_to_set (findall_words (lower s)).

(** [len(query_words.intersection(context_words))] *)
Definition overlap (query_words : gset string) (context : string) : nat :=
  let context_words := word_set context in
  stdpp.base.size (query_words ∩ context_words).

(** The order of a ranking by descending score in which ties keep the
    order of the indices: [i] comes before [j]. *)
Definition ranks_before (score : nat -> nat) (i j : nat) : Prop :=
  score j < score i \/ (score i = score j /\ i < j).

(** [sum(term in text.lower() for term in terms)] *)
Definition matches (terms : list string) (text : string) : nat :=
  length (List.filter (fun term => contains term (lower text)) terms).

Section Methods.

Variable settings : Settings.
Variable self : SearchUtils.

Definition lexical_search (query : string) : result (list string) :=
  if negb (enable_lexical_search settings) then Ok []
  else
    let query_words := word_set query in
    let overlap_scores := map (overlap query_words) (db_content self) in
    let top_indices := slice_to (top_k settings) (rank overlap_scores) in
    contents_at (db_content self) top_indices.

Definition semantic_search (query : string) : result (list string) :=
  if negb (enable_semantic_search settings) then Ok []
  else
    top_indices ←
      match model self with
      | Some encode =>
          let input_embedding := encode query in
          cos_scores ← dot_flatten (db_embeddings self) input_embedding;
          Ok (rev (slice_from (- top_k settings) (argsort cos_scores)))
      | None =>
          let query_words : gset string := list_to_set (split (lower query)) in
          let scores := map (matches (elements query_words)) (db_content self) in
          Ok (slice_to (top_k settings) (rank scores))
      end;
    contents_at (db_content self) top_indices.

Definition text_search (query : string) : list string :=
  if negb (enable_text_search settings) then []
  else
    let query_terms := split (lower query) in
    let results :=
      omap (fun content =>
              let content := strip content in
              if existsb (fun term => contains term (lower content)) query_terms
              then Some content else None)
           (db_content self) in
    slice_to (top_k settings)
             (sorted_reverse Nat.ltb (matches query_terms) results).

(** [self.knowledge_graph.nodes[n]['type']] *)
Definition node_type (n : string) : result string :=
  match Nx.node_data (knowledge_graph self) n with
  | Some d =>
      match Nx.type d with
      | Some t => Ok t
      | None => Raise KeyError
      end
  | None => Raise KeyError
  end.

(** Every endpoint of an edge is a node with a ['type'] attribute: the
    look-ups of the type of a neighbour raise no [KeyError]. *)
Definition has_type (n : string) : bool :=
  match node_type n with
  | Ok _ => true
  | Raise _ => false
  end.

Definition typed_neighbors : bool :=
  forallb (fun e : string * string * Nx.EdgeData =>
             has_type (fst (fst e)) && has_type (snd (fst e)))
          (Nx.edges (knowledge_graph self)).

(** [[n for n in self.knowledge_graph.neighbors(node)
      if self.knowledge_graph.nodes[n]['type'] == ty]], for a node [node]
    of the graph: the source evaluates it for the nodes it iterates over. *)
Definition neighbors_of_type (node ty : string) : result (list string) :=
  comprehension
    (fun n => t ← node_type n; Ok (if String.eqb t ty then Some n else None))
    (Nx.neighbors (knowledge_graph self) node).

Fixpoint first_document (l : list string) : result (option string) :=
  match l with
  | [] => Ok None
  | neighbor :: r =>
      t ← node_type neighbor;
      if String.eqb t "document" then Ok (Some neighbor) else first_document r
  end.

(** [neighbors] raises for a [chunk_node] that is not a node of the graph,
    before any neighbour is looked at. *)
Definition get_parent_document (chunk_node : string) : result (option string) :=
  if Nx.has_node (knowledge_graph self) chunk_node
  then first_document (Nx.neighbors (knowledge_graph self) chunk_node)
  else Raise NetworkXError.

(** [[self.get_parent_document(chunk) for chunk in connected_chunks]];
    [None] is the null a chunk without parent document yields. *)
Definition parent_documents (connected_chunks : list string)
  : result (list (option string)) :=
  comprehension (fun chunk => d ← get_parent_document chunk; Ok (Some d))
                connected_chunks.

(** The relevance of an entity node for a query: its connected chunks and
    its score. *)
Definition entity_relevance (query node : string) (data : Nx.NodeData)
  : result (list string * float) :=
  let confidence := default 0.5%float (Nx.confidence data) in
  connected_chunks ← neighbors_of_type node "chunk";
  parents ← parent_documents connected_chunks;
  let connected_docs : gset (option string) := list_to_set parents in
  let relevance_score :=
    if contains (lower node) (lower query) then 1%float else 0%float in
  let relevance_score :=
    (relevance_score + float_of_nat (length connected_chunks) * 0.1)%float in
  let relevance_score :=
    (relevance_score + float_of_nat (stdpp.base.size connected_docs) * 0.2)%float in
  let relevance_score := (relevance_score * confidence)%float in
  Ok (connected_chunks, relevance_score).

Definition scored : Type := string * string * list string * float.

(** The body of the loop over the nodes: the entry appended to
    [node_scores], if any. *)
Definition score_node (query : string) (nd : string * Nx.NodeData)
  : result (option scored) :=
  let '(node, data) := nd in
  if bool_decide (Nx.type data = Some "entity") then
    let entity_type := default "Unknown" (Nx.entity_type data) in
    cr ← entity_relevance query node data;
    let '(connected_chunks, relevance_score) := cr in
    Ok (if (entity_relevance_threshold settings <=? relevance_score)%float
        then Some (node, entity_type, connected_chunks, relevance_score)
        else None)
  else Ok None.

Definition node_scores (query : string) : result (list scored) :=
  comprehension (score_node query) (Nx.nodes (knowledge_graph self)).

(** [self.knowledge_graph.nodes[chunk].get('text', '')] *)
Definition chunk_text (chunk : string) : result string :=
  match Nx.node_data (knowledge_graph self) chunk with
  | Some d => Ok (default "" (Nx.text d))
  | None => Raise KeyError
  end.

(** The body of the loop over [top_entities]. *)
Definition entity_context (e : scored) : result string :=
  let '(entity, entity_type, connected_chunks, _) := e in
  let entity_info := "Entity: " +:+ entity +:+ " (Type: " +:+ entity_type +:+ ")" in
  chunk_contexts ← comprehension (fun chunk => t ← chunk_text chunk; Ok (Some t))
                                 (slice_to 3 connected_chunks);
  related_entities ← neighbors_of_type entity "entity";
  let related_info :=
    "Related Entities: " +:+ join ", " (slice_to 5 related_entities) in
  Ok (entity_info +:+ newline +:+ related_info +:+ newline
      +:+ "Relevant Chunks:" +:+ newline +:+ join newline chunk_contexts).

(** [extract_entities(query)] is computed by the source and only logged. *)
Definition get_graph_context (query : string) : result (list string) :=
  if negb (enable_graph_search settings)
     || bool_decide (Nx.nodes (knowledge_graph self) = [])
  then Ok []
  else
    scores ← node_scores query;
    let top_entities :=
      slice_to (top_k settings)
               (sorted_reverse PrimFloat.ltb (fun x : scored => snd x) scores) in
    comprehension (fun e => c ← entity_context e; Ok (Some c)) top_entities.

Definition get_relevant_context (user_input : string)
  (conversation_context : list string)
  : result (list string * list string * list string * list string) :=
  if (size (db_embeddings self) =? 0)%nat || (length (db_content self) =? 0)%nat
  then Ok ([], [], [], [])
  else
    let search_query := join " " (conversation_context ++ [user_input]) in
    lexical_results ← lexical_search search_query;
    semantic_results ← semantic_search search_query;
    graph_results ← get_graph_context search_query;
    let text_results := text_search search_query in
    Ok (lexical_results, semantic_results, graph_results, text_results).

End Methods.
End Search.

(** ** Sample data *)

Module Examples.

(** A graph whose only edge carries the weight NaN. *)
Definition nan_graph : Nx.Graph :=
  Nx.mkGraph
    [("doc_0", Nx.mkNode (Some "document") (Some "a") None None);
     ("doc_1", Nx.mkNode (Some "document") (Some "b") None None)]
    [("doc_0", "doc_1", Nx.mkEdge (Some "similar") (Some nan))].

(** Two passages of similarity 0.82 that mention one entity. *)
Definition similar_graph : Nx.Graph :=
  Nx.mkGraph
    [("doc_0", Nx.mkNode (Some "document") (Some "a") None None);
     ("Mary", Nx.mkNode (Some "entity") None (Some "PERSON") None);
     ("doc_1", Nx.mkNode (Some "document") (Some "b") None None)]
    [("doc_0", "Mary", Nx.mkEdge (Some "contains") None);
     ("doc_1", "Mary", Nx.mkEdge (Some "contains") None);
     ("doc_0", "doc_1", Nx.mkEdge (Some "similar") (Some 0.82%float))].

(** A retriever whose stores are the empty defaults of the constructor. *)
Definition empty_retriever : Search.SearchUtils :=
  Search.mkSearchUtils None (Search.Vec []) [] Nx.empty.

Definition default_settings : Search.Settings :=
  Search.mkSettings true true true true 5 0.6%float.

(** Settings with [top_k] 2 and with [top_k] 0. *)
Definition top2_settings : Search.Settings :=
  Search.mkSettings true true true true 2 0.6%float.

Definition top0_settings : Search.Settings :=
  Search.mkSettings true true true true 0 0.6%float.

(** Three passages with embeddings of two dimensions, and a model whose
    [encode] maps every query to the first axis. *)
Definition small_retriever : Search.SearchUtils :=
  Search.mkSearchUtils
    (Some (fun _ => [1; 0]%float))
    (Search.Mat [[1; 0]; [0; 1]; [0.5; 0]]%float 2)
    ["a b "; " b c"; "c a a"]
    Nx.empty.

(** Scenario C of the specification: the entity "Mary", of confidence 0.5,
    next to two chunk-typed nodes that share one parent document. *)
Definition mary_data : Nx.NodeData :=
  Nx.mkNode (Some "entity") None (Some "Person") (Some 0.5%float).

Definition mary_graph : Nx.Graph :=
  Nx.mkGraph
    [("doc_0", Nx.mkNode (Some "document") (Some "Mary met John.") None None);
     ("chunk_1", Nx.mkNode (Some "chunk") (Some "Mary met") None None);
     ("chunk_2", Nx.mkNode (Some "chunk") (Some "met John.") None None);
     ("Mary", mary_data)]
    [("doc_0", "chunk_1", Nx.mkEdge (Some "contains") None);
     ("doc_0", "chunk_2", Nx.mkEdge (Some "contains") None);
     ("chunk_1", "Mary", Nx.mkEdge (Some "contains") None);
     ("chunk_2", "Mary", Nx.mkEdge (Some "contains") None)].

Definition mary_retriever : Search.SearchUtils :=
  Search.mkSearchUtils None (Search.Vec []) [] mary_graph.

(** The same graph without the edge between the document and the second
    chunk: "Mary" has two chunks, and one of them has no parent
    document. *)
Definition orphan_graph : Nx.Graph :=
  Nx.mkGraph
    (Nx.nodes mary_graph)
    [("doc_0", "chunk_1", Nx.mkEdge (Some "contains") None);
     ("chunk_1", "Mary", Nx.mkEdge (Some "contains") None);
     ("chunk_2", "Mary", Nx.mkEdge (Some "contains") None)].

Definition orphan_retriever : Search.SearchUtils :=
  Search.mkSearchUtils None (Search.Vec []) [] orphan_graph.

(** The same graph with a second entity, "Bob", of confidence 2 at the same
    two chunks, and settings that keep one result. *)
Definition bob_data : Nx.NodeData :=
  Nx.mkNode (Some "entity") None (Some "Person") (Some 2%float).

Definition crowded_graph : Nx.Graph :=
  Nx.mkGraph
    (Nx.nodes mary_graph ++ [("Bob", bob_data)])
    (Nx.edges mary_graph
     ++ [("chunk_1", "Bob", Nx.mkEdge (Some "contains") None);
         ("chunk_2", "Bob", Nx.mkEdge (Some "contains") None)]).

Definition crowded_retriever : Search.SearchUtils :=
  Search.mkSearchUtils None (Search.Vec []) [] crowded_graph.

Definition top1_settings : Search.Settings :=
  Search.mkSettings true true true true 1 0.6%float.

(** The same retriever with a model that has no [encode] method. *)
Definition keyword_retriever : Search.SearchUtils :=
  Search.mkSearchUtils None (Search.db_embeddings small_retriever)
                       (Search.db_content small_retriever) Nx.empty.

(** A pipeline that knows three texts and finds nothing in any other. *)
Definition lone_subtree (tokens : list Spacy.Token) (sp : Spacy.Span)
  : list Spacy.Token :=
  List.filter (fun t => (Spacy.i t =? Spacy.start sp)%nat) tokens.

Definition sister_text : string := "John's sister is Mary.".

Definition sister_tokens : list Spacy.Token :=
  [ Spacy.mkToken 0 0 "John" "John" "PROPN";
    Spacy.mkToken 1 4 "'s" "'s" "PART";
    Spacy.mkToken 2 7 "sister" "sister" "NOUN";
    Spacy.mkToken 3 14 "is" "be" "AUX";
    Spacy.mkToken 4 17 "Mary" "Mary" "PROPN";
    Spacy.mkToken 5 21 "." "." "PUNCT" ].

Definition sister_parse : Spacy.Parse :=
  Spacy.mkParse sister_tokens
    [Spacy.mkSpan 0 1 0 4 "PERSON"; Spacy.mkSpan 4 5 17 21 "PERSON"]
    [Spacy.mkSpan 0 6 0 22 ""]
    (lone_subtree sister_tokens).

Definition brother_text : string :=
  "John met Mary. John is the brother of Mary.".

Definition brother_tokens : list Spacy.Token :=
  [ Spacy.mkToken 0 0 "John" "John" "PROPN";
    Spacy.mkToken 1 5 "met" "meet" "VERB";
    Spacy.mkToken 2 9 "Mary" "Mary" "PROPN";
    Spacy.mkToken 3 13 "." "." "PUNCT";
    Spacy.mkToken 4 15 "John" "John" "PROPN";
    Spacy.mkToken 5 20 "is" "be" "AUX";
    Spacy.mkToken 6 23 "the" "the" "DET";
    Spacy.mkToken 7 27 "brother" "brother" "NOUN";
    Spacy.mkToken 8 35 "of" "of" "ADP";
    Spacy.mkToken 9 38 "Mary" "Mary" "PROPN";
    Spacy.mkToken 10 42 "." "." "PUNCT" ].

(** The subtree below the root of the first "John" holds the verb. *)
Definition brother_parse : Spacy.Parse :=
  Spacy.mkParse brother_tokens
    [Spacy.mkSpan 0 1 0 4 "PERSON"; Spacy.mkSpan 2 3 9 13 "PERSON";
     Spacy.mkSpan 4 5 15 19 "PERSON"; Spacy.mkSpan 9 10 38 42 "PERSON"]
    [Spacy.mkSpan 0 4 0 14 ""; Spacy.mkSpan 4 11 15 43 ""]
    (fun sp => List.filter
                 (fun t => (Spacy.start sp <=? Spacy.i t)%nat
                           && (Spacy.i t <=? Spacy.start sp + 1)%nat
                           && (Spacy.i t <? 2)%nat
                           || (Spacy.i t =? Spacy.start sp)%nat)
                 brother_tokens).

Definition product_text : string := "doc_2 ships Friday.".

Definition product_tokens : list Spacy.Token :=
  [ Spacy.mkToken 0 0 "doc_2" "doc_2" "PROPN";
    Spacy.mkToken 1 6 "ships" "ship" "VERB";
    Spacy.mkToken 2 12 "Friday" "Friday" "PROPN";
    Spacy.mkToken 3 18 "." "." "PUNCT" ].

Definition product_parse : Spacy.Parse :=
  Spacy.mkParse product_tokens
    [Spacy.mkSpan 0 1 0 5 "PRODUCT"]
    [Spacy.mkSpan 0 4 0 19 ""]
    (lone_subtree product_tokens).

Definition pipeline (text : string) : Spacy.Parse :=
  if String.eqb text sister_text then sister_parse
  else if String.eqb text brother_text then brother_parse
  else if String.eqb text product_text then product_parse
  else Spacy.mkParse [] [] [] (fun _ => []).

(** The cosine of two vectors, in binary64. *)
Definition cosine (a b : list float) : float :=
  (Search.dot a b
   / (PrimFloat.sqrt (Search.dot a a) * PrimFloat.sqrt (Search.dot b b)))%float.

End Examples.

(** * Properties *)

(** ** Floats *)

Lemma SFcompare_antisym x y c :
  SFcompare x y = Some c -> SFcompare y x = Some (CompOpp c).
Proof.
  destruct x as [sx|sx| |sx mx ex], y as [sy|sy| |sy my ey]; simpl;
    intros H; try discriminate; try (injection H as <-);
    try (destruct sx; reflexivity); try (destruct sy; reflexivity);
    try (destruct sx, sy; reflexivity).
  destruct sx, sy; simpl; try reflexivity.
  - rewrite (Z.compare_antisym ey ex).
    destruct (ey ?= ex)%Z; simpl; try reflexivity.
    do 2 f_equal. exact (eq_sym (Pos.compare_cont_antisym mx my Eq)).
  - rewrite (Z.compare_antisym ey ex).
    destruct (ey ?= ex)%Z; simpl; try reflexivity.
    f_equal. exact (eq_sym (Pos.compare_cont_antisym mx my Eq)).
Qed.

Lemma is_nan_false_compare x y :
  is_nan x = false -> is_nan y = false ->
  exists c, SFcompare (Prim2SF x) (Prim2SF y) = Some c.
Proof.
  unfold is_nan. rewrite !negb_false_iff, !FloatAxioms.eqb_spec. unfold SFeqb.
  destruct (Prim2SF x), (Prim2SF y); simpl; try discriminate; eauto.
Qed.

(** Between numbers, "not below" is "at least". *)
Lemma float_not_lt_ge w t :
  is_nan w = false -> is_nan t = false ->
  (w <? t)%float = false -> (t <=? w)%float = true.
Proof.
  intros Hw Ht. rewrite FloatAxioms.ltb_spec, FloatAxioms.leb_spec.
  unfold SFltb, SFleb.
  destruct (is_nan_false_compare w t Hw Ht) as [c Hc].
  rewrite Hc, (SFcompare_antisym _ _ _ Hc).
  destruct c; simpl; congruence.
Qed.

(** ** Adjacency entries *)

Section EdgeFacts.
Import Nx.

Lemma joins_sym u v e : joins u v e = joins v u e.
Proof. destruct e as [[a b] d]. simpl. apply orb_comm. Qed.

Lemma joins_self (e : string * string * EdgeData) :
  joins (fst (fst e)) (snd (fst e)) e = true.
Proof. destruct e as [[a b] d]. simpl. now rewrite !String.eqb_refl. Qed.

(** Entries that join the same pair are joined by each other's endpoints. *)
Lemma joins_trans u v (e1 e2 : string * string * EdgeData) :
  joins u v e1 = true -> joins u v e2 = true ->
  joins (fst (fst e1)) (snd (fst e1)) e2 = true.
Proof.
  destruct e1 as [[a b] d], e2 as [[a' b'] d']. simpl.
  rewrite !orb_true_iff, !andb_true_iff, !String.eqb_eq.
  intros [[-> ->]|[-> ->]] [[-> ->]|[-> ->]]; tauto.
Qed.

Lemma joins_swap (e1 e2 : string * string * EdgeData) :
  joins (fst (fst e1)) (snd (fst e1)) e2 = joins (fst (fst e2)) (snd (fst e2)) e1.
Proof.
  destruct e1 as [[a b] d], e2 as [[a' b'] d']. simpl.
  rewrite (String.eqb_sym a' a), (String.eqb_sym b' b).
  rewrite (String.eqb_sym a' b), (String.eqb_sym b' a).
  f_equal. apply andb_comm.
Qed.

Lemma distinct_pairs_unique l e1 e2 :
  distinct_pairs l = true -> In e1 l -> In e2 l ->
  joins (fst (fst e1)) (snd (fst e1)) e2 = true -> e1 = e2.
Proof.
  induction l as [|e r IH]; simpl; [tauto|].
  rewrite andb_true_iff, forallb_forall. intros [Hhd Htl] H1 H2 J.
  destruct H1 as [<-|H1], H2 as [<-|H2]; auto.
  - apply Hhd in H2. now rewrite J in H2.
  - apply Hhd in H1. rewrite joins_swap, J in H1. discriminate.
Qed.

Lemma remove_edges_from_nodes l G :
  nodes (remove_edges_from G l) = nodes G.
Proof.
  unfold remove_edges_from. revert G.
  induction l as [|uv l IH]; intros G; simpl; [reflexivity|].
  now rewrite IH.
Qed.

Lemma remove_edges_from_edges l G e :
  In e (edges (remove_edges_from G l)) <->
  In e (edges G) /\ forall uv, In uv l -> joins (fst uv) (snd uv) e = false.
Proof.
  unfold remove_edges_from. revert G.
  induction l as [|uv l IH]; intros G; simpl.
  - intuition.
  - rewrite IH. simpl.
    rewrite filter_In, negb_true_iff. split.
    + intros [[Hin Hj] Hall]. split; [exact Hin|].
      intros uv' [<-|Hin']; auto.
    + intros [Hin Hall]. repeat split; auto.
Qed.

End EdgeFacts.

(** ** Pruning *)

Section Pruning.
Import Nx.

Lemma prune_graph_edges G t e :
  In e (edges (Kg.prune_graph G t)) <->
  In e (edges G) /\
  forall e', In e' (edges G) ->
    match weight (snd e') with
    | Some w => (w <? t)%float = true ->
                joins (fst (fst e')) (snd (fst e')) e = false
    | None => True
    end.
Proof.
  unfold Kg.prune_graph. rewrite remove_edges_from_edges.
  split; intros [Hin Hall]; split; auto.
  - intros [[u v] d] Hin'. simpl. destruct (weight d) as [w|] eqn:Hw; auto.
    intros Hlt. apply (Hall (u, v)).
    apply list_elem_of_In, list_elem_of_omap. exists (u, v, d).
    rewrite list_elem_of_In. split; auto. now rewrite Hw, Hlt.
  - intros [u v] Huv. apply list_elem_of_In, list_elem_of_omap in Huv.
    destruct Huv as [[[u' v'] d] [Hin' Heq]]. apply list_elem_of_In in Hin'.
    specialize (Hall _ Hin'). simpl in Hall.
    destruct (weight d) as [w|]; [|discriminate].
    destruct (w <? t)%float; [|discriminate].
    injection Heq as <- <-. auto.
Qed.

(** C5, as the code has it: after [prune_graph G t] no remaining edge has a
    weight below [t], so every remaining weight that is a number is at least
    [t] when [t] is a number (an edge whose weight is NaN stays); every edge
    without a weight stays, and the remaining edges and the nodes are those
    of [G], unchanged. *)
Theorem prune_graph_keeps_no_lighter_edge (G : Graph) (t : float) :
  wf G ->
  (forall u v d w,
      In (u, v, d) (edges (Kg.prune_graph G t)) -> weight d = Some w ->
      (w <? t)%float = false /\
      (is_nan w = false -> is_nan t = false -> (t <=? w)%float = true)) /\
  (forall e, In e (edges G) -> weight (snd e) = None ->
             In e (edges (Kg.prune_graph G t))) /\
  (forall e, In e (edges (Kg.prune_graph G t)) -> In e (edges G)) /\
  nodes (Kg.prune_graph G t) = nodes G.
Proof.
  intros Hwf.
  assert (Hkept : forall u v d w,
             In (u, v, d) (edges (Kg.prune_graph G t)) -> weight d = Some w ->
             (w <? t)%float = false).
  { intros u v d w H Hw. apply prune_graph_edges in H as [Hin Hall].
    specialize (Hall _ Hin). simpl in Hall. rewrite Hw in Hall.
    destruct (w <? t)%float eqn:Hlt; [|reflexivity].
    specialize (Hall eq_refl). now rewrite !String.eqb_refl in Hall. }
  split; [|split; [|split]].
  - intros u v d w H Hw. split; [now apply (Hkept u v d)|].
    intros Hnum Htnum. apply float_not_lt_ge; auto. now apply (Hkept u v d).
  - intros e Hin Hnone. apply prune_graph_edges. split; [exact Hin|].
    intros e' Hin'. destruct (weight (snd e')) as [w|] eqn:Hw; [|exact I].
    intros _. destruct (joins _ _ e) eqn:J; [|reflexivity].
    assert (e' = e) by (eapply distinct_pairs_unique; eauto).
    subst e'. congruence.
  - intros e He. now apply prune_graph_edges in He.
  - unfold Kg.prune_graph. apply remove_edges_from_nodes.
Qed.

(** Scenario B of the specification: pruning the sample graph at 0.9
    removes the edge of weight 0.82 and keeps the two edges without weight;
    pruning at 0.8 keeps every edge. *)
Lemma prune_graph_keeps_no_lighter_edge_witness :
  (forall e, In e (edges Examples.similar_graph) -> weight (snd e) = None ->
             In e (edges (Kg.prune_graph Examples.similar_graph 0.9%float))) /\
  edges (Kg.prune_graph Examples.similar_graph 0.9%float)
  = [("doc_0", "Mary", mkEdge (Some "contains") None);
     ("doc_1", "Mary", mkEdge (Some "contains") None)] /\
  edges (Kg.prune_graph Examples.similar_graph 0.8%float)
  = edges Examples.similar_graph.
Proof.
  split; [|split; vm_compute; reflexivity].
  apply (prune_graph_keeps_no_lighter_edge Examples.similar_graph 0.9%float).
  reflexivity.
Defined.

(** C5 as stated fails on a NaN weight: the edge of [nan_graph] carries an
    explicit weight, survives pruning at 0.7, and its weight is not at
    least 0.7. *)
Lemma prune_graph_keeps_nan_weight :
  wf Examples.nan_graph /\
  exists u v d w,
    In (u, v, d) (edges (Kg.prune_graph Examples.nan_graph 0.7%float)) /\
    weight d = Some w /\ (0.7 <=? w)%float = false.
Proof.
  split; [reflexivity|].
  exists "doc_0", "doc_1", (mkEdge (Some "similar") (Some nan)), nan.
  vm_compute. auto.
Qed.

End Pruning.

(** ** Retrieval over empty stores *)

Section EmptyStores.
Import Py Search.

(** C7: when the embeddings array or the content list is empty,
    [get_relevant_context] returns four empty lists and raises nothing. *)
Theorem get_relevant_context_empty (settings : Settings) (self : SearchUtils)
  (user_input : string) (conversation_context : list string) :
  size (db_embeddings self) = 0%nat \/ db_content self = [] ->
  get_relevant_context settings self user_input conversation_context
  = Ok ([], [], [], []).
Proof.
  unfold get_relevant_context. intros [H|H]; rewrite H; simpl.
  - reflexivity.
  - now rewrite orb_true_r.
Qed.

Lemma get_relevant_context_empty_witness :
  get_relevant_context Examples.default_settings Examples.empty_retriever
                       "Who is Mary?" ["Hello"]
  = Ok ([], [], [], []).
Proof.
  apply (get_relevant_context_empty Examples.default_settings
           Examples.empty_retriever "Who is Mary?" ["Hello"]).
  left. reflexivity.
Defined.

End EmptyStores.

(** ** The family-relation pass *)

Section FamilyRelations.
Import Py.

Lemma in_list_In x l : in_list x l = true <-> In x l.
Proof.
  unfold in_list. rewrite existsb_exists. split.
  - intros [y [Hin Heq]]. apply String.eqb_eq in Heq. now subst.
  - intros Hin. exists x. split; [exact Hin|apply String.eqb_refl].
Qed.

Lemma child_is_no_keyword : ~ In "child" Kg.FAMILY_RELATIONS.
Proof. rewrite <- in_list_In. vm_compute. discriminate. Qed.

(** What follows a triple [(e1, k, e2)]. *)
Lemma reverse_relation_spec e1 k e2 t :
  In t (Kg.reverse_relation e1 k e2) <->
  ((k = "sister" \/ k = "brother") /\ t = (e2, k, e1)) \/
  (k = "parent" /\ t = (e2, "child", e1)) \/
  (k = "child" /\ t = (e2, "parent", e1)).
Proof.
  unfold Kg.reverse_relation, in_list. simpl.
  destruct (String.eqb_spec k "sister") as [->|Hs]; simpl.
  { split; [intros [<-|[]]; auto|].
    intros [[_ ->]|[[? _]|[? _]]]; try discriminate. now left. }
  destruct (String.eqb_spec k "brother") as [->|Hb]; simpl.
  { split; [intros [<-|[]]; auto|].
    intros [[_ ->]|[[? _]|[? _]]]; try discriminate. now left. }
  destruct (String.eqb_spec k "parent") as [->|Hp]; simpl.
  { split; [intros [<-|[]]; auto|].
    intros [[[?|?] _]|[[_ ->]|[? _]]]; try discriminate. now left. }
  destruct (String.eqb_spec k "child") as [->|Hc]; simpl.
  { split; [intros [<-|[]]; auto|].
    intros [[[?|?] _]|[[? _]|[_ ->]]]; try discriminate. now left. }
  split; [tauto|]. intros [[[?|?] _]|[[? _]|[? _]]]; contradiction.
Qed.

Variable pipeline : string -> Spacy.Parse.

Lemma extract_family_relations_In text t :
  In t (Kg.extract_family_relations pipeline text) <->
  exists a k b,
    Kg.emitted_forward pipeline text a k b /\
    (t = (a, k, b) \/ In t (Kg.reverse_relation a k b)).
Proof.
  unfold Kg.extract_family_relations, Kg.emitted_forward.
  rewrite in_flat_map.
  split.
  - intros [sent [Hsent Hin]]. unfold Kg.sentence_family_relations in Hin.
    apply in_flat_map in Hin as [[entity1 entity2] [Hpair Hin]].
    apply in_flat_map in Hin as [k [Hk Hin]].
    destruct (contains k _) eqn:Hc; [|destruct Hin].
    eexists _, k, _. split.
    + exists sent, entity1, entity2. repeat split; eauto.
    + destruct Hin as [<-|Hin]; auto.
  - intros (a & k & b & (sent & entity1 & entity2 & Hsent & Hpair & Hk & Hc
                          & -> & ->) & Hin).
    exists sent. split; [exact Hsent|].
    unfold Kg.sentence_family_relations.
    apply in_flat_map. exists (entity1, entity2). split; [exact Hpair|].
    apply in_flat_map. exists k. split; [exact Hk|].
    rewrite Hc. destruct Hin as [->|Hin]; [now left|now right].
Qed.

(** C4: in the output of [extract_family_relations], a "sister" or
    "brother" triple comes with its mirror image, a "parent" triple with the
    mirrored "child" triple and a "child" triple with the mirrored "parent"
    triple; after a triple of any other keyword of the vocabulary nothing is
    appended, so the triples of such a keyword in the output are exactly the
    ones emitted for a pair of persons in their order of occurrence. *)
Theorem family_reciprocal_rules (text : string) :
  let out := Kg.extract_family_relations pipeline text in
  (forall a k b, k = "sister" \/ k = "brother" ->
                 In (a, k, b) out -> In (b, k, a) out) /\
  (forall a b, In (a, "parent", b) out -> In (b, "child", a) out) /\
  (forall a b, In (a, "child", b) out -> In (b, "parent", a) out) /\
  (forall k, In k Kg.FAMILY_RELATIONS ->
             k <> "sister" -> k <> "brother" -> k <> "parent" ->
             forall a b,
               Kg.reverse_relation a k b = [] /\
               (In (a, k, b) out <-> Kg.emitted_forward pipeline text a k b)).
Proof.
  cbv zeta. pose proof child_is_no_keyword as Hchild.
  assert (Hkw : forall a k b, Kg.emitted_forward pipeline text a k b ->
                              In k Kg.FAMILY_RELATIONS).
  { intros a k b (sent & e1 & e2 & _ & _ & Hk & _). exact Hk. }
  repeat split.
  - intros a k b Hk Hin.
    apply extract_family_relations_In in Hin as (a' & k' & b' & Hfw & Hin).
    apply extract_family_relations_In.
    destruct Hin as [Heq|Hin].
    + injection Heq as -> -> ->. exists a', k', b'. split; [exact Hfw|].
      right. apply reverse_relation_spec. left. auto.
    + apply reverse_relation_spec in Hin
        as [[Hk' Heq]|[[-> Heq]|[-> Heq]]]; injection Heq as -> -> ->.
      * exists a', k', b'. split; [exact Hfw|now left].
      * destruct Hk; discriminate.
      * destruct Hk; discriminate.
  - intros a b Hin.
    apply extract_family_relations_In in Hin as (a' & k' & b' & Hfw & Hin).
    apply extract_family_relations_In.
    destruct Hin as [Heq|Hin].
    + injection Heq as -> <- ->. exists a', "parent", b'.
      split; [exact Hfw|]. right. apply reverse_relation_spec. auto.
    + apply reverse_relation_spec in Hin as [[Hk' Heq]|[[-> Heq]|[-> Heq]]].
      * injection Heq as -> <- ->. destruct Hk'; discriminate.
      * discriminate.
      * apply Hkw in Hfw. contradiction.
  - intros a b Hin.
    apply extract_family_relations_In in Hin as (a' & k' & b' & Hfw & Hin).
    apply extract_family_relations_In.
    destruct Hin as [Heq|Hin].
    + injection Heq as -> <- ->. apply Hkw in Hfw. contradiction.
    + apply reverse_relation_spec in Hin as [[Hk' Heq]|[[-> Heq]|[-> Heq]]].
      * injection Heq as -> <- ->. destruct Hk'; discriminate.
      * injection Heq as -> ->. exists a', "parent", b'.
        split; [exact Hfw|now left].
      * discriminate.
  - destruct (Kg.reverse_relation a k b) as [|t r] eqn:Hrev; [reflexivity|].
    assert (Hin : In t (Kg.reverse_relation a k b)) by (rewrite Hrev; now left).
    apply reverse_relation_spec in Hin as [[[?|?] _]|[[? _]|[? _]]];
      subst; contradiction.
  - intros Hin.
    apply extract_family_relations_In in Hin as (a' & k' & b' & Hfw & Hin).
    destruct Hin as [Heq|Hin].
    + injection Heq as -> -> ->. exact Hfw.
    + apply reverse_relation_spec in Hin as [[Hk' Heq]|[[-> Heq]|[-> Heq]]].
      * injection Heq as -> -> ->. destruct Hk'; contradiction.
      * apply Hkw in Hfw. injection Heq as -> -> ->. contradiction.
      * apply Hkw in Hfw. contradiction.
  - intros Hfw. apply extract_family_relations_In.
    exists a, k, b. split; [exact Hfw|now left].
Qed.

End FamilyRelations.

(** ** Comprehensions, slices and sorting *)

Section ListFacts.
Import Py.

Context {A B : Type}.

Lemma comprehension_ok (f : A -> result (option B)) l :
  (forall x, In x l -> exists y, f x = Ok y) ->
  exists ys, comprehension f l = Ok ys.
Proof.
  induction l as [|x l IH]; simpl; intros Hall; [eauto|].
  destruct (Hall x) as [y Hy]; [now left|]. rewrite Hy. simpl.
  destruct IH as [ys Hys]; [intros; apply Hall; now right|].
  rewrite Hys. simpl. eauto.
Qed.

Lemma comprehension_In (f : A -> result (option B)) l ys y :
  comprehension f l = Ok ys ->
  (In y ys <-> exists x, In x l /\ f x = Ok (Some y)).
Proof.
  revert ys. induction l as [|x l IH]; simpl; intros ys H.
  - injection H as <-. simpl. split; [tauto|]. intros [x [[] _]].
  - destruct (f x) as [o|e] eqn:Hf; simpl in H; [|discriminate].
    destruct (comprehension f l) as [ys'|e] eqn:Hc; simpl in H; [|discriminate].
    injection H as <-. specialize (IH ys' eq_refl).
    destruct o as [b|]; simpl; rewrite ?IH; split.
    + intros [<-|[x' [Hin Hx']]]; eauto.
    + intros [x' [[<-|Hin] Hx']]; [left; congruence|right; eauto].
    + intros [x' [Hin Hx']]; eauto.
    + intros [x' [[<-|Hin] Hx']]; [congruence|eauto].
Qed.

Lemma comprehension_length (f : A -> result (option B)) l ys :
  comprehension f l = Ok ys -> length ys <= length l.
Proof.
  revert ys. induction l as [|x l IH]; simpl; intros ys H.
  - injection H as <-. simpl. lia.
  - destruct (f x) as [o|e]; simpl in H; [|discriminate].
    destruct (comprehension f l) as [ys'|e]; simpl in H; [|discriminate].
    injection H as <-. specialize (IH ys' eq_refl).
    destruct o; simpl; lia.
Qed.

(** A comprehension without condition over a total element expression. *)
Lemma comprehension_map (g : A -> B) l :
  comprehension (fun x => Ok (Some (g x))) l = Ok (map g l).
Proof.
  induction l as [|x l IH]; simpl; [reflexivity|]. now rewrite IH.
Qed.

Lemma comprehension_ext (f g : A -> result (option B)) l :
  (forall x, In x l -> f x = g x) -> comprehension f l = comprehension g l.
Proof.
  induction l as [|x l IH]; simpl; intros H; [reflexivity|].
  rewrite H by now left. rewrite IH; [reflexivity|].
  intros; apply H; now right.
Qed.

Lemma slice_to_length (k : Z) (l : list A) :
  (0 <= k)%Z -> (Z.of_nat (length (slice_to k l)) <= k)%Z.
Proof.
  intros Hk. unfold slice_to. destruct (Z.leb_spec 0 k); [|lia].
  rewrite length_firstn. lia.
Qed.

Lemma slice_to_all (k : Z) (l : list A) :
  (Z.of_nat (length l) <= k)%Z -> slice_to k l = l.
Proof.
  intros Hk. unfold slice_to. destruct (Z.leb_spec 0 k); [|lia].
  apply firstn_all2. lia.
Qed.

Lemma firstn_incl n (l : list A) x : In x (firstn n l) -> In x l.
Proof.
  intros H. rewrite <- (firstn_skipn n l). apply in_or_app. now left.
Qed.

Lemma slice_to_incl (k : Z) (l : list A) x : In x (slice_to k l) -> In x l.
Proof. unfold slice_to. destruct (0 <=? k)%Z; apply firstn_incl. Qed.

End ListFacts.

Section SortFacts.
Import Py.

Context {A K : Type} (lt : K -> K -> bool) (key : A -> K).

Lemma insert_desc_perm x l : Permutation (insert_desc lt key x l) (x :: l).
Proof.
  induction l as [|y l IH]; simpl; [reflexivity|].
  destruct (lt (key x) (key y)); [|reflexivity].
  rewrite IH. apply perm_swap.
Qed.

Lemma sorted_reverse_perm l : Permutation (sorted_reverse lt key l) l.
Proof.
  induction l as [|x l IH]; simpl; [reflexivity|].
  rewrite insert_desc_perm. now constructor.
Qed.

Lemma sorted_reverse_length l : length (sorted_reverse lt key l) = length l.
Proof. apply Permutation_length, sorted_reverse_perm. Qed.

Lemma sorted_reverse_In l x : In x (sorted_reverse lt key l) <-> In x l.
Proof.
  split; apply Permutation_in; [|symmetry]; apply sorted_reverse_perm.
Qed.

Lemma insert_asc_perm x l : Permutation (insert_asc lt key x l) (x :: l).
Proof.
  induction l as [|y l IH]; simpl; [reflexivity|].
  destruct (lt (key y) (key x)); [|reflexivity].
  rewrite IH. apply perm_swap.
Qed.

Lemma sorted_perm l : Permutation (sorted lt key l) l.
Proof.
  induction l as [|x l IH]; simpl; [reflexivity|].
  rewrite insert_asc_perm. now constructor.
Qed.

End SortFacts.

(** ** Rankings *)

Section Rankings.
Import Py Search.

Variable score : nat -> nat.

Lemma insert_desc_ranked x l :
  StronglySorted (ranks_before score) l ->
  Forall (fun y => x < y) l ->
  StronglySorted (ranks_before score) (insert_desc Nat.ltb score x l).
Proof.
  induction l as [|y r IH]; simpl; intros Hs Hlt.
  - repeat constructor.
  - apply StronglySorted_inv in Hs as [Hr Hy].
    apply Forall_cons_iff in Hlt as [Hxy Hlt].
    destruct (Nat.ltb_spec (score x) (score y)) as [Hk|Hk].
    + constructor; [now apply IH|].
      apply List.Forall_forall. intros z Hz.
      apply (Permutation_in _ (insert_desc_perm Nat.ltb score x r)) in Hz.
      destruct Hz as [<-|Hz]; [now left|].
      now apply (proj1 (List.Forall_forall _ _) Hy).
    + constructor; [now constructor|].
      constructor.
      * unfold ranks_before. lia.
      * apply List.Forall_forall. intros z Hz.
        pose proof (proj1 (List.Forall_forall _ _) Hy z Hz) as Hyz.
        pose proof (proj1 (List.Forall_forall _ _) Hlt z Hz) as Hxz.
        unfold ranks_before in *. lia.
Qed.

Lemma sorted_reverse_seq_ranked a n :
  StronglySorted (ranks_before score)
                 (sorted_reverse Nat.ltb score (seq a n)).
Proof.
  revert a. induction n as [|n IH]; intros a; simpl; [constructor|].
  apply insert_desc_ranked; [apply IH|].
  apply List.Forall_forall. intros y Hy.
  apply sorted_reverse_In, in_seq in Hy. lia.
Qed.

End Rankings.

Section RankFacts.
Import Py Search.

Lemma rank_perm scores : Permutation (rank scores) (seq 0 (length scores)).
Proof. apply sorted_reverse_perm. Qed.

Lemma rank_ranked scores :
  StronglySorted (ranks_before (fun i => nth i scores 0%nat)) (rank scores).
Proof. apply sorted_reverse_seq_ranked. Qed.

Lemma rank_bound scores i : In i (rank scores) -> i < length scores.
Proof.
  intros H. apply (Permutation_in _ (rank_perm scores)), in_seq in H. lia.
Qed.

Lemma contents_at_ok db_content top_indices :
  (forall i, In i top_indices -> i < length db_content) ->
  contents_at db_content top_indices
  = Ok (map (fun i => strip (nth i db_content "")) top_indices).
Proof.
  intros Hb. unfold contents_at.
  rewrite <- comprehension_map. apply comprehension_ext.
  intros i Hi. unfold index.
  rewrite (nth_error_nth' db_content "" (Hb i Hi)). reflexivity.
Qed.

Lemma contents_at_length db_content top_indices r :
  contents_at db_content top_indices = Ok r -> length r <= length top_indices.
Proof. apply comprehension_length. Qed.

End RankFacts.

(** ** Lexical search *)

Section LexicalSearch.
Import Py Search.

Variable settings : Settings.
Variable self : SearchUtils.

Lemma overlap_empty query_words : overlap query_words "" = 0%nat.
Proof.
  unfold overlap, word_set. simpl.
  rewrite intersection_empty_r_L. apply size_empty.
Qed.

Lemma overlap_scores_nth query_words i :
  nth i (map (overlap query_words) (db_content self)) 0%nat
  = overlap query_words (nth i (db_content self) "").
Proof.
  rewrite <- (overlap_empty query_words) at 1. apply map_nth.
Qed.

(** C9: with lexical search enabled and a non-negative [top_k],
    [lexical_search] returns the stripped content strings at the first
    [top_k] indices of the ranking of all content indices by the number of
    words the content shares with the query, larger numbers first and, among
    equal numbers, smaller indices first. *)
Theorem lexical_search_ranks (query : string) :
  enable_lexical_search settings = true ->
  (0 <= top_k settings)%Z ->
  let score i :=
    stdpp.base.size (word_set query ∩ word_set (nth i (db_content self) "")) in
  exists order : list nat,
    Permutation order (seq 0 (length (db_content self))) /\
    StronglySorted (ranks_before score) order /\
    lexical_search settings self query
    = Ok (map (fun i => strip (nth i (db_content self) ""))
              (firstn (Z.to_nat (top_k settings)) order)).
Proof.
  intros Hen Hk score.
  set (scores := map (overlap (word_set query)) (db_content self)).
  exists (rank scores). split; [|split].
  - rewrite <- (length_map (overlap (word_set query))). apply rank_perm.
  - pose proof (rank_ranked scores) as Hs.
    assert (Heq : forall i, nth i scores 0%nat = score i)
      by (intros i; apply overlap_scores_nth).
    clearbody scores. induction Hs as [|i l Hs IH Hall]; constructor; auto.
    revert Hall. apply List.Forall_impl. intros j. unfold ranks_before.
    now rewrite !Heq.
  - unfold lexical_search. rewrite Hen. simpl. fold scores.
    unfold slice_to. destruct (Z.leb_spec 0 (top_k settings)); [|lia].
    apply contents_at_ok. intros i Hi.
    apply firstn_incl, rank_bound in Hi.
    unfold scores in Hi. now rewrite length_map in Hi.
Qed.

End LexicalSearch.

Section LexicalSearchSample.
Import Py Search.

Lemma lexical_search_ranks_witness :
  exists order : list nat,
    Permutation order [0; 1; 2]%nat /\
    StronglySorted
      (ranks_before (fun i =>
         stdpp.base.size
           (word_set "a c"
            ∩ word_set (nth i (db_content Examples.small_retriever) ""))))
      order /\
    lexical_search Examples.top2_settings Examples.small_retriever "a c"
    = Ok (map (fun i => strip (nth i (db_content Examples.small_retriever) ""))
              (firstn 2 order)).
Proof.
  apply (lexical_search_ranks Examples.top2_settings Examples.small_retriever
           "a c"); [reflexivity|vm_compute; discriminate].
Defined.

(** The sample corpus, queried for "a c": the third passage shares two
    words with the query, the first two share one and keep their order. *)
Example lexical_search_sample :
  lexical_search Examples.top2_settings Examples.small_retriever "a c"
  = Ok ["c a a"; "a b"].
Proof. vm_compute. reflexivity. Qed.

End LexicalSearchSample.

(** ** The bound [top_k] *)

Section TopK.
Import Py Search.

Variable settings : Settings.
Variable self : SearchUtils.

Hypothesis top_k_nonneg : (0 <= top_k settings)%Z.

Lemma lexical_search_top_k query :
  exists r, lexical_search settings self query = Ok r /\
            (Z.of_nat (length r) <= top_k settings)%Z.
Proof.
  unfold lexical_search. destruct (enable_lexical_search settings); simpl.
  - rewrite contents_at_ok.
    + eexists. split; [reflexivity|]. rewrite length_map.
      now apply slice_to_length.
    + intros i Hi. apply slice_to_incl, rank_bound in Hi.
      now rewrite length_map in Hi.
  - exists []. split; [reflexivity|]. simpl. lia.
Qed.

Lemma text_search_top_k query :
  (Z.of_nat (length (text_search settings self query)) <= top_k settings)%Z.
Proof.
  unfold text_search. destruct (enable_text_search settings); simpl.
  - now apply slice_to_length.
  - lia.
Qed.

Lemma get_graph_context_top_k query r :
  get_graph_context settings self query = Ok r ->
  (Z.of_nat (length r) <= top_k settings)%Z.
Proof.
  unfold get_graph_context.
  destruct (negb _ || _); [intros [= <-]; simpl; lia|].
  destruct (node_scores settings self query) as [scores|e]; simpl;
    [|discriminate].
  intros H. apply comprehension_length in H.
  pose proof (slice_to_length (top_k settings)
                (sorted_reverse PrimFloat.ltb (fun x : scored => snd x) scores)
                top_k_nonneg).
  lia.
Qed.

(** The fallback of [semantic_search], for a model without [encode],
    slices like the other strategies. *)
Lemma semantic_search_fallback_top_k query r :
  model self = None ->
  semantic_search settings self query = Ok r ->
  (Z.of_nat (length r) <= top_k settings)%Z.
Proof.
  unfold semantic_search. intros ->.
  destruct (enable_semantic_search settings); simpl;
    [|intros [= <-]; simpl; lia].
  intros H. apply contents_at_length in H.
  match type of H with _ <= length (slice_to ?k ?l) =>
    pose proof (slice_to_length k l top_k_nonneg) end.
  lia.
Qed.

(** With [encode], the slice [[-top_k:]] bounds the result when [top_k] is
    positive. *)
Lemma semantic_search_encode_top_k query r :
  (0 < top_k settings)%Z ->
  semantic_search settings self query = Ok r ->
  (Z.of_nat (length r) <= top_k settings)%Z.
Proof.
  intros Hpos. unfold semantic_search.
  destruct (enable_semantic_search settings); simpl;
    [|intros [= <-]; simpl; lia].
  destruct (model self) as [encode|].
  - destruct (dot_flatten _ _) as [cos_scores|e]; simpl; [|discriminate].
    intros H. apply contents_at_length in H.
    rewrite length_rev in H. unfold slice_from in H.
    destruct (Z.leb_spec 0 (- top_k settings)); [lia|].
    rewrite length_skipn in H. lia.
  - simpl. intros H. apply contents_at_length in H.
    match type of H with _ <= length (slice_to ?k ?l) =>
      pose proof (slice_to_length k l top_k_nonneg) end.
    lia.
Qed.

End TopK.

Section TopKZero.
Import Py Search.

(** C8 at [top_k = 0]: [semantic_search] with a model that has [encode]
    takes the slice [[-0:]], which is the whole ranking, and returns all
    three passages of the sample corpus; the fallback for a model without
    [encode], on the same corpus, returns none. *)
Theorem semantic_search_top_k_zero :
  semantic_search Examples.top0_settings Examples.small_retriever "a"
  = Ok ["a b"; "c a a"; "b c"] /\
  semantic_search Examples.top0_settings Examples.keyword_retriever "a"
  = Ok [].
Proof. split; vm_compute; reflexivity. Qed.

End TopKZero.

(** ** Graph context *)

Section GraphContext.
Import Py Search.

Variable settings : Settings.
Variable self : SearchUtils.

Hypothesis typed : typed_neighbors self = true.

Lemma neighbor_typed node n :
  In n (Nx.neighbors (knowledge_graph self) node) ->
  exists t, node_type self n = Ok t.
Proof.
  unfold Nx.neighbors. intros H.
  apply list_elem_of_In, list_elem_of_omap in H as [[[a b] d] [Hin Hn]].
  apply list_elem_of_In in Hin.
  unfold typed_neighbors in typed.
  rewrite forallb_forall in typed. specialize (typed _ Hin). simpl in typed.
  apply andb_true_iff in typed as [Ha Hb]. unfold has_type in Ha, Hb.
  destruct (String.eqb a node).
  - injection Hn as <-. destruct (node_type self b); [eauto|discriminate].
  - destruct (String.eqb b node); [|discriminate].
    injection Hn as <-. destruct (node_type self a); [eauto|discriminate].
Qed.

Lemma neighbors_of_type_ok node ty :
  exists l, neighbors_of_type self node ty = Ok l.
Proof.
  apply comprehension_ok. intros n Hn.
  destruct (neighbor_typed node n Hn) as [t Ht]. rewrite Ht. simpl. eauto.
Qed.

Lemma neighbors_of_type_In node ty l n :
  neighbors_of_type self node ty = Ok l -> In n l ->
  In n (Nx.neighbors (knowledge_graph self) node).
Proof.
  intros H Hn. apply (comprehension_In _ _ _ n H) in Hn as [x [Hx Hf]].
  destruct (node_type self x) as [t|e]; simpl in Hf; [|discriminate].
  destruct (String.eqb t ty); [|discriminate]. now injection Hf as ->.
Qed.

Lemma first_document_ok l :
  (forall n, In n l -> exists t, node_type self n = Ok t) ->
  exists r, first_document self l = Ok r.
Proof.
  induction l as [|n l IH]; simpl; intros H; [eauto|].
  destruct (H n) as [t ->]; [now left|]. simpl.
  destruct (String.eqb t "document"); [eauto|].
  apply IH. intros; apply H; now right.
Qed.

Lemma node_type_has_node n t :
  node_type self n = Ok t -> Nx.has_node (knowledge_graph self) n = true.
Proof.
  unfold node_type, Nx.has_node.
  destruct (Nx.node_data _ n); [reflexivity|discriminate].
Qed.

Lemma parent_documents_ok chunks :
  (forall chunk, In chunk chunks -> exists t, node_type self chunk = Ok t) ->
  exists parents, parent_documents self chunks = Ok parents.
Proof.
  intros Hnodes. apply comprehension_ok. intros chunk Hin.
  destruct (Hnodes chunk Hin) as [t Ht].
  destruct (first_document_ok (Nx.neighbors (knowledge_graph self) chunk))
    as [r Hr]; [apply neighbor_typed|].
  unfold get_parent_document.
  rewrite (node_type_has_node _ _ Ht), Hr. simpl. eauto.
Qed.

Lemma entity_relevance_ok query node data :
  exists chunks relevance,
    neighbors_of_type self node "chunk" = Ok chunks /\
    entity_relevance self query node data = Ok (chunks, relevance).
Proof.
  unfold entity_relevance.
  destruct (neighbors_of_type_ok node "chunk") as [chunks Hc].
  destruct (parent_documents_ok chunks) as [parents Hp].
  { intros chunk Hin. apply (neighbors_of_type_In _ _ _ _ Hc) in Hin.
    eapply neighbor_typed, Hin. }
  rewrite Hc. simpl. rewrite Hp. simpl. eauto.
Qed.

Lemma score_node_ok query nd :
  exists o, score_node settings self query nd = Ok o.
Proof.
  destruct nd as [node data]. unfold score_node.
  destruct (bool_decide _); [|eauto].
  destruct (entity_relevance_ok query node data) as (chunks & rel & _ & Hr).
  rewrite Hr. simpl. eauto.
Qed.

Lemma score_node_chunks query nd node ety chunks rel :
  score_node settings self query nd = Ok (Some (node, ety, chunks, rel)) ->
  neighbors_of_type self node "chunk" = Ok chunks.
Proof.
  destruct nd as [node' data]. unfold score_node.
  destruct (bool_decide _); [|discriminate].
  destruct (entity_relevance_ok query node' data) as (chunks' & rel' & Hc & Hr).
  rewrite Hr. simpl. destruct (_ <=? _)%float; [|discriminate].
  intros H. injection H as <- _ <- _. exact Hc.
Qed.

Lemma node_scores_ok query :
  exists scores, node_scores settings self query = Ok scores.
Proof. apply comprehension_ok. intros nd _. apply score_node_ok. Qed.

Lemma entity_context_ok entity ety chunks rel :
  neighbors_of_type self entity "chunk" = Ok chunks ->
  exists c, entity_context self (entity, ety, chunks, rel) = Ok c.
Proof.
  intros Hc. unfold entity_context.
  destruct (comprehension_ok
              (fun chunk => t ← chunk_text self chunk; Ok (Some t))
              (slice_to 3 chunks)) as [texts Ht].
  { intros chunk Hin. apply slice_to_incl in Hin.
    apply (neighbors_of_type_In _ _ _ _ Hc), neighbor_typed in Hin as [t Ht].
    unfold chunk_text. unfold node_type in Ht.
    destruct (Nx.node_data _ chunk); [simpl; eauto|discriminate]. }
  rewrite Ht. simpl.
  destruct (neighbors_of_type_ok entity "entity") as [related ->]. simpl.
  eauto.
Qed.

End GraphContext.

Section ScenarioC.
Import Py Search.

(** C2, as the code computes it: for an entity node "Mary" of confidence
    0.5 whose chunk-typed neighbours are two, both with the same parent
    document ([get_parent_document] returns that document for each of the
    two), the relevance for the query "Mary" is
    (1 + 2 x 0.1 + 1 x 0.2) x 0.5 = 0.7; with threshold 0.6, graph search
    enabled and every neighbour carrying a type, the entry of "Mary" is
    among the scored entities, and when [top_k] is at least their number her
    bundle is among the results. *)
Theorem mary_relevance (settings : Settings) (self : SearchUtils)
  (data : Nx.NodeData) (chunks : list string) (doc : string) :
  typed_neighbors self = true ->
  enable_graph_search settings = true ->
  entity_relevance_threshold settings = 0.6%float ->
  In ("Mary", data) (Nx.nodes (knowledge_graph self)) ->
  Nx.type data = Some "entity" ->
  Nx.confidence data = Some 0.5%float ->
  neighbors_of_type self "Mary" "chunk" = Ok chunks ->
  length chunks = 2%nat ->
  parent_documents self chunks = Ok [Some doc; Some doc] ->
  let mary :=
    ("Mary", default "Unknown" (Nx.entity_type data), chunks, 0.7%float) in
  entity_relevance self "Mary" "Mary" data = Ok (chunks, 0.7%float) /\
  exists scores,
    node_scores settings self "Mary" = Ok scores /\
    In mary scores /\
    ((Z.of_nat (length scores) <= top_k settings)%Z ->
     exists results c,
       get_graph_context settings self "Mary" = Ok results /\
       entity_context self mary = Ok c /\
       In c results).
Proof.
  intros Htyped Hen Hthr Hnode Hty Hconf Hchunks Hlen Hparents mary.
  assert (Hsize : stdpp.base.size
                    (list_to_set [Some doc; Some doc] : gset (option string))
                  = 1%nat).
  { rewrite !list_to_set_cons, list_to_set_nil.
    rewrite union_empty_r_L, union_idemp_L. apply size_singleton. }
  assert (Hrel : entity_relevance self "Mary" "Mary" data
                 = Ok (chunks, 0.7%float)).
  { unfold entity_relevance. rewrite Hchunks. simpl.
    rewrite Hparents. simpl.
    match goal with |- context [set_size ?X] =>
      change (set_size X)
        with (stdpp.base.size
                (list_to_set [Some doc; Some doc] : gset (option string)))
    end.
    rewrite Hconf, Hlen, Hsize. reflexivity. }
  split; [exact Hrel|].
  destruct (node_scores_ok settings self Htyped "Mary") as [scores Hscores].
  assert (Hin : In mary scores).
  { unfold node_scores in Hscores.
    apply (comprehension_In _ _ _ mary Hscores).
    exists ("Mary", data). split; [exact Hnode|].
    unfold score_node. rewrite Hty.
    rewrite bool_decide_eq_true_2 by reflexivity.
    rewrite Hrel. simpl. rewrite Hthr. reflexivity. }
  exists scores. repeat split; auto.
  intros Hk.
  destruct (entity_context_ok self Htyped "Mary"
              (default "Unknown" (Nx.entity_type data)) chunks 0.7%float
              Hchunks) as [c Hc].
  unfold get_graph_context. rewrite Hen. simpl.
  rewrite bool_decide_eq_false_2
    by (intros Hnil; rewrite Hnil in Hnode; destruct Hnode).
  rewrite Hscores. simpl.
  rewrite slice_to_all by (rewrite sorted_reverse_length; exact Hk).
  destruct (comprehension_ok
              (fun e => c ← entity_context self e; Ok (Some c))
              (sorted_reverse PrimFloat.ltb (fun x : scored => snd x) scores))
    as [results Hres].
  { intros [[[entity ety] cs] rel] He. apply sorted_reverse_In in He.
    apply (comprehension_In _ _ _ _ Hscores) in He as [nd [_ Hnd]].
    apply (score_node_chunks settings self Htyped) in Hnd.
    destruct (entity_context_ok self Htyped entity ety cs rel Hnd) as [c' ->].
    simpl. eauto. }
  exists results, c. repeat split; auto.
  apply (comprehension_In _ _ _ c Hres).
  exists mary. split; [now apply sorted_reverse_In|].
  fold mary in Hc. rewrite Hc. reflexivity.
Qed.

Lemma mary_relevance_witness :
  entity_relevance Examples.mary_retriever "Mary" "Mary" Examples.mary_data
  = Ok (["chunk_1"; "chunk_2"], 0.7%float) /\
  exists scores,
    node_scores Examples.default_settings Examples.mary_retriever "Mary"
    = Ok scores /\
    In ("Mary", "Person", ["chunk_1"; "chunk_2"], 0.7%float) scores /\
    ((Z.of_nat (length scores) <= top_k Examples.default_settings)%Z ->
     exists results c,
       get_graph_context Examples.default_settings Examples.mary_retriever
                         "Mary" = Ok results /\
       entity_context Examples.mary_retriever
         ("Mary", "Person", ["chunk_1"; "chunk_2"], 0.7%float) = Ok c /\
       In c results).
Proof.
  apply (mary_relevance Examples.default_settings Examples.mary_retriever
           Examples.mary_data ["chunk_1"; "chunk_2"] "doc_0");
    try reflexivity.
  simpl. auto.
Defined.

(** C2 as stated fails three times. On the graph of Scenario C the
    relevance the code computes for "Mary" is 0.7, which is not 0.65; on a
    graph where "Mary" has the neighbours of the scenario and another entity
    scores higher, [top_k = 1] leaves her out of the results, which hold the
    bundle of "Bob" alone; and on a graph where one of her two chunks has no
    parent document, the null [get_parent_document] returns for that chunk
    is counted with the one document the other chunk reaches, and the
    relevance is (1 + 2 x 0.1 + 2 x 0.2) x 0.5 = 0.8. *)
Lemma mary_relevance_is_not_065 :
  (exists relevance,
     entity_relevance Examples.mary_retriever "Mary" "Mary" Examples.mary_data
     = Ok (["chunk_1"; "chunk_2"], relevance) /\
     parent_documents Examples.mary_retriever ["chunk_1"; "chunk_2"]
     = Ok [Some "doc_0"; Some "doc_0"] /\
     (relevance =? 0.65)%float = false) /\
  (exists bob,
     neighbors_of_type Examples.crowded_retriever "Mary" "chunk"
     = Ok ["chunk_1"; "chunk_2"] /\
     parent_documents Examples.crowded_retriever ["chunk_1"; "chunk_2"]
     = Ok [Some "doc_0"; Some "doc_0"] /\
     node_scores Examples.top1_settings Examples.crowded_retriever "Mary"
     = Ok [("Mary", "Person", ["chunk_1"; "chunk_2"], 0.7%float);
           ("Bob", "Person", ["chunk_1"; "chunk_2"], 0.8%float)] /\
     entity_context Examples.crowded_retriever
       ("Bob", "Person", ["chunk_1"; "chunk_2"], 0.8%float) = Ok bob /\
     get_graph_context Examples.top1_settings Examples.crowded_retriever "Mary"
     = Ok [bob]) /\
  (neighbors_of_type Examples.orphan_retriever "Mary" "chunk"
   = Ok ["chunk_1"; "chunk_2"] /\
   parent_documents Examples.orphan_retriever ["chunk_1"; "chunk_2"]
   = Ok [Some "doc_0"; None] /\
   entity_relevance Examples.orphan_retriever "Mary" "Mary" Examples.mary_data
   = Ok (["chunk_1"; "chunk_2"], 0.8%float) /\
   (0.8 =? 0.65)%float = false /\ (0.8 =? 0.7)%float = false).
Proof.
  split; [|split].
  - exists 0.7%float. vm_compute. auto.
  - eexists. vm_compute. repeat split; reflexivity.
  - vm_compute. repeat split; reflexivity.
Qed.

End ScenarioC.

(** ** Node and edge stores *)

(** Case analysis on every comparison of strings in sight. *)
Ltac string_cases :=
  repeat match goal with
    | |- context [String.eqb ?a ?b] =>
        destruct (String.eqb_spec a b); subst; simpl in *; try congruence
    | H : context [String.eqb ?a ?b] |- _ =>
        destruct (String.eqb_spec a b); subst; simpl in *; try congruence
    end.

Section StoreFacts.
Import Nx.

Lemma lookup_node_In l n d : lookup_node l n = Some d -> In (n, d) l.
Proof.
  induction l as [|[m d'] l IH]; simpl; [discriminate|].
  destruct (String.eqb_spec m n) as [->|_].
  - intros [= ->]. now left.
  - intros H. right. now apply IH.
Qed.

Lemma In_lookup_node l n d : In (n, d) l -> exists d', lookup_node l n = Some d'.
Proof.
  induction l as [|[m d'] l IH]; simpl; [tauto|].
  intros [[= -> ->]|H].
  - rewrite String.eqb_refl. eauto.
  - destruct (String.eqb m n); eauto.
Qed.

Lemma lookup_update_node l n attrs m :
  lookup_node (update_node l n attrs) m
  = if String.eqb n m
    then Some (attrs (default no_node_attrs (lookup_node l n)))
    else lookup_node l m.
Proof.
  induction l as [|[k d] l IH]; simpl.
  - destruct (String.eqb n m); reflexivity.
  - destruct (String.eqb_spec k n) as [->|Hkn]; simpl.
    + destruct (String.eqb_spec n m) as [->|Hnm]; reflexivity.
    + rewrite IH. destruct (String.eqb_spec k m) as [->|Hkm]; [|reflexivity].
      destruct (String.eqb_spec n m) as [->|_]; [contradiction|reflexivity].
Qed.

(** An entry of an updated store is an old entry or the updated one. *)
Lemma update_node_In l n attrs m d :
  In (m, d) (update_node l n attrs) ->
  In (m, d) l \/
  (m = n /\ d = attrs (default no_node_attrs (lookup_node l n))).
Proof.
  induction l as [|[k d'] l IH]; simpl.
  - intros [[= <- <-]|[]]. now right.
  - destruct (String.eqb_spec k n) as [->|Hkn]; simpl.
    + intros [[= <- <-]|H]; [now right|left; now right].
    + intros [H|H]; [left; now left|].
      destruct (IH H) as [?|?]; [left; now right|now right].
Qed.

(** A new key is stored last. *)
Lemma update_node_absent l n attrs :
  lookup_node l n = None -> update_node l n attrs = l ++ [(n, attrs no_node_attrs)].
Proof.
  induction l as [|[k d] l IH]; simpl; [reflexivity|].
  destruct (String.eqb k n); [discriminate|].
  intros H. now rewrite IH.
Qed.

Lemma has_node_add_node G n attrs m :
  has_node (add_node G n attrs) m = has_node G m || String.eqb n m.
Proof.
  unfold has_node, node_data, add_node. simpl. rewrite lookup_update_node.
  destruct (String.eqb n m); [now rewrite orb_true_r|now rewrite orb_false_r].
Qed.

Lemma add_edge_nodes G u v attrs :
  has_node G u = true -> has_node G v = true ->
  nodes (add_edge G u v attrs) = nodes G.
Proof. unfold add_edge. intros -> ->. reflexivity. Qed.

Lemma add_edge_edges G u v attrs :
  edges (add_edge G u v attrs) = update_edge (edges G) u v attrs.
Proof.
  unfold add_edge. destruct (has_node G u); simpl;
    match goal with |- context [if ?b then _ else _] => destruct b end;
    reflexivity.
Qed.

Lemma has_node_add_edge G u v attrs m :
  has_node G m = true -> has_node (add_edge G u v attrs) m = true.
Proof.
  intros Hm. unfold add_edge.
  assert (H1 : has_node (if has_node G u then G
                         else add_node G u (fun d => d)) m = true).
  { destruct (has_node G u); [exact Hm|].
    rewrite has_node_add_node, Hm. reflexivity. }
  set (G1 := if has_node G u then G else add_node G u (fun d => d)) in *.
  destruct (has_node G1 v); [exact H1|].
  unfold has_node, node_data in *. simpl.
  rewrite lookup_update_node. destruct (String.eqb v m); [reflexivity|exact H1].
Qed.

(** Whether two unordered pairs are the same. *)
Lemma joins_entry u v a b d :
  joins u v (a, b, d)
  = (String.eqb a u && String.eqb b v) || (String.eqb a v && String.eqb b u).
Proof. reflexivity. Qed.

Lemma joins_same u v u' v' (e : string * string * EdgeData) :
  joins u' v' (u, v, no_edge_attrs) = true -> joins u v e = joins u' v' e.
Proof.
  destruct e as [[a b] d]. simpl. intros H. string_cases.
Qed.

Lemma joins_other u v u' v' (e : string * string * EdgeData) :
  joins u' v' (u, v, no_edge_attrs) = false -> joins u v e = true ->
  joins u' v' e = false.
Proof.
  destruct e as [[a b] d]. simpl. intros H J. string_cases.
Qed.

Lemma lookup_update_edge l u v attrs u' v' :
  lookup_edge (update_edge l u v attrs) u' v'
  = if joins u' v' (u, v, no_edge_attrs)
    then Some (attrs (default no_edge_attrs (lookup_edge l u v)))
    else lookup_edge l u' v'.
Proof.
  induction l as [|e l IH].
  - simpl. destruct (_ || _); reflexivity.
  - cbn [update_edge lookup_edge].
    destruct (joins u v e) eqn:J.
    + cbn [lookup_edge default snd]. 
      destruct (joins u' v' (u, v, no_edge_attrs)) eqn:J'.
      * rewrite <- (joins_same u v u' v' (e.1, attrs e.2) J').
        destruct e as [[a b] d]. simpl in *. now rewrite J.
      * pose proof (joins_other u v u' v' e J' J) as J2.
        assert (J3 : joins u' v' (e.1, attrs e.2) = false).
        { destruct e as [[a b] d]. exact J2. }
        rewrite J3, J2. reflexivity.
    + cbn [lookup_edge]. rewrite IH.
      destruct (joins u' v' (u, v, no_edge_attrs)) eqn:J'; [|reflexivity].
      rewrite <- (joins_same u v u' v' e J'), J. reflexivity.
Qed.

Lemma update_edge_In l u v attrs e :
  In e (update_edge l u v attrs) ->
  In e l \/ (joins u v e = true /\
             snd e = attrs (default no_edge_attrs (lookup_edge l u v))).
Proof.
  induction l as [|e' l IH]; simpl.
  - intros [<-|[]]. right. simpl. now rewrite !String.eqb_refl.
  - destruct (joins u v e') eqn:J; simpl.
    + intros [<-|H]; [|left; now right].
      right. destruct e' as [[a b] d]. simpl in *. auto.
    + intros [<-|H]; [left; now left|].
      destruct (IH H) as [?|?]; [left; now right|now right].
Qed.

Lemma update_edge_distinct l u v attrs :
  distinct_pairs l = true -> distinct_pairs (update_edge l u v attrs) = true.
Proof.
  induction l as [|e l IH]; simpl; [reflexivity|].
  rewrite andb_true_iff. intros [Hhd Htl].
  destruct (joins u v e) eqn:J; simpl.
  - destruct e as [[a b] d]. simpl in *. now rewrite Hhd, Htl.
  - rewrite IH by exact Htl. rewrite andb_true_r.
    apply forallb_forall. intros e' He'.
    apply update_edge_In in He' as [He'|[J' _]].
    + rewrite forallb_forall in Hhd. now apply Hhd.
    + apply negb_true_iff.
      destruct e as [[a b] d], e' as [[a' b'] d']. simpl in *.
      clear - J J'. string_cases.
Qed.

End StoreFacts.

(** ** The endpoints of the extracted triples *)

Section TripleEndpoints.
Import Py.

Variable pipeline : string -> Spacy.Parse.

Lemma pairs_In {A : Type} (l : list A) x y :
  In (x, y) (pairs l) -> In x l /\ In y l.
Proof.
  induction l as [|z l IH]; simpl; [tauto|].
  rewrite in_app_iff, in_map_iff.
  intros [[y' [[= <- <-] Hy]]|H]; [tauto|].
  destruct (IH H). tauto.
Qed.

Lemma key_entity_name text ent :
  In ent (Spacy.ents (Kg.nlp pipeline text)) ->
  in_list (Spacy.label_ ent) Kg.KEY_LABELS = true ->
  In (Spacy.span_text (Kg.nlp pipeline text) ent)
     (map fst (Kg.extract_key_entities pipeline text)).
Proof.
  intros Hent Hlabel. unfold Kg.extract_key_entities.
  rewrite map_map. simpl. apply in_map_iff. exists ent.
  split; [reflexivity|]. apply filter_In. auto.
Qed.

(** The span found for a key entity covers the entity's own text. *)
Lemma entity_span_text text e sp :
  Kg.entity_span (Kg.nlp pipeline text) text e = Some sp ->
  Spacy.span_text (Kg.nlp pipeline text) sp = fst e.
Proof.
  unfold Kg.entity_span, find.
  destruct (String.index 0 (fst e) text) as [start|] eqn:Hfind; [|discriminate].
  unfold Spacy.char_span.
  destruct (List.find _ _) as [t1|]; [|discriminate].
  destruct (List.find _ _) as [t2|]; [|discriminate].
  destruct (Spacy.span_truthy _); [|discriminate].
  intros [= <-]. unfold Spacy.span_text. simpl.
  replace (start + String.length (fst e) - start) with (String.length (fst e))
    by lia.
  exact (String.index_correct1 _ _ _ _ Hfind).
Qed.

Lemma extract_relations_endpoints text key_entities s r o :
  In (s, r, o) (Kg.extract_relations pipeline text key_entities) ->
  In s (map fst key_entities) /\ In o (map fst key_entities).
Proof.
  unfold Kg.extract_relations. rewrite in_flat_map.
  intros [sent [_ Hin]]. unfold Kg.sentence_relations in Hin.
  apply list_elem_of_In, list_elem_of_omap in Hin
    as [[entity1 entity2] [Hpair Heq]].
  apply list_elem_of_In, pairs_In in Hpair as [H1 H2].
  apply filter_In in H1 as [H1 _]. apply filter_In in H2 as [H2 _].
  apply list_elem_of_In, list_elem_of_omap in H1 as [e1 [He1 Hs1]].
  apply list_elem_of_In, list_elem_of_omap in H2 as [e2 [He2 Hs2]].
  apply entity_span_text in Hs1, Hs2.
  match type of Heq with (if ?c then _ else _) = _ =>
    destruct c; [|discriminate] end.
  injection Heq as Hs _ Ho. rewrite <- Hs, <- Ho, Hs1, Hs2.
  split; apply in_map, list_elem_of_In; assumption.
Qed.

Lemma person_is_key_entity text sent ent :
  In ent (Kg.sentence_persons (Kg.nlp pipeline text) sent) ->
  In (Spacy.span_text (Kg.nlp pipeline text) ent)
     (map fst (Kg.extract_key_entities pipeline text)).
Proof.
  unfold Kg.sentence_persons, Spacy.span_ents.
  rewrite !filter_In. intros [[Hent _] Hlabel].
  apply key_entity_name; [exact Hent|].
  apply String.eqb_eq in Hlabel. rewrite Hlabel. reflexivity.
Qed.

Lemma extract_family_relations_endpoints text s r o :
  In (s, r, o) (Kg.extract_family_relations pipeline text) ->
  In s (map fst (Kg.extract_key_entities pipeline text)) /\
  In o (map fst (Kg.extract_key_entities pipeline text)).
Proof.
  intros Hin.
  apply extract_family_relations_In in Hin as (a & k & b & Hfw & Hin).
  destruct Hfw as (sent & e1 & e2 & _ & Hpair & _ & _ & -> & ->).
  apply pairs_In in Hpair as [H1 H2].
  apply person_is_key_entity in H1, H2.
  destruct Hin as [Heq|Hin].
  - injection Heq as -> _ ->. tauto.
  - apply reverse_relation_spec in Hin as [[_ Heq]|[[_ Heq]|[_ Heq]]];
      injection Heq as -> _ ->; tauto.
Qed.

End TripleEndpoints.

(** ** The nodes of the constructed graph *)

Section BuildNodes.
Import Py Nx.

Variable pipeline : string -> Spacy.Parse.

Lemma has_node_lookup G n :
  has_node G n = true <-> exists d, lookup_node (nodes G) n = Some d.
Proof.
  unfold has_node, node_data. destruct (lookup_node _ _) as [d|]; split.
  - eauto.
  - reflexivity.
  - discriminate.
  - intros [d H]. discriminate.
Qed.

Lemma ensure_entity_lookup l e n d :
  lookup_node l n = Some d -> lookup_node (Kg.ensure_entity l e) n = Some d.
Proof.
  intros H. unfold Kg.ensure_entity.
  destruct (lookup_node l (fst e)) eqn:He; [exact H|].
  rewrite <- (update_node_absent l (fst e) (Kg.entity_attrs (snd e)) He).
  rewrite lookup_update_node.
  destruct (String.eqb_spec (fst e) n) as [Heq|_]; [|exact H].
  rewrite Heq in He. congruence.
Qed.

Lemma ensure_entity_present l e :
  exists d, lookup_node (Kg.ensure_entity l e) (fst e) = Some d.
Proof.
  unfold Kg.ensure_entity.
  destruct (lookup_node l (fst e)) eqn:He; [eauto|].
  rewrite <- (update_node_absent l (fst e) (Kg.entity_attrs (snd e)) He).
  rewrite lookup_update_node, String.eqb_refl. eauto.
Qed.

Lemma fold_ensure_entity_lookup es l n d :
  lookup_node l n = Some d ->
  lookup_node (fold_left Kg.ensure_entity es l) n = Some d.
Proof.
  revert l. induction es as [|e es IH]; intros l H; simpl; [exact H|].
  apply IH, ensure_entity_lookup, H.
Qed.

Lemma fold_ensure_entity_present es l name :
  In name (map fst es) ->
  exists d, lookup_node (fold_left Kg.ensure_entity es l) name = Some d.
Proof.
  revert l. induction es as [|e es IH]; intros l; simpl; [tauto|].
  intros [<-|H]; [|now apply IH].
  destruct (ensure_entity_present l e) as [d Hd].
  exists d. now apply fold_ensure_entity_lookup.
Qed.

(** The entity loop: the node store it leaves. *)
Lemma add_entity_nodes doc_node G e :
  has_node G doc_node = true ->
  nodes (Kg.add_entity doc_node G e) = Kg.ensure_entity (nodes G) e /\
  has_node (Kg.add_entity doc_node G e) doc_node = true.
Proof.
  intros Hdoc. destruct e as [entity entity_type].
  unfold Kg.add_entity, Kg.ensure_entity. cbn [fst snd].
  destruct (lookup_node (nodes G) entity) as [d|] eqn:He.
  - assert (Hent : has_node G entity = true)
      by (apply has_node_lookup; eauto).
    rewrite Hent, add_edge_nodes by assumption.
    split; [reflexivity|now apply has_node_add_edge].
  - assert (Hent : has_node G entity = false)
      by (unfold has_node, node_data; now rewrite He).
    rewrite Hent.
    assert (Hdoc' : has_node (add_node G entity (Kg.entity_attrs entity_type))
                             doc_node = true)
      by (rewrite has_node_add_node, Hdoc; reflexivity).
    assert (Hent' : has_node (add_node G entity (Kg.entity_attrs entity_type))
                             entity = true)
      by (rewrite has_node_add_node, String.eqb_refl; apply orb_true_r).
    rewrite add_edge_nodes by assumption.
    split; [|now apply has_node_add_edge].
    simpl. now apply update_node_absent.
Qed.

Lemma fold_add_entity_nodes doc_node es G :
  has_node G doc_node = true ->
  nodes (fold_left (Kg.add_entity doc_node) es G)
  = fold_left Kg.ensure_entity es (nodes G).
Proof.
  revert G. induction es as [|e es IH]; intros G Hdoc; simpl; [reflexivity|].
  destruct (add_entity_nodes doc_node G e Hdoc) as [Hn Hd].
  rewrite IH by exact Hd. now rewrite Hn.
Qed.

Lemma fold_add_triple_nodes ts G :
  (forall s r o, In (s, r, o) ts ->
                 has_node G s = true /\ has_node G o = true) ->
  nodes (fold_left Kg.add_triple ts G) = nodes G.
Proof.
  revert G. induction ts as [|[[s r] o] ts IH]; intros G H; simpl;
    [reflexivity|].
  destruct (H s r o) as [Hs Ho]; [now left|].
  rewrite IH.
  - now apply add_edge_nodes.
  - intros s' r' o' Hin. destruct (H s' r' o') as [Hs' Ho']; [now right|].
    split; now apply has_node_add_edge.
Qed.

(** The node store after a chunk is the one the two [add_node] statements
    leave: no [add_edge] of the loop adds a node. *)
Lemma add_chunk_nodes G ic :
  nodes (Kg.add_chunk pipeline G ic) = Kg.chunk_nodes pipeline (nodes G) ic.
Proof.
  destruct ic as [i chunk]. unfold Kg.add_chunk, Kg.chunk_nodes. simpl.
  set (text := Kg.preprocess_text chunk).
  set (G1 := add_node G (Kg.doc_name i) (Kg.document_attrs text)).
  assert (Hdoc : has_node G1 (Kg.doc_name i) = true)
    by (unfold G1; rewrite has_node_add_node, String.eqb_refl;
        apply orb_true_r).
  rewrite fold_add_triple_nodes.
  - now rewrite fold_add_entity_nodes.
  - intros s r o Hin.
    assert (Hends : In s (map fst (Kg.extract_key_entities pipeline text)) /\
                    In o (map fst (Kg.extract_key_entities pipeline text))).
    { apply in_app_iff in Hin as [Hin|Hin].
      - eapply extract_relations_endpoints, Hin.
      - eapply extract_family_relations_endpoints, Hin. }
    destruct Hends as [Hs Ho].
    split; apply has_node_lookup; rewrite fold_add_entity_nodes by exact Hdoc;
      now apply fold_ensure_entity_present.
Qed.

Lemma fold_add_chunk_nodes ics G :
  nodes (fold_left (Kg.add_chunk pipeline) ics G)
  = fold_left (Kg.chunk_nodes pipeline) ics (nodes G).
Proof.
  revert G. induction ics as [|ic ics IH]; intros G; simpl; [reflexivity|].
  now rewrite IH, add_chunk_nodes.
Qed.

Lemma doc_name_inj i j : Kg.doc_name i = Kg.doc_name j -> i = j.
Proof.
  unfold Kg.doc_name. intros H. unfold str in H. simpl in H.
  injection H as H.
  change (NilEmpty.string_of_uint (Nat.to_uint i)
          = NilEmpty.string_of_uint (Nat.to_uint j)) in H.
  apply (f_equal NilEmpty.uint_of_string) in H.
  rewrite !NilEmpty.usu in H. injection H as H.
  now apply Unsigned.to_uint_inj.
Qed.

Lemma ensure_entity_In l e n d :
  In (n, d) (Kg.ensure_entity l e) ->
  In (n, d) l \/ (n = fst e /\ d = Kg.entity_attrs (snd e) no_node_attrs).
Proof.
  unfold Kg.ensure_entity. destruct (lookup_node l (fst e)); [tauto|].
  rewrite in_app_iff. simpl. intros [H|[[= <- <-]|[]]]; tauto.
Qed.

Lemma fold_ensure_entity_In es l n d :
  In (n, d) (fold_left Kg.ensure_entity es l) ->
  In (n, d) l \/
  exists e, In e es /\ n = fst e /\ d = Kg.entity_attrs (snd e) no_node_attrs.
Proof.
  revert l. induction es as [|e es IH]; intros l; simpl; [tauto|].
  intros H. apply IH in H as [H|(e' & He' & Hn & Hd)].
  - apply ensure_entity_In in H as [H|[Hn Hd]]; [tauto|].
    right. exists e. tauto.
  - right. exists e'. tauto.
Qed.

(** An entry of the node store after a chunk: an old one, the chunk's
    document node, or an entity of the chunk. *)
Lemma chunk_nodes_In l i chunk n d :
  In (n, d) (Kg.chunk_nodes pipeline l (i, chunk)) ->
  In (n, d) l \/
  (n = Kg.doc_name i /\
   d = Kg.document_attrs (Kg.preprocess_text chunk)
         (default no_node_attrs (lookup_node l (Kg.doc_name i)))) \/
  (exists e,
     In e (Kg.extract_key_entities pipeline (Kg.preprocess_text chunk)) /\
     n = fst e /\ d = Kg.entity_attrs (snd e) no_node_attrs).
Proof.
  unfold Kg.chunk_nodes. simpl. intros H.
  apply fold_ensure_entity_In in H as [H|H]; [|tauto].
  apply update_node_In in H. tauto.
Qed.

Lemma chunk_nodes_built l ic :
  (forall n d, In (n, d) l -> Kg.built_node d) ->
  forall n d, In (n, d) (Kg.chunk_nodes pipeline l ic) -> Kg.built_node d.
Proof.
  destruct ic as [i chunk]. intros Hl n d H.
  apply chunk_nodes_In in H as [H|[[_ ->]|(e & _ & _ & ->)]].
  - eapply Hl, H.
  - split; [now left|]. simpl.
    destruct (lookup_node l (Kg.doc_name i)) as [d'|] eqn:Hd; [|reflexivity].
    apply lookup_node_In, Hl in Hd. apply Hd.
  - split; [now right|reflexivity].
Qed.

Lemma fold_chunk_nodes_built ics l :
  (forall n d, In (n, d) l -> Kg.built_node d) ->
  forall n d, In (n, d) (fold_left (Kg.chunk_nodes pipeline) ics l) ->
              Kg.built_node d.
Proof.
  revert l. induction ics as [|ic ics IH]; intros l Hl; simpl; [exact Hl|].
  apply IH. now apply chunk_nodes_built.
Qed.

(** *** The document nodes *)

Lemma document_nodes_built G :
  (forall n d, In (n, d) (nodes G) -> Kg.built_node d) ->
  Kg.document_nodes G = Ok (Kg.document_names (nodes G)).
Proof.
  unfold Kg.document_nodes. induction (nodes G) as [|[n d] l IH]; intros H;
    [reflexivity|].
  simpl. destruct (H n d) as [Hty _]; [now left|].
  rewrite IH by (intros; eapply H; right; eassumption). simpl.
  destruct Hty as [-> | ->]; reflexivity.
Qed.

Lemma document_names_app l1 l2 :
  Kg.document_names (l1 ++ l2) = Kg.document_names l1 ++ Kg.document_names l2.
Proof. apply omap_app. Qed.

Lemma document_names_ensure_entity l e :
  Kg.document_names (Kg.ensure_entity l e) = Kg.document_names l.
Proof.
  unfold Kg.ensure_entity. destruct (lookup_node l (fst e)); [reflexivity|].
  rewrite document_names_app. simpl. apply app_nil_r.
Qed.

Lemma document_names_fold_ensure_entity es l :
  Kg.document_names (fold_left Kg.ensure_entity es l) = Kg.document_names l.
Proof.
  revert l. induction es as [|e es IH]; intros l; simpl; [reflexivity|].
  now rewrite IH, document_names_ensure_entity.
Qed.

(** Typing a node 'document' that was not adds one document name. *)
Lemma document_names_update_length l n chunk :
  (forall d, lookup_node l n = Some d -> type d <> Some "document") ->
  length (Kg.document_names (update_node l n (Kg.document_attrs chunk)))
  = S (length (Kg.document_names l)).
Proof.
  induction l as [|[m d] l IH]; simpl; intros H; [reflexivity|].
  destruct (String.eqb_spec m n) as [->|Hmn]; simpl.
  - rewrite (bool_decide_eq_false_2 (type d = Some "document"))
      by (apply H; reflexivity).
    reflexivity.
  - destruct (bool_decide (type d = Some "document")); simpl;
      rewrite IH by exact H; reflexivity.
Qed.

Lemma chunk_nodes_count l i chunk :
  length (Kg.document_names l) = i -> Kg.docs_below i l ->
  length (Kg.document_names (Kg.chunk_nodes pipeline l (i, chunk))) = S i /\
  Kg.docs_below (S i) (Kg.chunk_nodes pipeline l (i, chunk)).
Proof.
  intros Hlen Hbelow. split.
  - unfold Kg.chunk_nodes. simpl.
    rewrite document_names_fold_ensure_entity, document_names_update_length;
      [now rewrite Hlen|].
    intros d Hd Hty. apply lookup_node_In in Hd.
    destruct (Hbelow _ _ Hd Hty) as (k & Hk & Heq).
    apply doc_name_inj in Heq. lia.
  - intros n d Hin Hty.
    apply chunk_nodes_In in Hin as [Hin|[[-> _]|(e & _ & _ & ->)]].
    + destruct (Hbelow _ _ Hin Hty) as (k & Hk & ->). exists k. split; [lia|].
      reflexivity.
    + exists i. split; [lia|reflexivity].
    + discriminate.
Qed.

Lemma fold_chunk_nodes_count data a l :
  length (Kg.document_names l) = a -> Kg.docs_below a l ->
  length (Kg.document_names
            (fold_left (Kg.chunk_nodes pipeline)
                       (combine (seq a (length data)) data) l))
  = a + length data.
Proof.
  revert a l. induction data as [|chunk data IH]; intros a l Hlen Hbelow; simpl.
  - lia.
  - destruct (chunk_nodes_count l a chunk Hlen Hbelow) as [Hlen' Hbelow'].
    rewrite (IH (S a)) by assumption. lia.
Qed.

(** The constructed graph before the similarity loops: its nodes are typed
    and carry no confidence, and it has one document node per chunk. *)
Lemma chunks_graph_nodes data :
  let G := fold_left (Kg.add_chunk pipeline) (enumerate data) empty in
  (forall n d, In (n, d) (nodes G) -> Kg.built_node d) /\
  Kg.document_nodes G = Ok (Kg.document_names (nodes G)) /\
  length (Kg.document_names (nodes G)) = length data.
Proof.
  cbv zeta. rewrite fold_add_chunk_nodes.
  assert (Hbuilt : forall n d,
             In (n, d) (fold_left (Kg.chunk_nodes pipeline) (enumerate data)
                                  (nodes empty)) ->
             Kg.built_node d)
    by (apply fold_chunk_nodes_built; intros n d []).
  split; [exact Hbuilt|]. split.
  - rewrite <- fold_add_chunk_nodes in *. now apply document_nodes_built.
  - unfold enumerate. rewrite fold_chunk_nodes_count; [reflexivity..|].
    intros n d [].
Qed.

End BuildNodes.

(** ** The similarity loops *)

Section Loops.
Import Py.

Context {A S : Type}.

Lemma for_each_app (body : S -> A -> result S) l1 l2 s :
  for_each body (l1 ++ l2) s = s' ← for_each body l1 s; for_each body l2 s'.
Proof.
  revert s. induction l1 as [|x l1 IH]; intros s; simpl; [reflexivity|].
  destruct (body s x) as [s'|e]; simpl; [apply IH|reflexivity].
Qed.

Lemma for_each_map {B : Type} (body : S -> A -> result S) (g : B -> A) l s :
  for_each body (map g l) s = for_each (fun s y => body s (g y)) l s.
Proof.
  revert s. induction l as [|y l IH]; intros s; simpl; [reflexivity|].
  destruct (body s (g y)) as [s'|e]; simpl; [apply IH|reflexivity].
Qed.

End Loops.

Section SimilarityLoops.
Import Py Nx.

Variable pytorch_cos_sim : Kg.embedding -> Kg.embedding -> float.
Variable embeddings : list Kg.embedding.
Variable doc_nodes : list string.

(** The inner loop over [j] meets the nodes after [node1], in order. *)
Lemma inner_loop i node1 after before G :
  doc_nodes = before ++ after ->
  for_each (Kg.add_similarity pytorch_cos_sim embeddings doc_nodes i node1)
           (seq (length before) (length after)) G
  = for_each (fun G jn => Kg.similarity_step pytorch_cos_sim embeddings G
                            ((i, node1), jn))
             (combine (seq (length before) (length after)) after) G.
Proof.
  revert before G. induction after as [|node2 after IH]; intros before G Hdn;
    [reflexivity|].
  cbn [for_each seq combine length].
  assert (Hj : index doc_nodes (length before) = Ok node2).
  { unfold index. rewrite Hdn, nth_error_app2 by lia.
    now rewrite Nat.sub_diag. }
  assert (Hhead :
            Kg.add_similarity pytorch_cos_sim embeddings doc_nodes i node1 G
                              (length before)
            = Kg.similarity_step pytorch_cos_sim embeddings G
                ((i, node1), (length before, node2))).
  { unfold Kg.add_similarity, Kg.similarity_step. now rewrite Hj. }
  rewrite Hhead.
  destruct (Kg.similarity_step _ _ _ _) as [G'|e]; simpl; [|reflexivity].
  specialize (IH (before ++ [node2]) G').
  rewrite length_app in IH. simpl in IH.
  rewrite Nat.add_1_r in IH. apply IH.
  rewrite Hdn, <- app_assoc. reflexivity.
Qed.

(** The two loops meet the pairs of positions [i < j], in the order of
    [pairs]. *)
Lemma nested_loops after before G :
  doc_nodes = before ++ after ->
  for_each
    (fun G (inode : nat * string) =>
       let '(i, node1) := inode in
       for_each (Kg.add_similarity pytorch_cos_sim embeddings doc_nodes i node1)
                (seq (i + 1) (length doc_nodes - (i + 1))) G)
    (combine (seq (length before) (length after)) after) G
  = for_each (Kg.similarity_step pytorch_cos_sim embeddings)
             (pairs (combine (seq (length before) (length after)) after)) G.
Proof.
  revert before G. induction after as [|node1 after IH]; intros before G Hdn;
    [reflexivity|].
  cbn [for_each seq combine length pairs].
  rewrite for_each_app, for_each_map.
  replace (length before + 1) with (length (before ++ [node1]))
    by (rewrite length_app; reflexivity).
  replace (length doc_nodes - length (before ++ [node1])) with (length after)
    by (rewrite Hdn, !length_app; simpl; lia).
  assert (Hdn' : doc_nodes = (before ++ [node1]) ++ after)
    by (rewrite Hdn, <- app_assoc; reflexivity).
  rewrite (inner_loop _ _ _ _ _ Hdn').
  replace (length (before ++ [node1])) with (S (length before))
    by (rewrite length_app; simpl; lia).
  destruct (for_each _ _ G) as [G'|e]; simpl; [|reflexivity].
  specialize (IH (before ++ [node1]) G' Hdn').
  rewrite length_app in IH. simpl in IH. rewrite Nat.add_1_r in IH.
  exact IH.
Qed.

Lemma add_similarities_pairs G :
  Kg.document_nodes G = Ok doc_nodes ->
  Kg.add_similarities pytorch_cos_sim embeddings G
  = for_each (Kg.similarity_step pytorch_cos_sim embeddings)
             (pairs (enumerate doc_nodes)) G.
Proof.
  intros Hdn. unfold Kg.add_similarities. rewrite Hdn. simpl.
  exact (nested_loops doc_nodes [] G eq_refl).
Qed.

(** A step raises exactly when one of its two positions is outside the
    embeddings. *)
Lemma similarity_step_ok G i node1 j node2 :
  i < length embeddings -> j < length embeddings ->
  exists a b,
    nth_error embeddings i = Some a /\ nth_error embeddings j = Some b /\
    Kg.similarity_step pytorch_cos_sim embeddings G ((i, node1), (j, node2))
    = Ok (if (0.7 <? pytorch_cos_sim a b)%float
          then add_edge G node1 node2
                        (Kg.similar_attrs (pytorch_cos_sim a b))
          else G).
Proof.
  intros Hi Hj. unfold Kg.similarity_step, index.
  destruct (nth_error embeddings i) as [a|] eqn:Ha;
    [|apply nth_error_None in Ha; lia].
  destruct (nth_error embeddings j) as [b|] eqn:Hb;
    [|apply nth_error_None in Hb; lia].
  exists a, b. auto.
Qed.

Lemma similarity_step_error G i node1 j node2 :
  length embeddings <= i \/ length embeddings <= j ->
  Kg.similarity_step pytorch_cos_sim embeddings G ((i, node1), (j, node2))
  = Raise IndexError.
Proof.
  intros H. unfold Kg.similarity_step, index.
  destruct (nth_error embeddings i) as [a|] eqn:Ha; [|reflexivity].
  destruct (nth_error embeddings j) as [b|] eqn:Hb; [|reflexivity].
  assert (i < length embeddings) by (apply nth_error_Some; congruence).
  assert (j < length embeddings) by (apply nth_error_Some; congruence).
  lia.
Qed.

Lemma in_range_dec p : {Kg.in_range embeddings p} + {~ Kg.in_range embeddings p}.
Proof.
  unfold Kg.in_range.
  destruct (lt_dec (fst (fst p)) (length embeddings));
    destruct (lt_dec (fst (snd p)) (length embeddings)); tauto.
Qed.

Lemma steps_ok L G :
  (forall p, In p L -> Kg.in_range embeddings p) ->
  exists G', for_each (Kg.similarity_step pytorch_cos_sim embeddings) L G
             = Ok G'.
Proof.
  revert G. induction L as [|[[i node1] [j node2]] L IH]; intros G H;
    cbn [for_each]; [eauto|].
  destruct (H (i, node1, (j, node2))) as [Hi Hj]; [now left|].
  destruct (similarity_step_ok G i node1 j node2 Hi Hj) as (a & b & _ & _ & ->).
  simpl. apply IH. intros; apply H; now right.
Qed.

Lemma steps_error L G :
  (exists p, In p L /\ ~ Kg.in_range embeddings p) ->
  for_each (Kg.similarity_step pytorch_cos_sim embeddings) L G
  = Raise IndexError.
Proof.
  revert G. induction L as [|[[i node1] [j node2]] L IH]; intros G [p [Hp Hr]];
    cbn [for_each]; [destruct Hp|].
  destruct (in_range_dec (i, node1, (j, node2))) as [[Hi Hj]|Hout].
  - destruct (similarity_step_ok G i node1 j node2 Hi Hj)
      as (a & b & _ & _ & ->).
    simpl. apply IH. destruct Hp as [<-|Hp]; [|eauto].
    exfalso. apply Hr. split; assumption.
  - rewrite similarity_step_error; [reflexivity|].
    unfold Kg.in_range in Hout. simpl in Hout. lia.
Qed.

Lemma steps_edges L G G' :
  for_each (Kg.similarity_step pytorch_cos_sim embeddings) L G = Ok G' ->
  edges G'
  = fold_left Kg.record_call
              (omap (Kg.similarity_call pytorch_cos_sim embeddings) L)
              (edges G).
Proof.
  revert G. induction L as [|[[i node1] [j node2]] L IH]; intros G.
  - simpl. now intros [= <-].
  - cbn [for_each omap list_omap].
    destruct (in_range_dec (i, node1, (j, node2))) as [[Hi Hj]|Hout].
    + destruct (similarity_step_ok G i node1 j node2 Hi Hj)
        as (a & b & Ha & Hb & ->).
      simpl in Ha, Hb. unfold Kg.similarity_call. rewrite Ha, Hb. simpl.
      intros H. rewrite (IH _ H).
      destruct (0.7 <? pytorch_cos_sim a b)%float; [|reflexivity].
      rewrite add_edge_edges. reflexivity.
    + rewrite similarity_step_error; [discriminate|].
      unfold Kg.in_range in Hout. simpl in Hout. lia.
Qed.

Lemma steps_nodes L G G' :
  (forall i node1 j node2, In ((i, node1), (j, node2)) L ->
                           has_node G node1 = true /\ has_node G node2 = true) ->
  for_each (Kg.similarity_step pytorch_cos_sim embeddings) L G = Ok G' ->
  nodes G' = nodes G.
Proof.
  revert G. induction L as [|[[i node1] [j node2]] L IH]; intros G Hn.
  - simpl. now intros [= <-].
  - cbn [for_each].
    destruct (in_range_dec (i, node1, (j, node2))) as [[Hi Hj]|Hout].
    + destruct (similarity_step_ok G i node1 j node2 Hi Hj)
        as (a & b & _ & _ & ->).
      simpl.
      destruct (Hn i node1 j node2) as [H1 H2]; [now left|].
      intros H. apply IH in H.
      * rewrite H. destruct (_ <? _)%float; [|reflexivity].
        now apply add_edge_nodes.
      * intros i' n1' j' n2' Hin.
        destruct (Hn i' n1' j' n2') as [H1' H2']; [now right|].
        destruct (_ <? _)%float; [|tauto].
        split; now apply has_node_add_edge.
    + rewrite similarity_step_error; [discriminate|].
      unfold Kg.in_range in Hout. simpl in Hout. lia.
Qed.

End SimilarityLoops.

Section Positions.
Import Py.

Context {A : Type}.

Lemma enumerate_from_In a (l : list A) j x :
  In (j, x) (combine (seq a (length l)) l) <->
  a <= j /\ nth_error l (j - a) = Some x.
Proof.
  revert a. induction l as [|y l IH]; intros a; simpl.
  - split; [tauto|]. intros [_ H]. destruct (j - a); discriminate.
  - rewrite IH. split.
    + intros [[= <- <-]|[Hj Hx]].
      * rewrite Nat.sub_diag. auto.
      * split; [lia|]. replace (j - a) with (S (j - S a)) by lia. exact Hx.
    + intros [Hj Hx]. destruct (Nat.eq_dec a j) as [<-|Hne].
      * rewrite Nat.sub_diag in Hx. left. simpl in Hx. congruence.
      * right. split; [lia|].
        replace (j - a) with (S (j - S a)) in Hx by lia. exact Hx.
Qed.

(** The pairs of an enumeration are the pairs of positions [i < j]. *)
Lemma pairs_enumerate_from_In a (l : list A) i x j y :
  In ((i, x), (j, y)) (pairs (combine (seq a (length l)) l)) <->
  a <= i /\ i < j /\
  nth_error l (i - a) = Some x /\ nth_error l (j - a) = Some y.
Proof.
  revert a. induction l as [|z l IH]; intros a; simpl.
  - split; [tauto|]. intros (_ & _ & H & _). destruct (i - a); discriminate.
  - rewrite in_app_iff, in_map_iff, IH. split.
    + intros [[[j' y'] [[= <- <- <- <-] Hin]]|(Hi & Hij & Hx & Hy)].
      * apply enumerate_from_In in Hin as [Hj Hy].
        rewrite Nat.sub_diag. repeat split; [lia..|].
        replace (j' - a) with (S (j' - S a)) by lia. exact Hy.
      * repeat split; [lia..| |].
        -- replace (i - a) with (S (i - S a)) by lia. exact Hx.
        -- replace (j - a) with (S (j - S a)) by lia. exact Hy.
    + intros (Hi & Hij & Hx & Hy). destruct (Nat.eq_dec a i) as [<-|Hne].
      * left. exists (j, y). rewrite Nat.sub_diag in Hx. simpl in Hx.
        injection Hx as <-. split; [reflexivity|].
        apply enumerate_from_In. split; [lia|].
        replace (j - a) with (S (j - S a)) in Hy by lia. exact Hy.
      * right. repeat split; [lia..| |].
        -- replace (i - a) with (S (i - S a)) in Hx by lia. exact Hx.
        -- replace (j - a) with (S (j - S a)) in Hy by lia. exact Hy.
Qed.

Lemma pairs_enumerate_In (l : list A) i x j y :
  In ((i, x), (j, y)) (pairs (enumerate l)) <->
  i < j /\ nth_error l i = Some x /\ nth_error l j = Some y.
Proof.
  unfold enumerate. rewrite pairs_enumerate_from_In, !Nat.sub_0_r.
  split; [tauto|]. intros (? & ? & ?). repeat split; auto. lia.
Qed.

End Positions.

(** ** The calls of [add_edge] and the edge store *)

Section Calls.
Import Py Nx.

Lemma last_snoc {A : Type} (l : list A) x : last (l ++ [x]) = Some x.
Proof. induction l as [|y [|z l] IH]; simpl in *; auto. Qed.

Lemma last_call_snoc calls c u v :
  Kg.last_call (calls ++ [c]) u v
  = if Kg.call_joins u v c then Some c else Kg.last_call calls u v.
Proof.
  unfold Kg.last_call. rewrite List.filter_app. simpl.
  destruct (Kg.call_joins u v c); [apply last_snoc|now rewrite app_nil_r].
Qed.

Lemma last_call_In calls u v c :
  Kg.last_call calls u v = Some c -> In c calls /\ Kg.call_joins u v c = true.
Proof.
  induction calls as [|c' calls IH] using rev_ind; [discriminate|].
  rewrite last_call_snoc, in_app_iff. simpl.
  destruct (Kg.call_joins u v c') eqn:J.
  - intros [= <-]. tauto.
  - intros H. apply IH in H. tauto.
Qed.

Lemma last_call_None calls u v :
  Kg.last_call calls u v = None <->
  forall c, In c calls -> Kg.call_joins u v c = false.
Proof.
  induction calls as [|c' calls IH] using rev_ind.
  - split; [intros _ c []|reflexivity].
  - rewrite last_call_snoc. destruct (Kg.call_joins u v c') eqn:J.
    + split; [discriminate|]. intros H.
      rewrite H in J; [discriminate|]. apply in_app_iff. right. now left.
    + rewrite IH. split; intros H c Hc.
      * apply in_app_iff in Hc as [Hc|[<-|[]]]; auto.
      * apply H, in_app_iff. now left.
Qed.

(** A pair that one call only ever joins: that call is the last. *)
Lemma last_call_only calls u v c :
  In c calls -> Kg.call_joins u v c = true ->
  (forall c', In c' calls -> Kg.call_joins u v c' = true -> c' = c) ->
  Kg.last_call calls u v = Some c.
Proof.
  intros Hin J Hall.
  destruct (Kg.last_call calls u v) as [c'|] eqn:Hlast.
  - apply last_call_In in Hlast as [Hin' J']. f_equal. now apply Hall.
  - rewrite last_call_None in Hlast. rewrite (Hlast c Hin) in J. discriminate.
Qed.

Lemma last_call_app calls1 calls2 u v :
  Kg.last_call (calls1 ++ calls2) u v
  = match Kg.last_call calls2 u v with
    | Some c => Some c
    | None => Kg.last_call calls1 u v
    end.
Proof.
  induction calls2 as [|c calls2 IH] using rev_ind.
  - now rewrite app_nil_r.
  - rewrite app_assoc, !last_call_snoc, IH.
    destruct (Kg.call_joins u v c); reflexivity.
Qed.

Lemma fold_record_snoc calls c l :
  fold_left Kg.record_call (calls ++ [c]) l
  = Kg.record_call (fold_left Kg.record_call calls l) c.
Proof. now rewrite fold_left_app. Qed.

Lemma lookup_record_call l c u v :
  lookup_edge (Kg.record_call l c) u v
  = if Kg.call_joins u v c
    then Some (Kg.call_attrs c
                 (default no_edge_attrs
                          (lookup_edge l (Kg.call_u c) (Kg.call_v c))))
    else lookup_edge l u v.
Proof. apply lookup_update_edge. Qed.

(** The edge of a pair after a sequence of calls: untouched when no call
    joins the pair, and labelled by the last call that does. *)
Lemma lookup_fold_record_none calls l u v :
  Kg.last_call calls u v = None ->
  lookup_edge (fold_left Kg.record_call calls l) u v = lookup_edge l u v.
Proof.
  induction calls as [|c calls IH] using rev_ind; [reflexivity|].
  rewrite last_call_snoc, fold_record_snoc, lookup_record_call.
  destruct (Kg.call_joins u v c); [discriminate|exact IH].
Qed.

Lemma lookup_fold_record_last calls l u v c :
  Kg.last_call calls u v = Some c ->
  exists d,
    lookup_edge (fold_left Kg.record_call calls l) u v
    = Some (Kg.call_attrs c d).
Proof.
  induction calls as [|c' calls IH] using rev_ind; [discriminate|].
  rewrite last_call_snoc, fold_record_snoc, lookup_record_call.
  destruct (Kg.call_joins u v c'); [|exact IH].
  intros [= <-]. eauto.
Qed.

Lemma fold_record_distinct calls l :
  distinct_pairs l = true ->
  distinct_pairs (fold_left Kg.record_call calls l) = true.
Proof.
  revert l. induction calls as [|c calls IH]; intros l H; simpl; [exact H|].
  apply IH. now apply update_edge_distinct.
Qed.

End Calls.

(** ** The constructed graph *)

Section Build.
Import Py Nx.

Variable pipeline : string -> Spacy.Parse.
Variable pytorch_cos_sim : Kg.embedding -> Kg.embedding -> float.

Lemma add_entity_edges doc_node G e :
  edges (Kg.add_entity doc_node G e)
  = Kg.record_call (edges G) (Kg.mkCall doc_node (fst e) "contains" None).
Proof.
  destruct e as [entity entity_type]. unfold Kg.add_entity.
  rewrite add_edge_edges. destruct (has_node G entity); reflexivity.
Qed.

Lemma fold_add_entity_edges doc_node es G :
  edges (fold_left (Kg.add_entity doc_node) es G)
  = fold_left Kg.record_call
      (map (fun e : string * string =>
              Kg.mkCall doc_node (fst e) "contains" None) es)
      (edges G).
Proof.
  revert G. induction es as [|e es IH]; intros G; simpl; [reflexivity|].
  now rewrite IH, add_entity_edges.
Qed.

Lemma fold_add_triple_edges ts G :
  edges (fold_left Kg.add_triple ts G)
  = fold_left Kg.record_call (map Kg.triple_call ts) (edges G).
Proof.
  revert G. induction ts as [|[[s r] o] ts IH]; intros G;
    cbn [fold_left map]; [reflexivity|].
  rewrite IH. unfold Kg.add_triple, Kg.triple_call.
  now rewrite add_edge_edges.
Qed.

Lemma add_chunk_edges G ic :
  edges (Kg.add_chunk pipeline G ic)
  = fold_left Kg.record_call (Kg.chunk_edge_calls pipeline ic) (edges G).
Proof.
  destruct ic as [i chunk]. unfold Kg.add_chunk, Kg.chunk_edge_calls.
  rewrite fold_add_triple_edges, fold_add_entity_edges.
  rewrite map_app, !fold_left_app. reflexivity.
Qed.

Lemma fold_add_chunk_edges ics G :
  edges (fold_left (Kg.add_chunk pipeline) ics G)
  = fold_left Kg.record_call (flat_map (Kg.chunk_edge_calls pipeline) ics)
              (edges G).
Proof.
  revert G. induction ics as [|ic ics IH]; intros G; simpl; [reflexivity|].
  now rewrite IH, add_chunk_edges, fold_left_app.
Qed.

Lemma document_names_has_node G n :
  In n (Kg.document_names (nodes G)) -> has_node G n = true.
Proof.
  unfold Kg.document_names. intros H.
  apply list_elem_of_In, list_elem_of_omap in H as [[m d] [Hin Hn]].
  simpl in Hn. destruct (bool_decide _); [|discriminate].
  injection Hn as ->. apply list_elem_of_In, In_lookup_node in Hin.
  now apply has_node_lookup.
Qed.

(** The graph [create_networkx_graph] returns: its nodes are those the loop
    over the chunks left, its edge store is the record of its calls. *)
Lemma create_networkx_graph_stores data embeddings G :
  Kg.create_networkx_graph pipeline pytorch_cos_sim data embeddings = Ok G ->
  nodes G = nodes (fold_left (Kg.add_chunk pipeline) (enumerate data) empty) /\
  edges G
  = fold_left Kg.record_call
              (Kg.edge_calls pipeline pytorch_cos_sim data embeddings) [].
Proof.
  unfold Kg.create_networkx_graph, Kg.edge_calls.
  set (G1 := fold_left (Kg.add_chunk pipeline) (enumerate data) empty).
  destruct (chunks_graph_nodes pipeline data) as (_ & Hdn & _).
  fold G1 in Hdn. rewrite Hdn.
  rewrite (add_similarities_pairs pytorch_cos_sim embeddings _ G1 Hdn).
  intros H. split.
  - apply (steps_nodes _ _ _ _ _ ) in H; [exact H|].
    intros i node1 j node2 Hin.
    apply pairs_enumerate_In in Hin as (_ & H1 & H2).
    apply nth_error_In in H1, H2.
    split; now apply document_names_has_node.
  - apply steps_edges in H. rewrite H, fold_left_app. f_equal.
    unfold G1. now rewrite fold_add_chunk_edges.
Qed.

(** *** Edges join nodes *)

Lemma add_node_closed G n attrs : closed G -> closed (add_node G n attrs).
Proof.
  intros H u v d Hin. destruct (H u v d Hin) as [Hu Hv].
  rewrite !has_node_add_node, Hu, Hv. auto.
Qed.

Lemma has_node_add_edge_ends G u v attrs :
  has_node (add_edge G u v attrs) u = true /\
  has_node (add_edge G u v attrs) v = true.
Proof.
  unfold add_edge.
  set (G1 := if has_node G u then G else add_node G u (fun d => d)).
  assert (Hu : has_node G1 u = true).
  { unfold G1. destruct (has_node G u) eqn:Hu; [exact Hu|].
    rewrite has_node_add_node, String.eqb_refl. apply orb_true_r. }
  destruct (has_node G1 v) eqn:Hv; unfold has_node, node_data; simpl.
  - unfold has_node, node_data in Hu, Hv. now rewrite Hu, Hv.
  - rewrite !lookup_update_node, String.eqb_refl.
    unfold has_node, node_data in Hu.
    destruct (String.eqb v u); [auto|]. now rewrite Hu.
Qed.

Lemma add_edge_closed G u v attrs : closed G -> closed (add_edge G u v attrs).
Proof.
  intros H a b d Hin. rewrite add_edge_edges in Hin.
  apply update_edge_In in Hin as [Hin|[J _]].
  - destruct (H a b d Hin). split; now apply has_node_add_edge.
  - destruct (has_node_add_edge_ends G u v attrs) as [Hu Hv].
    simpl in J. clear - J Hu Hv. string_cases; split; assumption.
Qed.

Lemma add_chunk_closed G ic : closed G -> closed (Kg.add_chunk pipeline G ic).
Proof.
  destruct ic as [i chunk]. unfold Kg.add_chunk. intros H.
  set (l := Kg.extract_relations _ _ _ ++ _). clearbody l.
  set (es := Kg.extract_key_entities pipeline _). clearbody es.
  set (G1 := add_node G _ _).
  assert (H1 : closed G1) by now apply add_node_closed.
  clearbody G1.
  assert (H2 : closed (fold_left (Kg.add_entity (Kg.doc_name i)) es G1)).
  { clear H. revert G1 H1. induction es as [|[e t] es IH]; intros G1 H1;
      simpl; [exact H1|].
    apply IH, add_edge_closed. destruct (has_node G1 e); [exact H1|].
    now apply add_node_closed. }
  revert H2. generalize (fold_left (Kg.add_entity (Kg.doc_name i)) es G1).
  induction l as [|[[s r] o] l IH]; intros G2 H2; simpl; [exact H2|].
  apply IH. now apply add_edge_closed.
Qed.

Lemma fold_add_chunk_closed ics G :
  closed G -> closed (fold_left (Kg.add_chunk pipeline) ics G).
Proof.
  revert G. induction ics as [|ic ics IH]; intros G H; simpl; [exact H|].
  apply IH. now apply add_chunk_closed.
Qed.

Lemma steps_closed embeddings L G G' :
  closed G ->
  for_each (Kg.similarity_step pytorch_cos_sim embeddings) L G = Ok G' ->
  closed G'.
Proof.
  revert G. induction L as [|[[i node1] [j node2]] L IH]; intros G H.
  - simpl. now intros [= <-].
  - cbn [for_each].
    destruct (in_range_dec embeddings (i, node1, (j, node2)))
      as [[Hi Hj]|Hout].
    + destruct (similarity_step_ok pytorch_cos_sim embeddings G i node1 j
                  node2 Hi Hj) as (a & b & _ & _ & ->).
      simpl. apply IH. destruct (_ <? _)%float; [|exact H].
      now apply add_edge_closed.
    + rewrite similarity_step_error; [discriminate|].
      unfold Kg.in_range in Hout. simpl in Hout. lia.
Qed.

(** What holds of every graph [create_networkx_graph] returns. *)
Lemma create_networkx_graph_invariants data embeddings G :
  Kg.create_networkx_graph pipeline pytorch_cos_sim data embeddings = Ok G ->
  (forall n d, In (n, d) (nodes G) -> Kg.built_node d) /\
  closed G /\ wf G.
Proof.
  intros H.
  destruct (create_networkx_graph_stores data embeddings G H) as [Hn He].
  destruct (chunks_graph_nodes pipeline data) as (Hbuilt & Hdn & _).
  split; [|split].
  - rewrite Hn. exact Hbuilt.
  - unfold Kg.create_networkx_graph in H.
    rewrite (add_similarities_pairs pytorch_cos_sim embeddings _ _ Hdn) in H.
    apply steps_closed in H; [exact H|].
    apply fold_add_chunk_closed. intros u v d [].
  - unfold wf. rewrite He. now apply fold_record_distinct.
Qed.

End Build.

(** ** Mismatched lengths *)

Section Mismatch.
Import Py Nx.

Variable pipeline : string -> Spacy.Parse.
Variable pytorch_cos_sim : Kg.embedding -> Kg.embedding -> float.

Lemma create_networkx_graph_ok data embeddings :
  length data <= length embeddings \/ length data <= 1 ->
  exists G,
    Kg.create_networkx_graph pipeline pytorch_cos_sim data embeddings = Ok G.
Proof.
  intros Hlen. unfold Kg.create_networkx_graph.
  destruct (chunks_graph_nodes pipeline data) as (_ & Hdn & Hn).
  rewrite (add_similarities_pairs pytorch_cos_sim embeddings _ _ Hdn).
  apply steps_ok. intros [[i x] [j y]] Hin.
  apply pairs_enumerate_In in Hin as (Hij & _ & Hj).
  assert (j < length data)
    by (rewrite <- Hn; apply nth_error_Some; congruence).
  unfold Kg.in_range. simpl. lia.
Qed.

Lemma create_networkx_graph_index_error data embeddings :
  2 <= length data -> length embeddings < length data ->
  Kg.create_networkx_graph pipeline pytorch_cos_sim data embeddings
  = Raise IndexError.
Proof.
  intros H2 Hlt. unfold Kg.create_networkx_graph.
  destruct (chunks_graph_nodes pipeline data) as (_ & Hdn & Hn).
  rewrite (add_similarities_pairs pytorch_cos_sim embeddings _ _ Hdn).
  set (dn := Kg.document_names _) in *.
  destruct (nth_error dn 0) as [x|] eqn:Hx;
    [|apply nth_error_None in Hx; lia].
  destruct (nth_error dn (length data - 1)) as [y|] eqn:Hy;
    [|apply nth_error_None in Hy; lia].
  apply steps_error. exists ((0, x), (length data - 1, y)). split.
  - apply pairs_enumerate_In. repeat split; [lia|assumption..].
  - unfold Kg.in_range. simpl. lia.
Qed.

(** C1, as the code has it: [create_networkx_graph] never raises
    [InvalidInput]. It returns a graph whenever there are at least as many
    embeddings as chunks, or fewer than two chunks; with two or more chunks
    and fewer embeddings than chunks, the look-up of an embedding raises
    [IndexError]. *)
Theorem create_networkx_graph_never_invalid_input
  (data : list string) (embeddings : list Kg.embedding) :
  Kg.create_networkx_graph pipeline pytorch_cos_sim data embeddings
  <> Raise InvalidInput /\
  (length data <= length embeddings \/ length data <= 1 ->
   exists G,
     Kg.create_networkx_graph pipeline pytorch_cos_sim data embeddings = Ok G) /\
  (2 <= length data -> length embeddings < length data ->
   Kg.create_networkx_graph pipeline pytorch_cos_sim data embeddings
   = Raise IndexError).
Proof.
  split; [|split].
  - destruct (le_lt_dec (length data) (length embeddings)) as [Hle|Hlt].
    + destruct (create_networkx_graph_ok data embeddings) as [G ->];
        [now left|discriminate].
    + destruct (le_lt_dec (length data) 1) as [H1|H2].
      * destruct (create_networkx_graph_ok data embeddings) as [G ->];
          [now right|discriminate].
      * rewrite create_networkx_graph_index_error by lia. discriminate.
  - apply create_networkx_graph_ok.
  - apply create_networkx_graph_index_error.
Qed.

End Mismatch.

Section MismatchSample.
Import Py Nx.

(** C1 as stated fails: one chunk with two embeddings is a mismatch, and
    the graph is built without any error, the second embedding unread. *)
Lemma create_networkx_graph_accepts_mismatch :
  length ["a"] <> length [[1; 0]; [0; 1]]%float /\
  Kg.create_networkx_graph Examples.pipeline Examples.cosine
                           ["a"] [[1; 0]; [0; 1]]%float
  = Ok (mkGraph [("doc_0", mkNode (Some "document") (Some "a") None None)] []).
Proof. split; [discriminate|vm_compute; reflexivity]. Qed.

(** Two chunks with one embedding: the error is [IndexError]. *)
Example create_networkx_graph_short_embeddings :
  Kg.create_networkx_graph Examples.pipeline Examples.cosine
                           ["a"; "b"] [[1; 0]]%float
  = Raise IndexError.
Proof. vm_compute. reflexivity. Qed.

End MismatchSample.

(** ** Graph context over a constructed graph *)

Section BuiltGraphContext.
Import Py Nx Search.

Variable pipeline : string -> Spacy.Parse.
Variable pytorch_cos_sim : Kg.embedding -> Kg.embedding -> float.

Lemma neighbors_In G node n :
  In n (neighbors G node) -> exists u v d, In (u, v, d) (edges G) /\ (n = u \/ n = v).
Proof.
  unfold neighbors. intros H.
  apply list_elem_of_In, list_elem_of_omap in H as [[[a b] d] [Hin Hn]].
  apply list_elem_of_In in Hin. exists a, b, d. split; [exact Hin|].
  destruct (String.eqb a node); [injection Hn as <-; now right|].
  destruct (String.eqb b node); [injection Hn as <-; now left|discriminate].
Qed.

(** In a graph whose nodes are typed 'document' or 'entity' no neighbour is
    typed 'chunk'. *)
Lemma built_graph_no_chunk (self : SearchUtils) node :
  (forall n d, In (n, d) (nodes (knowledge_graph self)) -> Kg.built_node d) ->
  closed (knowledge_graph self) ->
  neighbors_of_type self node "chunk" = Ok [].
Proof.
  intros Hbuilt Hclosed. unfold neighbors_of_type.
  assert (Hall : forall n, In n (neighbors (knowledge_graph self) node) ->
                           exists t, node_type self n = Ok t /\
                                     String.eqb t "chunk" = false).
  { intros n Hn. apply neighbors_In in Hn as (u & v & d & Hin & Hn).
    destruct (Hclosed u v d Hin) as [Hu Hv].
    assert (Hnode : has_node (knowledge_graph self) n = true)
      by (destruct Hn as [-> | ->]; assumption).
    apply has_node_lookup in Hnode as [d' Hd'].
    unfold node_type, node_data. rewrite Hd'.
    apply lookup_node_In, Hbuilt in Hd' as [[Hty|Hty] _]; rewrite Hty; eauto. }
  induction (neighbors (knowledge_graph self) node) as [|n l IH];
    [reflexivity|].
  simpl. destruct (Hall n) as (t & -> & Ht); [now left|]. simpl.
  rewrite Ht, IH by (intros; apply Hall; now right). reflexivity.
Qed.

(** C10: every node of a graph that [create_networkx_graph] returns is
    typed 'document' or 'entity' and carries no confidence. Over such a
    graph, [get_graph_context] finds no chunk-typed neighbour and hence no
    parent document for any entity, and scores the entity 0.5 when its name,
    lowercased, occurs in the lowercased query and 0 otherwise. *)
Theorem built_graph_entity_relevance
  (data : list string) (embeddings : list Kg.embedding) (G : Graph) :
  Kg.create_networkx_graph pipeline pytorch_cos_sim data embeddings = Ok G ->
  (forall n d, In (n, d) (nodes G) ->
               (type d = Some "document" \/ type d = Some "entity") /\
               type d <> Some "chunk" /\ confidence d = None) /\
  (forall (self : SearchUtils) (query n : string) (d : NodeData),
      knowledge_graph self = G -> In (n, d) (nodes G) ->
      type d = Some "entity" ->
      neighbors_of_type self n "chunk" = Ok [] /\
      parent_documents self [] = Ok [] /\
      entity_relevance self query n d
      = Ok ([], if contains (lower n) (lower query)
                then 0.5%float else 0%float)).
Proof.
  intros H.
  destruct (create_networkx_graph_invariants pipeline pytorch_cos_sim
              data embeddings G H) as (Hbuilt & Hclosed & _).
  split.
  - intros n d Hin. destruct (Hbuilt n d Hin) as [Hty Hconf].
    repeat split; [exact Hty| |exact Hconf].
    destruct Hty as [-> | ->]; discriminate.
  - intros self query n d <- Hin Hty.
    assert (Hchunks : neighbors_of_type self n "chunk" = Ok [])
      by now apply built_graph_no_chunk.
    repeat split; [exact Hchunks|].
    unfold entity_relevance. rewrite Hchunks. simpl.
    destruct (Hbuilt n d Hin) as [_ ->]. simpl.
    destruct (contains (lower n) (lower query)); vm_compute; reflexivity.
Qed.

End BuiltGraphContext.

Section BuiltGraphSample.
Import Py Nx Search.

Lemma built_graph_entity_relevance_witness :
  exists G,
    Kg.create_networkx_graph Examples.pipeline Examples.cosine
                             [Examples.sister_text; "b"]
                             [[1; 0]; [0.8; 0.6]]%float = Ok G /\
    (forall n d, In (n, d) (nodes G) ->
                 (type d = Some "document" \/ type d = Some "entity") /\
                 type d <> Some "chunk" /\ confidence d = None) /\
    (forall (self : SearchUtils) (query n : string) (d : NodeData),
        knowledge_graph self = G -> In (n, d) (nodes G) ->
        type d = Some "entity" ->
        neighbors_of_type self n "chunk" = Ok [] /\
        parent_documents self [] = Ok [] /\
        entity_relevance self query n d
        = Ok ([], if contains (lower n) (lower query)
                  then 0.5%float else 0%float)).
Proof.
  destruct (Kg.create_networkx_graph Examples.pipeline Examples.cosine
              [Examples.sister_text; "b"] [[1; 0]; [0.8; 0.6]]%float)
    as [G|e] eqn:HG.
  - exists G. split; [reflexivity|].
    exact (built_graph_entity_relevance Examples.pipeline Examples.cosine
             [Examples.sister_text; "b"] [[1; 0]; [0.8; 0.6]]%float G HG).
  - vm_compute in HG. discriminate.
Defined.

(** Over the graph of the sample corpus the entity "Mary" scores 0.5 for a
    query that names her, which is below the threshold 0.6: no entity is
    scored. *)
Example built_graph_mary :
  match Kg.create_networkx_graph Examples.pipeline Examples.cosine
          [Examples.sister_text; "b"] [[1; 0]; [0.8; 0.6]]%float with
  | Ok G =>
      entity_relevance (mkSearchUtils None (Vec []) [] G) "Who is Mary?" "Mary"
                       (mkNode (Some "entity") None (Some "PERSON") None)
      = Ok ([], 0.5%float) /\
      node_scores Examples.default_settings
                  (mkSearchUtils None (Vec []) [] G) "Who is Mary?" = Ok []
  | Raise _ => False
  end.
Proof. vm_compute. split; reflexivity. Qed.

End BuiltGraphSample.

(** ** The last relation of a pair *)

Section LastRelation.
Import Py Nx.

Variable pipeline : string -> Spacy.Parse.
Variable pytorch_cos_sim : Kg.embedding -> Kg.embedding -> float.

Lemma triple_call_joins a r b : Kg.call_joins a b (Kg.triple_call (a, r, b)) = true.
Proof.
  unfold Kg.call_joins. simpl. now rewrite !String.eqb_refl.
Qed.

(** After a chunk, a pair with a family triple carries the label of the
    last family triple of the pair. *)
Lemma add_chunk_family_label G i chunk a r b :
  In (a, r, b) (Kg.extract_family_relations pipeline (Kg.preprocess_text chunk)) ->
  exists c d,
    Kg.last_call (Kg.chunk_edge_calls pipeline (i, chunk)) a b = Some c /\
    In c (map Kg.triple_call
              (Kg.extract_family_relations pipeline (Kg.preprocess_text chunk))) /\
    edge_data (Kg.add_chunk pipeline G (i, chunk)) a b = Some d /\
    relation d = Some (Kg.call_relation c).
Proof.
  intros Hin.
  set (family := map Kg.triple_call (Kg.extract_family_relations pipeline _)).
  destruct (Kg.last_call family a b) as [c|] eqn:Hlast.
  - assert (Hc : Kg.last_call (Kg.chunk_edge_calls pipeline (i, chunk)) a b
                 = Some c).
    { unfold Kg.chunk_edge_calls. rewrite !last_call_app.
      fold family. now rewrite Hlast. }
    destruct (lookup_fold_record_last _ (edges G) a b c Hc) as [d0 Hd].
    exists c, (Kg.call_attrs c d0). repeat split.
    + exact Hc.
    + now apply last_call_In in Hlast.
    + unfold edge_data. now rewrite add_chunk_edges.
  - exfalso. rewrite last_call_None in Hlast.
    specialize (Hlast (Kg.triple_call (a, r, b)) (in_map _ _ _ Hin)).
    rewrite triple_call_joins in Hlast. discriminate.
Qed.

(** C6: a graph that [create_networkx_graph] returns has at most one edge
    for a pair of endpoints; [add_edge] on a pair that is joined replaces
    the relation of its edge and adds none; the relation of every edge of
    the returned graph is the one of the last [add_edge] call for its pair,
    and pairs that no call joined have no edge; and after the loop body of a
    chunk, a pair for which the family pass emitted a triple carries the
    relation of the last family triple of the pair, whatever the syntactic
    pass emitted for it. *)
Theorem last_relation_survives
  (data : list string) (embeddings : list Kg.embedding) (G : Graph) :
  Kg.create_networkx_graph pipeline pytorch_cos_sim data embeddings = Ok G ->
  (forall e1 e2, In e1 (edges G) -> In e2 (edges G) ->
                 joins (fst (fst e1)) (snd (fst e1)) e2 = true -> e1 = e2) /\
  (forall (G0 : Graph) u v rel d0,
      edge_data G0 u v = Some d0 ->
      edge_data (add_edge G0 u v (Kg.relation_attrs rel)) u v
      = Some (mkEdge (Some rel) (weight d0)) /\
      length (edges (add_edge G0 u v (Kg.relation_attrs rel)))
      = length (edges G0)) /\
  (forall u v,
      match Kg.last_call
              (Kg.edge_calls pipeline pytorch_cos_sim data embeddings) u v with
      | Some c => exists d, edge_data G u v = Some d /\
                            relation d = Some (Kg.call_relation c)
      | None => edge_data G u v = None
      end) /\
  (forall (G0 : Graph) i chunk a r b,
      In (a, r, b)
         (Kg.extract_family_relations pipeline (Kg.preprocess_text chunk)) ->
      exists c d,
        In c (map Kg.triple_call
                  (Kg.extract_family_relations pipeline
                     (Kg.preprocess_text chunk))) /\
        Kg.call_joins a b c = true /\
        edge_data (Kg.add_chunk pipeline G0 (i, chunk)) a b = Some d /\
        relation d = Some (Kg.call_relation c)).
Proof.
  intros H.
  destruct (create_networkx_graph_invariants pipeline pytorch_cos_sim
              data embeddings G H) as (_ & _ & Hwf).
  destruct (create_networkx_graph_stores pipeline pytorch_cos_sim
              data embeddings G H) as [_ He].
  split; [|split; [|split]].
  - intros e1 e2. now apply distinct_pairs_unique.
  - intros G0 u v rel d0 Hd0. unfold edge_data in *.
    rewrite add_edge_edges, lookup_update_edge. simpl.
    rewrite !String.eqb_refl, Hd0. simpl. split; [reflexivity|].
    clear - Hd0. induction (edges G0) as [|e l IH]; [discriminate|].
    simpl in *. destruct (joins u v e); simpl; [reflexivity|].
    now rewrite IH.
  - intros u v. unfold edge_data. rewrite He.
    destruct (Kg.last_call _ u v) as [c|] eqn:Hlast.
    + destruct (lookup_fold_record_last _ [] u v c Hlast) as [d0 Hd].
      exists (Kg.call_attrs c d0). split; [exact Hd|reflexivity].
    + now rewrite lookup_fold_record_none.
  - intros G0 i chunk a r b Hin.
    destruct (add_chunk_family_label G0 i chunk a r b Hin)
      as (c & d & Hlast & Hc & Hd & Hrel).
    exists c, d. repeat split; auto.
    now apply last_call_In in Hlast.
Qed.

End LastRelation.

Section LastRelationSample.
Import Py Nx.

Lemma last_relation_survives_witness :
  exists G,
    Kg.create_networkx_graph Examples.pipeline Examples.cosine
                             [Examples.brother_text] [[1; 0]]%float = Ok G /\
    (forall e1 e2, In e1 (edges G) -> In e2 (edges G) ->
                   joins (fst (fst e1)) (snd (fst e1)) e2 = true -> e1 = e2) /\
    (forall u v,
        match Kg.last_call
                (Kg.edge_calls Examples.pipeline Examples.cosine
                               [Examples.brother_text] [[1; 0]]%float) u v with
        | Some c => exists d, edge_data G u v = Some d /\
                              relation d = Some (Kg.call_relation c)
        | None => edge_data G u v = None
        end).
Proof.
  destruct (Kg.create_networkx_graph Examples.pipeline Examples.cosine
              [Examples.brother_text] [[1; 0]]%float) as [G|e] eqn:HG.
  - exists G. split; [reflexivity|].
    destruct (last_relation_survives Examples.pipeline Examples.cosine
                [Examples.brother_text] [[1; 0]]%float G HG)
      as (Hone & _ & Hlast & _).
    split; [exact Hone|exact Hlast].
  - vm_compute in HG. discriminate.
Defined.

(** In the sample text the syntactic pass labels the pair of "John" and
    "Mary" with "meet" and the family pass with "brother": the edge says
    "brother". *)
Example family_label_overwrites :
  In ("John", "meet", "Mary")
     (Kg.extract_relations Examples.pipeline Examples.brother_text
        (Kg.extract_key_entities Examples.pipeline Examples.brother_text)) /\
  Kg.extract_family_relations Examples.pipeline Examples.brother_text
  = [("John", "brother", "Mary"); ("Mary", "brother", "John")] /\
  exists G,
    Kg.create_networkx_graph Examples.pipeline Examples.cosine
                             [Examples.brother_text] [[1; 0]]%float = Ok G /\
    edge_data G "Mary" "John" = Some (mkEdge (Some "brother") None).
Proof.
  split; [vm_compute; auto|]. split; [vm_compute; reflexivity|].
  eexists. split; vm_compute; reflexivity.
Qed.

End LastRelationSample.

(** ** Similarity edges *)

Section DocumentOrder.
Import Py Nx.

Variable pipeline : string -> Spacy.Parse.

Lemma chunk_nodes_order l i chunk :
  Kg.no_collision pipeline chunk ->
  Kg.document_names l = map Kg.doc_name (seq 0 i) -> Kg.names_ok i l ->
  Kg.document_names (Kg.chunk_nodes pipeline l (i, chunk))
  = map Kg.doc_name (seq 0 (S i)) /\
  Kg.names_ok (S i) (Kg.chunk_nodes pipeline l (i, chunk)).
Proof.
  intros Hfree Hdocs Hok.
  assert (Habsent : lookup_node l (Kg.doc_name i) = None).
  { destruct (lookup_node l (Kg.doc_name i)) as [d|] eqn:Hd; [|reflexivity].
    apply lookup_node_In, Hok in Hd as [[_ (k & Hk & Heq)]|[_ Hne]].
    - apply doc_name_inj in Heq. lia.
    - now destruct (Hne i). }
  split.
  - unfold Kg.chunk_nodes. cbn [fst snd].
    rewrite document_names_fold_ensure_entity, update_node_absent by exact Habsent.
    rewrite document_names_app, Hdocs, seq_S, map_app. reflexivity.
  - intros n d Hin.
    apply chunk_nodes_In in Hin as [Hin|[[-> ->]|(e & He & -> & ->)]].
    + destruct (Hok n d Hin) as [[Hty (k & Hk & ->)]|Hother]; [|now right].
      left. split; [exact Hty|]. exists k. split; [lia|reflexivity].
    + left. split; [reflexivity|]. exists i. split; [lia|reflexivity].
    + right. split; [discriminate|]. intros k. now apply Hfree.
Qed.

Lemma fold_chunk_nodes_order data a l :
  (forall chunk, In chunk data -> Kg.no_collision pipeline chunk) ->
  Kg.document_names l = map Kg.doc_name (seq 0 a) -> Kg.names_ok a l ->
  Kg.document_names
    (fold_left (Kg.chunk_nodes pipeline) (combine (seq a (length data)) data) l)
  = map Kg.doc_name (seq 0 (a + length data)).
Proof.
  revert a l. induction data as [|chunk data IH]; intros a l Hfree Hdocs Hok.
  - simpl. now rewrite Nat.add_0_r.
  - simpl. destruct (chunk_nodes_order l a chunk) as [Hdocs' Hok'];
      [apply Hfree; now left|assumption..|].
    rewrite (IH (S a)); [f_equal; f_equal; lia| |assumption..].
    intros; apply Hfree; now right.
Qed.

Lemma nth_error_doc_names n i x :
  nth_error (map Kg.doc_name (seq 0 n)) i = Some x -> x = Kg.doc_name i.
Proof.
  intros H.
  assert (Hi : i < length (map Kg.doc_name (seq 0 n)))
    by (apply nth_error_Some; congruence).
  rewrite length_map, length_seq in Hi.
  apply (nth_error_nth _ _ (Kg.doc_name 0)) in H.
  rewrite map_nth, seq_nth in H by exact Hi. now subst.
Qed.

(** No call of the chunk loop joins two document names, when no entity is
    named like a document node. *)
Lemma chunk_calls_not_docs data i j c :
  (forall chunk, In chunk data -> Kg.no_collision pipeline chunk) ->
  In c (flat_map (Kg.chunk_edge_calls pipeline) (enumerate data)) ->
  Kg.call_joins (Kg.doc_name i) (Kg.doc_name j) c = false.
Proof.
  intros Hfree Hin. apply in_flat_map in Hin as [[k chunk] [Hk Hc]].
  apply in_combine_r in Hk. specialize (Hfree chunk Hk).
  unfold Kg.chunk_edge_calls in Hc. rewrite <- map_app in Hc.
  apply in_app_iff in Hc as [Hc|Hc]; apply in_map_iff in Hc.
  - destruct Hc as [e [<- He]]. unfold Kg.call_joins. simpl.
    pose proof (Hfree e i He). pose proof (Hfree e j He).
    string_cases.
  - destruct Hc as [[[s r] o] [<- Ht]].
    assert (Hs : In s (map fst (Kg.extract_key_entities pipeline
                                  (Kg.preprocess_text chunk)))).
    { apply in_app_iff in Ht as [Ht|Ht].
      - now apply extract_relations_endpoints in Ht.
      - now apply extract_family_relations_endpoints in Ht. }
    apply in_map_iff in Hs as [e [<- He]].
    unfold Kg.call_joins. simpl.
    pose proof (Hfree e i He). pose proof (Hfree e j He).
    string_cases.
Qed.

End DocumentOrder.

Section SimilarityEdges.
Import Py Nx.

Variable pipeline : string -> Spacy.Parse.
Variable pytorch_cos_sim : Kg.embedding -> Kg.embedding -> float.

Lemma lookup_edge_sym l u v : lookup_edge l u v = lookup_edge l v u.
Proof.
  induction l as [|e l IH]; simpl; [reflexivity|].
  now rewrite joins_sym, IH.
Qed.

(** The call of the similarity loops for the positions [i < j] of the
    document nodes [doc_0 .. doc_(n-1)] is the only one of the loops that
    joins [doc_i] and [doc_j]. *)
Lemma similarity_calls_joining embeddings n i j c :
  i < j ->
  In c (Kg.similarity_calls pytorch_cos_sim embeddings
          (map Kg.doc_name (seq 0 n))) ->
  Kg.call_joins (Kg.doc_name i) (Kg.doc_name j) c = true ->
  Kg.similarity_call pytorch_cos_sim embeddings
    ((i, Kg.doc_name i), (j, Kg.doc_name j)) = Some c.
Proof.
  intros Hij Hin J. unfold Kg.similarity_calls in Hin.
  apply list_elem_of_In, list_elem_of_omap in Hin
    as [[[i' n1] [j' n2]] [Hp Hc]].
  apply list_elem_of_In, pairs_enumerate_In in Hp as (Hij' & H1 & H2).
  apply nth_error_doc_names in H1, H2. subst n1 n2.
  assert (Heq : i' = i /\ j' = j).
  { unfold Kg.similarity_call in Hc.
    destruct (nth_error embeddings i'); [|discriminate].
    destruct (nth_error embeddings j'); [|discriminate].
    destruct (_ <? _)%float; [|discriminate].
    injection Hc as <-. unfold Kg.call_joins in J.
    cbn [Kg.call_u Kg.call_v] in J. rewrite joins_entry in J.
    rewrite orb_true_iff, !andb_true_iff, !String.eqb_eq in J.
    destruct J as [[Hi Hj]|[Hi Hj]]; apply doc_name_inj in Hi, Hj; lia. }
  destruct Heq as [-> ->]. exact Hc.
Qed.

(** C3, as the code has it: for chunks and embeddings of equal number, when
    no extracted entity is named like a document node, the graph is
    returned, and for positions [i < j] it has an edge between [doc_i] and
    [doc_j] exactly when the cosine computed for the embeddings [i] and [j]
    is above 0.7; the edge is then labelled 'similar' and its weight is that
    cosine. *)
Theorem similarity_edges
  (data : list string) (embeddings : list Kg.embedding) :
  length data = length embeddings ->
  (forall chunk, In chunk data -> Kg.no_collision pipeline chunk) ->
  exists G,
    Kg.create_networkx_graph pipeline pytorch_cos_sim data embeddings = Ok G /\
    forall i j a b,
      i < j ->
      nth_error embeddings i = Some a -> nth_error embeddings j = Some b ->
      edge_data G (Kg.doc_name i) (Kg.doc_name j)
      = (if (0.7 <? pytorch_cos_sim a b)%float
         then Some (mkEdge (Some "similar") (Some (pytorch_cos_sim a b)))
         else None) /\
      edge_data G (Kg.doc_name j) (Kg.doc_name i)
      = edge_data G (Kg.doc_name i) (Kg.doc_name j).
Proof.
  intros Hlen Hfree.
  destruct (create_networkx_graph_ok pipeline pytorch_cos_sim data embeddings)
    as [G HG]; [lia|].
  exists G. split; [exact HG|].
  destruct (create_networkx_graph_stores pipeline pytorch_cos_sim
              data embeddings G HG) as [_ He].
  intros i j a b Hij Ha Hb.
  split; [|apply lookup_edge_sym].
  unfold edge_data. rewrite He. unfold Kg.edge_calls.
  destruct (chunks_graph_nodes pipeline data) as (_ & Hdn & _).
  rewrite Hdn, fold_add_chunk_nodes.
  assert (Hdocs : Kg.document_names
                    (fold_left (Kg.chunk_nodes pipeline) (enumerate data)
                               (nodes empty))
                  = map Kg.doc_name (seq 0 (length data))).
  { unfold enumerate.
    rewrite (fold_chunk_nodes_order pipeline data 0); auto.
    intros n d []. }
  rewrite Hdocs.
  set (chunk_calls := flat_map (Kg.chunk_edge_calls pipeline) (enumerate data)).
  set (sims := Kg.similarity_calls pytorch_cos_sim embeddings
                 (map Kg.doc_name (seq 0 (length data)))).
  assert (Hchunks : Kg.last_call chunk_calls (Kg.doc_name i) (Kg.doc_name j)
                    = None).
  { apply last_call_None. intros c Hc.
    now apply (chunk_calls_not_docs pipeline data). }
  assert (Hcall : Kg.similarity_call pytorch_cos_sim embeddings
                    ((i, Kg.doc_name i), (j, Kg.doc_name j))
                  = if (0.7 <? pytorch_cos_sim a b)%float
                    then Some (Kg.mkCall (Kg.doc_name i) (Kg.doc_name j)
                                 "similar" (Some (pytorch_cos_sim a b)))
                    else None).
  { unfold Kg.similarity_call. now rewrite Ha, Hb. }
  destruct (0.7 <? pytorch_cos_sim a b)%float.
  - set (c := Kg.mkCall (Kg.doc_name i) (Kg.doc_name j) "similar"
                (Some (pytorch_cos_sim a b))) in *.
    assert (Hlast : Kg.last_call (chunk_calls ++ sims)
                      (Kg.doc_name i) (Kg.doc_name j) = Some c).
    { rewrite last_call_app.
      rewrite (last_call_only sims _ _ c); [reflexivity| | |].
      - apply list_elem_of_In, list_elem_of_omap.
        exists ((i, Kg.doc_name i), (j, Kg.doc_name j)).
        split; [|exact Hcall].
        apply list_elem_of_In, pairs_enumerate_In.
        assert (Hj : j < length data)
          by (rewrite Hlen; apply nth_error_Some; congruence).
        repeat split; [exact Hij| |];
          rewrite nth_error_map, nth_error_seq;
          match goal with |- context [Nat.ltb ?x ?y] =>
            destruct (Nat.ltb_spec x y); [reflexivity|lia] end.
      - unfold Kg.call_joins, c. simpl. now rewrite !String.eqb_refl.
      - intros c' Hc' J.
        pose proof (similarity_calls_joining embeddings _ i j c' Hij Hc' J)
          as Hc''.
        rewrite Hcall in Hc''. now injection Hc''. }
    destruct (lookup_fold_record_last _ [] _ _ c Hlast) as [d0 ->].
    reflexivity.
  - rewrite lookup_fold_record_none; [reflexivity|].
    rewrite last_call_app, Hchunks.
    destruct (Kg.last_call sims _ _) as [c'|] eqn:Hlast; [|reflexivity].
    apply last_call_In in Hlast as [Hc' J].
    pose proof (similarity_calls_joining embeddings _ i j c' Hij Hc' J) as Hc''.
    rewrite Hcall in Hc''. discriminate.
Qed.

End SimilarityEdges.

Section SimilaritySample.
Import Py Nx.

Lemma sample_no_collision chunk :
  In chunk [Examples.sister_text; "b"] ->
  Kg.no_collision Examples.pipeline chunk.
Proof.
  intros [<-|[<-|[]]] e k He; vm_compute in He.
  - destruct He as [<-|[<-|[]]]; discriminate.
  - destruct He.
Qed.

Lemma similarity_edges_witness :
  exists G,
    Kg.create_networkx_graph Examples.pipeline Examples.cosine
      [Examples.sister_text; "b"] [[1; 0]; [0.8; 0.6]]%float = Ok G /\
    forall i j a b,
      i < j ->
      nth_error [[1; 0]; [0.8; 0.6]]%float i = Some a ->
      nth_error [[1; 0]; [0.8; 0.6]]%float j = Some b ->
      edge_data G (Kg.doc_name i) (Kg.doc_name j)
      = (if (0.7 <? Examples.cosine a b)%float
         then Some (mkEdge (Some "similar") (Some (Examples.cosine a b)))
         else None) /\
      edge_data G (Kg.doc_name j) (Kg.doc_name i)
      = edge_data G (Kg.doc_name i) (Kg.doc_name j).
Proof.
  apply (similarity_edges Examples.pipeline Examples.cosine
           [Examples.sister_text; "b"] [[1; 0]; [0.8; 0.6]]%float).
  - reflexivity.
  - exact sample_no_collision.
Defined.

(** The similarity edge of the sample corpus. *)
Example similarity_edge_sample :
  exists G,
    Kg.create_networkx_graph Examples.pipeline Examples.cosine
      [Examples.sister_text; "b"] [[1; 0]; [0.8; 0.6]]%float = Ok G /\
    edge_data G "doc_0" "doc_1" = Some (mkEdge (Some "similar") (Some 0.8%float)).
Proof. eexists. split; vm_compute; reflexivity. Qed.

(** C3 as stated fails when an entity is named like a document node. The
    pipeline finds the product "doc_2" in the first of three chunks, so the
    node "doc_2" precedes "doc_1" among the document nodes and the loops
    pair the embeddings 0 and 1 with the nodes "doc_0" and "doc_2". The
    cosine of the embeddings 0 and 1 is above 0.7 and "doc_0" and "doc_1"
    are not joined; the cosine of the embeddings 0 and 2 is 0 and "doc_0"
    and "doc_2" are joined by a 'similar' edge of weight 0.8. *)
Lemma similarity_edges_misaligned :
  let data := [Examples.product_text; "b"; "c"] in
  let embeddings := [[1; 0]; [0.8; 0.6]; [0; 1]]%float in
  length data = length embeddings /\
  exists G,
    Kg.create_networkx_graph Examples.pipeline Examples.cosine data embeddings
    = Ok G /\
    (0.7 <? Examples.cosine [1; 0] [0.8; 0.6])%float = true /\
    edge_data G "doc_0" "doc_1" = None /\
    (0.7 <? Examples.cosine [1; 0] [0; 1])%float = false /\
    edge_data G "doc_0" "doc_2" = Some (mkEdge (Some "similar") (Some 0.8%float)).
Proof.
  split; [reflexivity|]. eexists. split; [vm_compute; reflexivity|].
  vm_compute. repeat split; reflexivity.
Qed.

End SimilaritySample.

(** ** Pruning, again *)

Section PruneFacts.
Import Nx.

Lemma float_lt_asym a b : (a <? b)%float = true -> (b <? a)%float = false.
Proof.
  rewrite !FloatAxioms.ltb_spec. unfold SFltb.
  destruct (SFcompare (Prim2SF a) (Prim2SF b)) as [c|] eqn:Hc; [|discriminate].
  rewrite (SFcompare_antisym _ _ _ Hc). destruct c; simpl; congruence.
Qed.

(** With nothing to remove the graph is returned as it is. *)
Lemma prune_graph_noop G t :
  (forall u v d w, In (u, v, d) (edges G) -> weight d = Some w ->
                   (w <? t)%float = false) ->
  Kg.prune_graph G t = G.
Proof.
  intros H. unfold Kg.prune_graph.
  match goal with |- remove_edges_from G ?l = G => assert (Hnil : l = []) end.
  { revert H. induction (edges G) as [|[[u v] d] l IH]; intros H;
      [reflexivity|].
    cbn [omap list_omap].
    rewrite IH by (intros; eapply H; [right|]; eassumption).
    destruct (weight d) as [w|] eqn:Hw; [|reflexivity].
    rewrite (H u v d w) by (auto using in_eq). reflexivity. }
  rewrite Hnil. reflexivity.
Qed.

(** X1: pruning a pruned graph again at the same weight changes nothing. *)
Theorem prune_graph_idempotent (G : Graph) (t : float) :
  Kg.prune_graph (Kg.prune_graph G t) t = Kg.prune_graph G t.
Proof.
  apply prune_graph_noop. intros u v d w Hin Hw.
  apply prune_graph_edges in Hin as [Hin Hall].
  specialize (Hall _ Hin). cbn [fst snd] in Hall. rewrite Hw in Hall.
  destruct (w <? t)%float; [|reflexivity].
  specialize (Hall eq_refl).
  rewrite joins_entry, !String.eqb_refl in Hall. discriminate.
Qed.

Lemma remove_edges_from_filter l G :
  edges (remove_edges_from G l)
  = List.filter
      (fun e => forallb (fun uv : string * string =>
                           negb (joins (fst uv) (snd uv) e)) l)
      (edges G).
Proof.
  unfold remove_edges_from. revert G.
  induction l as [|uv l IH]; intros G; simpl.
  - induction (edges G) as [|e r IHr]; simpl; [reflexivity|]. now f_equal.
  - rewrite IH. simpl. clear IH.
    induction (edges G) as [|e r IHr]; simpl; [reflexivity|].
    destruct (joins (fst uv) (snd uv) e); simpl; [exact IHr|].
    destruct (forallb _ l); [now f_equal|exact IHr].
Qed.

(** X2: in a graph with one edge per pair of endpoints, [prune_graph]
    removes the edges whose weight is below the minimum and no other: the
    edges that remain are the edges without weight and the edges whose weight
    is not below the minimum, in their order. *)
Theorem prune_graph_removes_only_light_edges (G : Graph) (t : float) :
  wf G ->
  edges (Kg.prune_graph G t)
  = List.filter
      (fun e : string * string * EdgeData =>
         match weight (snd e) with
         | Some w => negb (w <? t)%float
         | None => true
         end)
      (edges G).
Proof.
  intros Hwf. unfold Kg.prune_graph. rewrite remove_edges_from_filter.
  apply filter_ext_in. intros e He.
  match goal with |- forallb ?f ?l = _ => set (drop := l); set (p := f) end.
  destruct (weight (snd e)) as [w|] eqn:Hw.
  - destruct (w <? t)%float eqn:Hlt; simpl.
    + apply not_true_is_false. intros Hall.
      rewrite forallb_forall in Hall.
      specialize (Hall (fst e)). unfold p in Hall.
      rewrite joins_self in Hall.
      enough (In (fst e) drop) by (specialize (Hall H); discriminate).
      apply list_elem_of_In, list_elem_of_omap. exists e.
      rewrite list_elem_of_In. split; [exact He|].
      destruct e as [[u v] d]. simpl in *. now rewrite Hw, Hlt.
    + apply forallb_forall. intros [u v] Huv. unfold p. simpl.
      apply list_elem_of_In, list_elem_of_omap in Huv
        as [[[u' v'] d'] [Hin' Heq]].
      apply list_elem_of_In in Hin'.
      destruct (weight d') as [w'|] eqn:Hw'; [|discriminate].
      destruct (w' <? t)%float eqn:Hlt'; [|discriminate].
      injection Heq as <- <-.
      destruct (joins u' v' e) eqn:J; [|reflexivity].
      assert (Heq : (u', v', d') = e)
        by (apply (distinct_pairs_unique (edges G)); assumption).
      subst e. simpl in Hw. congruence.
  - apply forallb_forall. intros [u v] Huv. unfold p. simpl.
    apply list_elem_of_In, list_elem_of_omap in Huv
      as [[[u' v'] d'] [Hin' Heq]].
    apply list_elem_of_In in Hin'.
    destruct (weight d') as [w'|] eqn:Hw'; [|discriminate].
    destruct (w' <? t)%float eqn:Hlt'; [|discriminate].
    injection Heq as <- <-.
    destruct (joins u' v' e) eqn:J; [|reflexivity].
    assert (Heq : (u', v', d') = e)
      by (apply (distinct_pairs_unique (edges G)); assumption).
    subst e. simpl in Hw. congruence.
Qed.

Lemma prune_graph_removes_only_light_edges_witness :
  edges (Kg.prune_graph Examples.similar_graph 0.9)
  = List.filter
      (fun e : string * string * EdgeData =>
         match weight (snd e) with
         | Some w => negb (w <? 0.9)%float
         | None => true
         end)
      (edges Examples.similar_graph).
Proof.
  apply (prune_graph_removes_only_light_edges Examples.similar_graph 0.9).
  reflexivity.
Defined.

End PruneFacts.

(** ** The labels and weights of the constructed graph *)

Section BuiltEdges.
Import Py Nx.

Variable pipeline : string -> Spacy.Parse.
Variable pytorch_cos_sim : Kg.embedding -> Kg.embedding -> float.

Lemma family_keyword_nonempty k : In k Kg.FAMILY_RELATIONS -> k <> "".
Proof. intros H ->. revert H. rewrite <- in_list_In. vm_compute. discriminate. Qed.

Lemma extract_relations_label text key_entities s r o :
  In (s, r, o) (Kg.extract_relations pipeline text key_entities) -> r <> "".
Proof.
  unfold Kg.extract_relations. rewrite in_flat_map.
  intros [sent [_ Hin]]. unfold Kg.sentence_relations in Hin.
  apply list_elem_of_In, list_elem_of_omap in Hin as [[e1 e2] [_ Heq]].
  match type of Heq with (if ?c then _ else _) = _ =>
    destruct c eqn:Hne; [|discriminate] end.
  injection Heq as _ Hr _.
  assert (Hne' : nonempty r = true) by (rewrite <- Hr; exact Hne).
  intros ->. discriminate.
Qed.

Lemma extract_family_relations_label text s r o :
  In (s, r, o) (Kg.extract_family_relations pipeline text) ->
  In r Kg.FAMILY_RELATIONS \/ r = "child".
Proof.
  intros Hin.
  apply extract_family_relations_In in Hin as (a & k & b & Hfw & Hin).
  assert (Hk : In k Kg.FAMILY_RELATIONS)
    by (destruct Hfw as (sent & e1 & e2 & _ & _ & Hk & _); exact Hk).
  destruct Hin as [Heq|Hin].
  - injection Heq as _ -> _. now left.
  - apply reverse_relation_spec in Hin as [[_ Heq]|[[_ Heq]|[-> _]]].
    + injection Heq as _ -> _. now left.
    + injection Heq as _ -> _. now right.
    + now apply child_is_no_keyword in Hk.
Qed.

Lemma chunk_calls_labelled ic c :
  In c (Kg.chunk_edge_calls pipeline ic) ->
  Kg.call_weight c = None /\ Kg.call_relation c <> "".
Proof.
  destruct ic as [i chunk]. unfold Kg.chunk_edge_calls.
  rewrite !in_app_iff, !in_map_iff.
  intros [[e [<- _]]|[[[[s r] o] [<- Ht]]|[[[s r] o] [<- Ht]]]]; simpl.
  - split; [reflexivity|discriminate].
  - split; [reflexivity|]. eapply extract_relations_label, Ht.
  - split; [reflexivity|].
    apply extract_family_relations_label in Ht as [Hk| ->]; [|discriminate].
    now apply family_keyword_nonempty.
Qed.

Lemma similarity_calls_weighted embeddings doc_nodes c :
  In c (Kg.similarity_calls pytorch_cos_sim embeddings doc_nodes) ->
  Kg.call_relation c = "similar" /\
  exists w, Kg.call_weight c = Some w /\ (0.7 <? w)%float = true.
Proof.
  unfold Kg.similarity_calls. intros Hin.
  apply list_elem_of_In, list_elem_of_omap in Hin
    as [[[i n1] [j n2]] [_ Hc]].
  unfold Kg.similarity_call in Hc.
  destruct (nth_error embeddings i) as [a|]; [|discriminate].
  destruct (nth_error embeddings j) as [b|]; [|discriminate].
  destruct (0.7 <? pytorch_cos_sim a b)%float eqn:Hlt; [|discriminate].
  injection Hc as <-. simpl. eauto.
Qed.

Lemma lookup_edge_In l u v d :
  lookup_edge l u v = Some d ->
  exists a b, In (a, b, d) l /\ joins u v (a, b, d) = true.
Proof.
  induction l as [|[[a b] d'] l IH]; [discriminate|].
  cbn [lookup_edge]. destruct (joins u v (a, b, d')) eqn:J.
  - intros [= <-]. exists a, b. split; [now left|exact J].
  - intros H. destruct (IH H) as (a' & b' & Hin & J').
    exists a', b'. split; [now right|exact J'].
Qed.

(** The calls of the loop over the chunks leave labelled edges without
    weight. *)
Lemma fold_record_labelled calls l :
  (forall c, In c calls ->
             Kg.call_weight c = None /\ Kg.call_relation c <> "") ->
  (forall e, In e l -> weight (snd e) = None /\ Kg.built_edge (snd e)) ->
  forall e, In e (fold_left Kg.record_call calls l) ->
            weight (snd e) = None /\ Kg.built_edge (snd e).
Proof.
  revert l. induction calls as [|c calls IH]; intros l Hc Hl; [exact Hl|].
  cbn [fold_left]. apply IH; [intros; apply Hc; now right|].
  intros e He. apply update_edge_In in He as [He|[_ ->]]; [now apply Hl|].
  destruct (Hc c) as [Hw Hr]; [now left|].
  assert (Hold : weight (default no_edge_attrs
                           (lookup_edge l (Kg.call_u c) (Kg.call_v c)))
                 = None).
  { destruct (lookup_edge l _ _) as [d|] eqn:Hd; [|reflexivity].
    apply lookup_edge_In in Hd as (a & b & Hin & _).
    now destruct (Hl _ Hin). }
  unfold Kg.built_edge, Kg.call_attrs. cbn [weight relation].
  rewrite Hw, Hold. split; [reflexivity|]. eauto.
Qed.

(** The calls of the similarity loops leave edges of the constructed
    kind. *)
Lemma fold_record_weighted calls l :
  (forall c, In c calls ->
             Kg.call_relation c = "similar" /\
             exists w, Kg.call_weight c = Some w /\ (0.7 <? w)%float = true) ->
  (forall e, In e l -> Kg.built_edge (snd e)) ->
  forall e, In e (fold_left Kg.record_call calls l) -> Kg.built_edge (snd e).
Proof.
  revert l. induction calls as [|c calls IH]; intros l Hc Hl; [exact Hl|].
  cbn [fold_left]. apply IH; [intros; apply Hc; now right|].
  intros e He. apply update_edge_In in He as [He|[_ ->]]; [now apply Hl|].
  destruct (Hc c) as (Hr & w & Hw & Hlt); [now left|].
  unfold Kg.built_edge, Kg.call_attrs. cbn [weight relation].
  rewrite Hw, Hr. auto.
Qed.

Lemma create_networkx_graph_edges_built data embeddings G :
  Kg.create_networkx_graph pipeline pytorch_cos_sim data embeddings = Ok G ->
  forall e, In e (edges G) -> Kg.built_edge (snd e).
Proof.
  intros H.
  destruct (create_networkx_graph_stores pipeline pytorch_cos_sim
              data embeddings G H) as [_ He].
  rewrite He. unfold Kg.edge_calls. rewrite fold_left_app.
  apply fold_record_weighted.
  - destruct (Kg.document_nodes _) as [doc_nodes|e]; [|intros c []].
    apply similarity_calls_weighted.
  - intros e Hin. eapply fold_record_labelled, Hin; [|intros e' []].
    intros c Hc. apply in_flat_map in Hc as [ic [_ Hc]].
    eapply chunk_calls_labelled, Hc.
Qed.

(** X3: in a graph that [create_networkx_graph] returns, every edge carries
    a relation label; an edge with a weight is labelled 'similar' and its
    weight is above 0.7, and an edge without weight has a label that is not
    empty. The endpoints of every edge are nodes, and no pair of endpoints
    has two edges. *)
Theorem built_graph_edges
  (data : list string) (embeddings : list Kg.embedding) (G : Graph) :
  Kg.create_networkx_graph pipeline pytorch_cos_sim data embeddings = Ok G ->
  (forall u v d, In (u, v, d) (edges G) ->
     match weight d with
     | Some w => relation d = Some "similar" /\ (0.7 <? w)%float = true
     | None => exists r, relation d = Some r /\ r <> ""
     end) /\
  (forall u v d, In (u, v, d) (edges G) ->
                 has_node G u = true /\ has_node G v = true) /\
  (forall e1 e2, In e1 (edges G) -> In e2 (edges G) ->
                 joins (fst (fst e1)) (snd (fst e1)) e2 = true -> e1 = e2).
Proof.
  intros H.
  destruct (create_networkx_graph_invariants pipeline pytorch_cos_sim
              data embeddings G H) as (_ & Hclosed & Hwf).
  split; [|split].
  - intros u v d Hin.
    exact (create_networkx_graph_edges_built data embeddings G H _ Hin).
  - exact Hclosed.
  - intros e1 e2. now apply distinct_pairs_unique.
Qed.

(** X4: [create_knowledge_graph] returns the graph that
    [create_networkx_graph] constructed: the pruning at the default weight
    0.7 removes no edge of it, every weight being above 0.7. It returns
    null when the embeddings or the content could not be loaded, and an
    error of the construction is not caught. *)
Theorem create_knowledge_graph_prunes_nothing
  (embeddings : option (list Kg.embedding)) (content : option (list string)) :
  Kg.create_knowledge_graph pipeline pytorch_cos_sim embeddings content
  = match embeddings, content with
    | Some embeddings, Some content =>
        match Kg.create_networkx_graph pipeline pytorch_cos_sim
                content embeddings with
        | Ok G => Ok (Some G)
        | Raise e => Raise e
        end
    | _, _ => Ok None
    end.
Proof.
  unfold Kg.create_knowledge_graph.
  destruct embeddings as [embeddings|], content as [content|];
    try reflexivity.
  destruct (Kg.create_networkx_graph _ _ _ _) as [G|e] eqn:HG;
    [|reflexivity].
  simpl. do 2 f_equal. apply prune_graph_noop. intros u v d w Hin Hw.
  pose proof (create_networkx_graph_edges_built content embeddings G HG
                _ Hin) as Hb.
  unfold Kg.built_edge in Hb. simpl in Hb. rewrite Hw in Hb.
  destruct Hb as [_ Hlt]. now apply float_lt_asym.
Qed.

End BuiltEdges.

Section BuiltEdgesSample.
Import Py Nx.

Lemma built_graph_edges_witness :
  exists G,
    Kg.create_networkx_graph Examples.pipeline Examples.cosine
      [Examples.sister_text; "b"] [[1; 0]; [0.8; 0.6]]%float = Ok G /\
    (forall u v d, In (u, v, d) (edges G) ->
       match weight d with
       | Some w => relation d = Some "similar" /\ (0.7 <? w)%float = true
       | None => exists r, relation d = Some r /\ r <> ""
       end) /\
    (forall u v d, In (u, v, d) (edges G) ->
                   has_node G u = true /\ has_node G v = true) /\
    (forall e1 e2, In e1 (edges G) -> In e2 (edges G) ->
                   joins (fst (fst e1)) (snd (fst e1)) e2 = true -> e1 = e2).
Proof.
  destruct (Kg.create_networkx_graph Examples.pipeline Examples.cosine
              [Examples.sister_text; "b"] [[1; 0]; [0.8; 0.6]]%float)
    as [G|e] eqn:HG.
  - exists G. split; [reflexivity|].
    exact (built_graph_edges Examples.pipeline Examples.cosine
             [Examples.sister_text; "b"] [[1; 0]; [0.8; 0.6]]%float G HG).
  - vm_compute in HG. discriminate.
Defined.

End BuiltEdgesSample.

(** ** The nodes of the constructed graph, by chunk *)

Section BuiltNodes.
Import Py Nx.

Variable pipeline : string -> Spacy.Parse.
Variable pytorch_cos_sim : Kg.embedding -> Kg.embedding -> float.

Lemma chunk_nodes_lookup_other l j chunk n d :
  lookup_node l n = Some d -> n <> Kg.doc_name j ->
  lookup_node (Kg.chunk_nodes pipeline l (j, chunk)) n = Some d.
Proof.
  intros H Hne. unfold Kg.chunk_nodes. cbn [fst snd].
  apply fold_ensure_entity_lookup. rewrite lookup_update_node.
  destruct (String.eqb_spec (Kg.doc_name j) n); [congruence|exact H].
Qed.

Lemma chunk_nodes_lookup_doc l j chunk :
  exists d,
    lookup_node (Kg.chunk_nodes pipeline l (j, chunk)) (Kg.doc_name j) = Some d /\
    type d = Some "document" /\ text d = Some (Kg.preprocess_text chunk).
Proof.
  unfold Kg.chunk_nodes. cbn [fst snd]. eexists. split.
  - apply fold_ensure_entity_lookup.
    rewrite lookup_update_node, String.eqb_refl. reflexivity.
  - split; reflexivity.
Qed.

Lemma fold_chunk_nodes_lookup data a l n d :
  lookup_node l n = Some d -> (forall k, a <= k -> n <> Kg.doc_name k) ->
  lookup_node (fold_left (Kg.chunk_nodes pipeline)
                         (combine (seq a (length data)) data) l) n
  = Some d.
Proof.
  revert a l. induction data as [|c data IH]; intros a l H Hne; [exact H|].
  simpl. apply IH.
  - apply chunk_nodes_lookup_other; [exact H|]. apply Hne. lia.
  - intros k Hk. apply Hne. lia.
Qed.

Lemma fold_chunk_nodes_doc data a l i chunk :
  nth_error data i = Some chunk ->
  exists d,
    lookup_node (fold_left (Kg.chunk_nodes pipeline)
                           (combine (seq a (length data)) data) l)
                (Kg.doc_name (a + i)) = Some d /\
    type d = Some "document" /\ text d = Some (Kg.preprocess_text chunk).
Proof.
  revert a l i. induction data as [|c data IH]; intros a l i H;
    [destruct i; discriminate|].
  destruct i as [|i]; simpl in H.
  - injection H as ->. simpl.
    destruct (chunk_nodes_lookup_doc l a chunk) as (d & Hd & Hty & Htx).
    exists d. split; [|auto]. rewrite Nat.add_0_r.
    apply fold_chunk_nodes_lookup; [exact Hd|].
    intros k Hk Heq. apply doc_name_inj in Heq. lia.
  - simpl. replace (a + S i) with (S a + i) by lia. now apply IH.
Qed.

Lemma fold_chunk_nodes_In data a l n d :
  In (n, d) (fold_left (Kg.chunk_nodes pipeline)
                       (combine (seq a (length data)) data) l) ->
  In (n, d) l \/
  (exists i chunk,
     nth_error data i = Some chunk /\ n = Kg.doc_name (a + i) /\
     type d = Some "document" /\ text d = Some (Kg.preprocess_text chunk)) \/
  (exists chunk e,
     In chunk data /\
     In e (Kg.extract_key_entities pipeline (Kg.preprocess_text chunk)) /\
     n = fst e /\ d = Kg.entity_attrs (snd e) no_node_attrs).
Proof.
  revert a l. induction data as [|c data IH]; intros a l; simpl; [tauto|].
  intros H. apply IH in H as [H|[(i & chunk & Hi & -> & Hty & Htx)|
                                 (chunk & e & Hc & He & -> & ->)]].
  - apply chunk_nodes_In in H as [H|[[-> ->]|(e & He & -> & ->)]].
    + now left.
    + right. left. exists 0, c. rewrite Nat.add_0_r. repeat split.
    + right. right. exists c, e. repeat split; auto.
  - right. left. exists (S i), chunk.
    replace (a + S i) with (S a + i) by lia. repeat split; auto.
  - right. right. exists chunk, e. repeat split; auto.
Qed.

(** X5: a graph that [create_networkx_graph] returns has one node typed
    'document' per chunk: for the chunk at position [i] the node [doc_i],
    whose text is the chunk with its white space normalised. *)
Theorem document_node_per_chunk
  (data : list string) (embeddings : list Kg.embedding) (G : Graph) :
  Kg.create_networkx_graph pipeline pytorch_cos_sim data embeddings = Ok G ->
  length (Kg.document_names (nodes G)) = length data /\
  forall i chunk,
    nth_error data i = Some chunk ->
    exists d,
      node_data G (Kg.doc_name i) = Some d /\
      type d = Some "document" /\ text d = Some (Kg.preprocess_text chunk).
Proof.
  intros H.
  destruct (create_networkx_graph_stores pipeline pytorch_cos_sim
              data embeddings G H) as [Hn _].
  destruct (chunks_graph_nodes pipeline data) as (_ & _ & Hlen).
  split; [now rewrite Hn|].
  intros i chunk Hi. unfold node_data.
  rewrite Hn, fold_add_chunk_nodes.
  exact (fold_chunk_nodes_doc data 0 _ i chunk Hi).
Qed.

(** X6: a graph that [create_networkx_graph] returns has no node besides
    the document nodes of the chunks and the key entities extracted from
    them: a node is [doc_i] for a chunk at position [i], typed 'document'
    with the chunk's normalised text, or it is named by a key entity of a
    chunk and typed 'entity' with the label of that entity and no text. *)
Theorem built_graph_nodes
  (data : list string) (embeddings : list Kg.embedding) (G : Graph) :
  Kg.create_networkx_graph pipeline pytorch_cos_sim data embeddings = Ok G ->
  forall n d,
    In (n, d) (nodes G) ->
    (exists i chunk,
       nth_error data i = Some chunk /\ n = Kg.doc_name i /\
       type d = Some "document" /\ text d = Some (Kg.preprocess_text chunk)) \/
    (exists chunk label,
       In chunk data /\
       In (n, label)
          (Kg.extract_key_entities pipeline (Kg.preprocess_text chunk)) /\
       type d = Some "entity" /\ entity_type d = Some label /\ text d = None).
Proof.
  intros H n d Hin.
  destruct (create_networkx_graph_stores pipeline pytorch_cos_sim
              data embeddings G H) as [Hn _].
  rewrite Hn, fold_add_chunk_nodes in Hin.
  apply fold_chunk_nodes_In in Hin
    as [[]|[(i & chunk & Hi & -> & Hty & Htx)|(chunk & e & Hc & He & -> & ->)]].
  - left. exists i, chunk. auto.
  - right. exists chunk, (snd e). destruct e as [name label].
    repeat split; auto.
Qed.

Lemma fold_record_call_joined calls l c :
  In c calls ->
  exists d,
    lookup_edge (fold_left Kg.record_call calls l) (Kg.call_u c) (Kg.call_v c)
    = Some d.
Proof.
  intros Hin.
  destruct (Kg.last_call calls (Kg.call_u c) (Kg.call_v c)) as [c'|] eqn:Hlast.
  - destruct (lookup_fold_record_last calls l _ _ c' Hlast) as [d Hd]. eauto.
  - rewrite last_call_None in Hlast. specialize (Hlast c Hin).
    unfold Kg.call_joins in Hlast.
    rewrite joins_entry, !String.eqb_refl in Hlast. discriminate.
Qed.

(** The calls that join a document node and an entity, when no entity is
    named like a document node, are the 'contains' calls. *)
Lemma chunk_calls_contains data i name c :
  (forall chunk, In chunk data -> Kg.no_collision pipeline chunk) ->
  In c (flat_map (Kg.chunk_edge_calls pipeline) (enumerate data)) ->
  Kg.call_joins (Kg.doc_name i) name c = true ->
  Kg.call_relation c = "contains".
Proof.
  intros Hfree Hin J. apply in_flat_map in Hin as [[k chunk] [Hk Hc]].
  apply in_combine_r in Hk. specialize (Hfree chunk Hk).
  unfold Kg.chunk_edge_calls in Hc. rewrite <- map_app in Hc.
  apply in_app_iff in Hc as [Hc|Hc]; apply in_map_iff in Hc.
  - destruct Hc as [e [<- He]]. reflexivity.
  - destruct Hc as [[[s r] o] [<- Ht]]. exfalso.
    assert (Hends : In s (map fst (Kg.extract_key_entities pipeline
                                     (Kg.preprocess_text chunk))) /\
                    In o (map fst (Kg.extract_key_entities pipeline
                                     (Kg.preprocess_text chunk)))).
    { apply in_app_iff in Ht as [Ht|Ht].
      - now apply extract_relations_endpoints in Ht.
      - now apply extract_family_relations_endpoints in Ht. }
    destruct Hends as [Hs Ho].
    apply in_map_iff in Hs as [es [<- Hes]].
    apply in_map_iff in Ho as [eo [<- Heo]].
    pose proof (Hfree es i Hes). pose proof (Hfree eo i Heo).
    unfold Kg.call_joins in J. simpl in J. string_cases.
Qed.

(** X7: in a graph that [create_networkx_graph] returns, every key entity
    extracted from the chunk at position [i] is a node and is joined to the
    document node [doc_i]; when no entity is named like a document node,
    the edge is labelled 'contains' and has no weight. *)
Theorem entity_joined_to_document
  (data : list string) (embeddings : list Kg.embedding) (G : Graph)
  (i : nat) (chunk name label : string) :
  Kg.create_networkx_graph pipeline pytorch_cos_sim data embeddings = Ok G ->
  nth_error data i = Some chunk ->
  In (name, label)
     (Kg.extract_key_entities pipeline (Kg.preprocess_text chunk)) ->
  has_node G name = true /\
  exists d,
    edge_data G (Kg.doc_name i) name = Some d /\
    edge_data G name (Kg.doc_name i) = Some d /\
    ((forall c, In c data -> Kg.no_collision pipeline c) ->
     relation d = Some "contains" /\ weight d = None).
Proof.
  intros H Hi He.
  destruct (create_networkx_graph_stores pipeline pytorch_cos_sim
              data embeddings G H) as [_ Hedges].
  destruct (create_networkx_graph_invariants pipeline pytorch_cos_sim
              data embeddings G H) as (_ & Hclosed & _).
  set (c := Kg.mkCall (Kg.doc_name i) name "contains" None).
  set (calls := Kg.edge_calls pipeline pytorch_cos_sim data embeddings) in *.
  assert (Hc : In c (flat_map (Kg.chunk_edge_calls pipeline) (enumerate data))).
  { apply in_flat_map. exists (i, chunk). split.
    - apply enumerate_from_In. rewrite Nat.sub_0_r. split; [lia|exact Hi].
    - unfold Kg.chunk_edge_calls. apply in_app_iff. left.
      apply in_map_iff. exists (name, label). split; [reflexivity|exact He]. }
  assert (Hcalls : In c calls) by (apply in_app_iff; now left).
  destruct (fold_record_call_joined calls [] c Hcalls) as [d Hd].
  rewrite <- Hedges in Hd. cbn [Kg.call_u Kg.call_v c] in Hd.
  split.
  - apply lookup_edge_In in Hd as (a & b & Hin & J).
    destruct (Hclosed a b d Hin) as [Ha Hb].
    rewrite joins_entry, orb_true_iff, !andb_true_iff, !String.eqb_eq in J.
    destruct J as [[_ <-]|[<- _]]; assumption.
  - exists d. split; [exact Hd|]. split.
    { unfold edge_data. now rewrite lookup_edge_sym. }
    intros Hfree.
    assert (Hrel : relation d = Some "contains").
    { destruct (Kg.last_call calls (Kg.doc_name i) name) as [c'|] eqn:Hlast.
      - destruct (lookup_fold_record_last calls [] _ _ c' Hlast) as [d0 Hd0].
        rewrite <- Hedges in Hd0. unfold edge_data in Hd.
        rewrite Hd in Hd0. injection Hd0 as ->.
        apply last_call_In in Hlast as [Hin' J]. cbn [relation Kg.call_attrs].
        f_equal. unfold calls, Kg.edge_calls in Hin'.
        apply in_app_iff in Hin' as [Hin'|Hin'].
        + exact (chunk_calls_contains data i name c' Hfree Hin' J).
        + exfalso.
          destruct (chunks_graph_nodes pipeline data) as (_ & Hdn & _).
          rewrite Hdn, fold_add_chunk_nodes in Hin'.
          assert (Hdocs : Kg.document_names
                            (fold_left (Kg.chunk_nodes pipeline)
                                       (enumerate data) (nodes empty))
                          = map Kg.doc_name (seq 0 (length data))).
          { unfold enumerate.
            rewrite (fold_chunk_nodes_order pipeline data 0); auto.
            intros n' d' []. }
          rewrite Hdocs in Hin'. unfold Kg.similarity_calls in Hin'.
          apply list_elem_of_In, list_elem_of_omap in Hin'
            as [[[i' n1] [j' n2]] [Hp Hcall]].
          apply list_elem_of_In, pairs_enumerate_In in Hp as (_ & H1 & H2).
          apply nth_error_doc_names in H1, H2. subst n1 n2.
          unfold Kg.similarity_call in Hcall.
          destruct (nth_error embeddings i'); [|discriminate].
          destruct (nth_error embeddings j'); [|discriminate].
          destruct (_ <? _)%float; [|discriminate].
          injection Hcall as <-. unfold Kg.call_joins in J.
          cbn [Kg.call_u Kg.call_v] in J. rewrite joins_entry in J.
          apply nth_error_In in Hi.
          pose proof (Hfree chunk Hi (name, label) i' He) as N1.
          pose proof (Hfree chunk Hi (name, label) j' He) as N2.
          simpl in N1, N2.
          rewrite orb_true_iff, !andb_true_iff, !String.eqb_eq in J.
          destruct J as [[_ Hj]|[Hj _]]; congruence.
      - rewrite last_call_None in Hlast. specialize (Hlast c Hcalls).
        unfold Kg.call_joins, c in Hlast. simpl in Hlast.
        rewrite !String.eqb_refl in Hlast. discriminate. }
    split; [exact Hrel|].
    apply lookup_edge_In in Hd as (a & b & Hin & _).
    pose proof (create_networkx_graph_edges_built pipeline pytorch_cos_sim
                  data embeddings G H _ Hin) as Hb.
    unfold Kg.built_edge in Hb. simpl in Hb.
    destruct (weight d) as [w|]; [|reflexivity].
    destruct Hb as [Hsim _]. rewrite Hrel in Hsim. discriminate.
Qed.

End BuiltNodes.

Section BuiltNodesSample.
Import Py Nx.

Lemma document_node_per_chunk_witness :
  exists G,
    Kg.create_networkx_graph Examples.pipeline Examples.cosine
      [Examples.sister_text; "b"] [[1; 0]; [0.8; 0.6]]%float = Ok G /\
    length (Kg.document_names (nodes G)) = 2 /\
    forall i chunk,
      nth_error [Examples.sister_text; "b"] i = Some chunk ->
      exists d,
        node_data G (Kg.doc_name i) = Some d /\
        type d = Some "document" /\ text d = Some (Kg.preprocess_text chunk).
Proof.
  destruct (Kg.create_networkx_graph Examples.pipeline Examples.cosine
              [Examples.sister_text; "b"] [[1; 0]; [0.8; 0.6]]%float)
    as [G|e] eqn:HG.
  - exists G. split; [reflexivity|].
    exact (document_node_per_chunk Examples.pipeline Examples.cosine
             [Examples.sister_text; "b"] [[1; 0]; [0.8; 0.6]]%float G HG).
  - vm_compute in HG. discriminate.
Defined.

Lemma built_graph_nodes_witness :
  exists G,
    Kg.create_networkx_graph Examples.pipeline Examples.cosine
      [Examples.sister_text; "b"] [[1; 0]; [0.8; 0.6]]%float = Ok G /\
    forall n d,
      In (n, d) (nodes G) ->
      (exists i chunk,
         nth_error [Examples.sister_text; "b"] i = Some chunk /\
         n = Kg.doc_name i /\
         type d = Some "document" /\
         text d = Some (Kg.preprocess_text chunk)) \/
      (exists chunk label,
         In chunk [Examples.sister_text; "b"] /\
         In (n, label)
            (Kg.extract_key_entities Examples.pipeline
               (Kg.preprocess_text chunk)) /\
         type d = Some "entity" /\ entity_type d = Some label /\
         text d = None).
Proof.
  destruct (Kg.create_networkx_graph Examples.pipeline Examples.cosine
              [Examples.sister_text; "b"] [[1; 0]; [0.8; 0.6]]%float)
    as [G|e] eqn:HG.
  - exists G. split; [reflexivity|].
    exact (built_graph_nodes Examples.pipeline Examples.cosine
             [Examples.sister_text; "b"] [[1; 0]; [0.8; 0.6]]%float G HG).
  - vm_compute in HG. discriminate.
Defined.

Lemma entity_joined_to_document_witness :
  exists G,
    Kg.create_networkx_graph Examples.pipeline Examples.cosine
      [Examples.sister_text; "b"] [[1; 0]; [0.8; 0.6]]%float = Ok G /\
    has_node G "Mary" = true /\
    exists d,
      edge_data G (Kg.doc_name 0) "Mary" = Some d /\
      edge_data G "Mary" (Kg.doc_name 0) = Some d /\
      ((forall c, In c [Examples.sister_text; "b"] ->
                  Kg.no_collision Examples.pipeline c) ->
       relation d = Some "contains" /\ weight d = None).
Proof.
  destruct (Kg.create_networkx_graph Examples.pipeline Examples.cosine
              [Examples.sister_text; "b"] [[1; 0]; [0.8; 0.6]]%float)
    as [G|e] eqn:HG.
  - exists G. split; [reflexivity|].
    apply (entity_joined_to_document Examples.pipeline Examples.cosine
             [Examples.sister_text; "b"] [[1; 0]; [0.8; 0.6]]%float G
             0 Examples.sister_text "Mary" "PERSON" HG); [reflexivity|].
    vm_compute. auto.
  - vm_compute in HG. discriminate.
Defined.

End BuiltNodesSample.

(** ** White space *)

Section Runs.
Import Py.

Variable keep : ascii -> bool.

Lemma string_app_cons c (s t : string) : String c s +:+ t = String c (s +:+ t).
Proof. reflexivity. Qed.

Lemma string_app_nil_l (t : string) : "" +:+ t = t.
Proof. reflexivity. Qed.

Lemma string_app_nil_r (s : string) : s +:+ "" = s.
Proof.
  induction s as [|c s IH]; [reflexivity|].
  rewrite string_app_cons. now f_equal.
Qed.

(** Reading a run of kept characters extends the run being read. *)
Lemma runs_aux_word l rest acc :
  Forall (fun c => keep c = true) l ->
  runs_aux keep (String.string_of_list_ascii l +:+ rest) acc
  = runs_aux keep rest (rev l ++ acc).
Proof.
  revert acc. induction l as [|c l IH]; intros acc H; [reflexivity|].
  apply Forall_cons_iff in H as [Hc H].
  cbn [String.string_of_list_ascii]. rewrite string_app_cons.
  cbn [runs_aux]. rewrite Hc.
  rewrite IH by exact H. cbn [rev]. now rewrite <- app_assoc.
Qed.

(** Every run is a non-empty string of kept characters. *)
Lemma runs_aux_words s acc w :
  Forall (fun c => keep c = true) acc ->
  In w (runs_aux keep s acc) ->
  exists l, l <> [] /\ Forall (fun c => keep c = true) l /\
            w = String.string_of_list_ascii l.
Proof.
  assert (Hflush : forall a acc,
             Forall (fun c => keep c = true) (a :: acc) ->
             exists l, l <> [] /\ Forall (fun c => keep c = true) l /\
                       String.string_of_list_ascii (rev (a :: acc))
                       = String.string_of_list_ascii l).
  { intros a acc' H. exists (rev (a :: acc')). split; [|split].
    - simpl. intros E. apply app_eq_nil in E as [_ E]. discriminate.
    - now apply List.Forall_rev.
    - reflexivity. }
  revert acc. induction s as [|c s IH]; intros acc Hacc; cbn [runs_aux].
  - destruct acc as [|a acc]; [intros []|]. intros [<-|[]]. now apply Hflush.
  - destruct (keep c) eqn:Hc.
    + apply IH. now constructor.
    + destruct acc as [|a acc]; [apply IH; constructor|].
      intros [<-|Hin]; [now apply Hflush|].
      apply (IH [] (List.Forall_nil _) Hin).
Qed.

(** The runs of words joined by a character that is not kept are the
    words. *)
Lemma runs_join (sep : ascii) ws :
  keep sep = false ->
  (forall w, In w ws ->
             exists l, l <> [] /\ Forall (fun c => keep c = true) l /\
                       w = String.string_of_list_ascii l) ->
  runs keep (join (String sep EmptyString) ws) = ws.
Proof.
  intros Hsep. unfold runs.
  assert (Hrev : forall l : list ascii, l <> [] ->
            exists a acc, rev l ++ [] = a :: acc).
  { intros l Hl. destruct (rev l ++ []) as [|a acc] eqn:E; [|eauto].
    rewrite app_nil_r in E. apply (f_equal (@rev ascii)) in E.
    rewrite rev_involutive in E. contradiction. }
  induction ws as [|w ws IH]; intros Hws; [reflexivity|].
  destruct (Hws w) as (l & Hl & Hkeep & ->); [now left|].
  destruct (Hrev l Hl) as (a & acc & Hacc).
  assert (Hword : String.string_of_list_ascii (rev (a :: acc))
                  = String.string_of_list_ascii l).
  { rewrite <- Hacc, app_nil_r, rev_involutive. reflexivity. }
  destruct ws as [|w' ws].
  - cbn [join].
    rewrite <- (string_app_nil_r (String.string_of_list_ascii l)).
    rewrite runs_aux_word by exact Hkeep. rewrite Hacc.
    cbn [runs_aux]. now rewrite Hword, string_app_nil_r.
  - cbn [join]. rewrite runs_aux_word by exact Hkeep. rewrite Hacc.
    rewrite string_app_cons, string_app_nil_l.
    cbn [runs_aux]. rewrite Hsep, Hword. f_equal.
    apply IH. intros w Hw. apply Hws. now right.
Qed.

End Runs.

Section Preprocess.
Import Py.

(** X8: [preprocess_text] is idempotent, and it keeps the words of the
    text: splitting the normalised text at white space gives the words of
    the text. *)
Theorem preprocess_text_idempotent (text : string) :
  split (Kg.preprocess_text text) = split text /\
  Kg.preprocess_text (Kg.preprocess_text text) = Kg.preprocess_text text.
Proof.
  assert (H : split (Kg.preprocess_text text) = split text).
  { unfold Kg.preprocess_text, split.
    apply (runs_join (fun c => negb (is_space c)) " "%char);
      [reflexivity|].
    intros w Hw. eapply runs_aux_words, Hw. constructor. }
  split; [exact H|].
  unfold Kg.preprocess_text at 1. now rewrite H.
Qed.

End Preprocess.

(** ** The triples of the two extraction passes *)

Section Triples.
Import Py.

Variable pipeline : string -> Spacy.Parse.

Lemma flat_map_nil {A B : Type} (f : A -> list B) l :
  (forall x, In x l -> f x = []) -> flat_map f l = [].
Proof.
  induction l as [|x l IH]; intros H; simpl; [reflexivity|].
  rewrite (H x) by now left. apply IH. intros; apply H; now right.
Qed.

(** X9: the triples of [extract_relations] are exactly these: for a
    sentence of the text and two of the entity spans that lie within it,
    taken in their order, the texts of the two spans joined by the first
    keyword of the family vocabulary that occurs in the lowercased text of
    that sentence, when one does, and by the syntactic relation of the two
    spans otherwise, provided the relation is not empty. The entity spans
    are those found for the key entities given, so the subject and the
    object of a triple are names of key entities. *)
Theorem extract_relations_triples
  (text : string) (key_entities : list (string * string)) (s r o : string) :
  (In (s, r, o) (Kg.extract_relations pipeline text key_entities) <->
   exists sent entity1 entity2,
     In sent (Spacy.sents (Kg.nlp pipeline text)) /\
     In (entity1, entity2)
        (pairs (List.filter (Spacy.within sent)
                  (omap (Kg.entity_span (Kg.nlp pipeline text) text)
                        key_entities))) /\
     s = Spacy.span_text (Kg.nlp pipeline text) entity1 /\
     o = Spacy.span_text (Kg.nlp pipeline text) entity2 /\
     r = match List.find
                 (fun rel =>
                    contains rel
                      (lower (Spacy.span_text (Kg.nlp pipeline text) sent)))
                 Kg.FAMILY_RELATIONS with
         | Some k => k
         | None =>
             Kg.syntactic_relation (Kg.nlp pipeline text) entity1 entity2
         end /\
     r <> "") /\
  (In (s, r, o) (Kg.extract_relations pipeline text key_entities) ->
   In s (map fst key_entities) /\ In o (map fst key_entities)).
Proof.
  split; [|apply extract_relations_endpoints].
  unfold Kg.extract_relations. rewrite in_flat_map. split.
  - intros [sent [Hsent Hin]]. exists sent.
    unfold Kg.sentence_relations in Hin.
    apply list_elem_of_In, list_elem_of_omap in Hin as [[e1 e2] [Hpair Heq]].
    apply list_elem_of_In in Hpair. exists e1, e2.
    split; [exact Hsent|]. split; [exact Hpair|].
    revert Heq.
    destruct (List.find _ Kg.FAMILY_RELATIONS) as [k|] eqn:Hfind.
    + pose proof Hfind as Hk. apply find_some in Hk as [Hk _].
      pose proof (family_keyword_nonempty k Hk) as Hne.
      assert (Hne' : nonempty k = true) by now destruct k.
      rewrite Hne'. cbv beta iota. rewrite Hne'.
      intros [= <- <- <-]. auto.
    + destruct (nonempty _) eqn:Hne; [|discriminate].
      intros [= <- <- <-]. repeat split; try reflexivity.
      intros E. rewrite E in Hne. discriminate.
  - intros (sent & e1 & e2 & Hsent & Hpair & -> & -> & Hr & Hne).
    exists sent. split; [exact Hsent|].
    unfold Kg.sentence_relations.
    apply list_elem_of_In, list_elem_of_omap. exists (e1, e2).
    split; [now apply list_elem_of_In|].
    cbv beta iota.
    destruct (List.find _ Kg.FAMILY_RELATIONS) as [k|] eqn:Hfind.
    + subst r. assert (Hne' : nonempty k = true) by now destruct k.
      rewrite Hne'. cbv beta iota. rewrite Hne'. reflexivity.
    + subst r.
      assert (Hne' : nonempty (Kg.syntactic_relation (Kg.nlp pipeline text)
                                 e1 e2) = true)
        by (destruct (Kg.syntactic_relation _ e1 e2); [contradiction|reflexivity]).
      rewrite Hne'. reflexivity.
Qed.

(** X10: every triple of [extract_family_relations] relates the names of
    two entities labelled PERSON by a keyword of the family vocabulary or by
    "child"; and the pass emits nothing for a text none of whose sentences
    contains a keyword, or none of whose sentences has two persons. *)
Theorem extract_family_relations_triples (text : string) :
  let doc := Kg.nlp pipeline text in
  let out := Kg.extract_family_relations pipeline text in
  (forall s r o,
      In (s, r, o) out ->
      (In r Kg.FAMILY_RELATIONS \/ r = "child") /\
      (exists ent, In ent (Spacy.ents doc) /\ Spacy.label_ ent = "PERSON" /\
                   s = Spacy.span_text doc ent) /\
      (exists ent, In ent (Spacy.ents doc) /\ Spacy.label_ ent = "PERSON" /\
                   o = Spacy.span_text doc ent)) /\
  ((forall sent k,
       In sent (Spacy.sents doc) -> In k Kg.FAMILY_RELATIONS ->
       contains k (lower (Spacy.span_text doc sent)) = false) ->
   out = []) /\
  ((forall sent, In sent (Spacy.sents doc) ->
                 length (Kg.sentence_persons doc sent) <= 1) ->
   out = []).
Proof.
  cbv zeta. split; [|split].
  - intros s r o Hin.
    split; [eapply extract_family_relations_label, Hin|].
    apply extract_family_relations_In in Hin as (a & k & b & Hfw & Hin).
    destruct Hfw as (sent & e1 & e2 & _ & Hpair & _ & _ & -> & ->).
    apply pairs_In in Hpair as [H1 H2].
    assert (Hperson : forall ent,
               In ent (Kg.sentence_persons (Kg.nlp pipeline text) sent) ->
               In ent (Spacy.ents (Kg.nlp pipeline text)) /\
               Spacy.label_ ent = "PERSON").
    { intros ent. unfold Kg.sentence_persons, Spacy.span_ents.
      rewrite !filter_In, String.eqb_eq. tauto. }
    apply Hperson in H1 as [H1 L1]. apply Hperson in H2 as [H2 L2].
    destruct Hin as [Heq|Hin].
    + injection Heq as -> _ ->. split; eauto.
    + apply reverse_relation_spec in Hin as [[_ Heq]|[[_ Heq]|[_ Heq]]];
        injection Heq as -> _ ->; split; eauto.
  - intros Hnone. unfold Kg.extract_family_relations.
    apply flat_map_nil. intros sent Hsent.
    unfold Kg.sentence_family_relations.
    apply flat_map_nil. intros [e1 e2] _.
    apply flat_map_nil. intros k Hk. now rewrite (Hnone sent k Hsent Hk).
  - intros Hfew. unfold Kg.extract_family_relations.
    apply flat_map_nil. intros sent Hsent.
    unfold Kg.sentence_family_relations. specialize (Hfew sent Hsent).
    destruct (Kg.sentence_persons _ sent) as [|p [|q l]]; simpl in *;
      [reflexivity..|lia].
Qed.

End Triples.

Section TriplesSample.
Import Py.

Lemma extract_relations_triples_witness :
  In ("John", "meet", "Mary")
     (Kg.extract_relations Examples.pipeline Examples.brother_text
        (Kg.extract_key_entities Examples.pipeline Examples.brother_text)) /\
  ~ In ("John", "brother", "Mary")
       (Kg.extract_relations Examples.pipeline Examples.brother_text
          (Kg.extract_key_entities Examples.pipeline Examples.brother_text)).
Proof.
  split.
  - apply (proj1 (extract_relations_triples Examples.pipeline
                    Examples.brother_text
                    (Kg.extract_key_entities Examples.pipeline
                       Examples.brother_text)
                    "John" "meet" "Mary")).
    exists (Spacy.mkSpan 0 4 0 14 ""),
           (Spacy.mkSpan 0 1 0 4 ""), (Spacy.mkSpan 2 3 9 13 "").
    vm_compute. repeat split; auto. discriminate.
  - vm_compute. intuition discriminate.
Defined.

End TriplesSample.

(** ** What the strategies return *)

Section Results.
Import Py Search.

Lemma contents_at_In db_content top_indices r x :
  contents_at db_content top_indices = Ok r -> In x r ->
  exists c, In c db_content /\ x = strip c.
Proof.
  intros H Hx. apply (comprehension_In _ _ _ x H) in Hx as [i [_ Hf]].
  unfold index in Hf.
  destruct (nth_error db_content i) as [c|] eqn:Hc; simpl in Hf;
    [|discriminate].
  injection Hf as <-. exists c. split; [|reflexivity].
  eapply nth_error_In, Hc.
Qed.

(** An index outside the content makes the comprehension raise. *)
Lemma contents_at_index_error db_content top_indices i :
  In i top_indices -> length db_content <= i ->
  contents_at db_content top_indices = Raise IndexError.
Proof.
  unfold contents_at. intros Hi Hlen.
  induction top_indices as [|j l IH]; [destruct Hi|].
  cbn [comprehension].
  destruct (index db_content j) as [c|e] eqn:Hc.
  - simpl. destruct Hi as [->|Hi].
    + unfold index in Hc. apply nth_error_None in Hlen.
      rewrite Hlen in Hc. discriminate.
    + rewrite (IH Hi). reflexivity.
  - unfold index in Hc.
    destruct (nth_error db_content j); [discriminate|].
    injection Hc as <-. reflexivity.
Qed.

Lemma skipn_incl {A : Type} n (l : list A) x : In x (skipn n l) -> In x l.
Proof.
  intros H. rewrite <- (firstn_skipn n l). apply in_or_app. now right.
Qed.

Lemma slice_from_incl {A : Type} (k : Z) (l : list A) x :
  In x (slice_from k l) -> In x l.
Proof. unfold slice_from. destruct (0 <=? k)%Z; apply skipn_incl. Qed.

Lemma map_fst_enumerate_from {A : Type} a (l : list A) :
  map fst (combine (seq a (length l)) l) = seq a (length l).
Proof.
  revert a. induction l as [|x l IH]; intros a; simpl; [reflexivity|].
  now rewrite IH.
Qed.

Lemma argsort_perm scores :
  Permutation (argsort scores) (seq 0 (length scores)).
Proof.
  unfold argsort. rewrite <- (map_fst_enumerate_from 0 scores).
  apply Permutation_map, sorted_perm.
Qed.

Lemma rank_length scores : length (rank scores) = length scores.
Proof.
  rewrite (Permutation_length (rank_perm scores)). apply List.length_seq.
Qed.

Lemma insert_desc_sorted {A : Type} (key : A -> nat) x l :
  StronglySorted (fun a b => key b <= key a) l ->
  StronglySorted (fun a b => key b <= key a) (insert_desc Nat.ltb key x l).
Proof.
  induction l as [|y r IH]; simpl; intros Hs; [repeat constructor|].
  apply StronglySorted_inv in Hs as [Hr Hy].
  destruct (Nat.ltb_spec (key x) (key y)) as [Hk|Hk].
  - constructor; [now apply IH|].
    apply List.Forall_forall. intros z Hz.
    apply (Permutation_in _ (insert_desc_perm Nat.ltb key x r)) in Hz.
    destruct Hz as [<-|Hz]; [lia|].
    exact (proj1 (List.Forall_forall _ _) Hy z Hz).
  - constructor; [now constructor|].
    constructor; [lia|].
    revert Hy. apply List.Forall_impl. intros z Hz. lia.
Qed.

Lemma sorted_reverse_sorted {A : Type} (key : A -> nat) l :
  StronglySorted (fun a b => key b <= key a) (sorted_reverse Nat.ltb key l).
Proof.
  induction l as [|x l IH]; simpl; [constructor|].
  now apply insert_desc_sorted.
Qed.

Lemma StronglySorted_firstn {A : Type} (R : A -> A -> Prop) n l :
  StronglySorted R l -> StronglySorted R (firstn n l).
Proof.
  revert n. induction l as [|x l IH]; intros [|n] H; simpl; try constructor.
  - apply StronglySorted_inv in H as [H _]. now apply IH.
  - apply StronglySorted_inv in H as [_ H].
    apply List.Forall_forall. intros z Hz. apply firstn_incl in Hz.
    exact (proj1 (List.Forall_forall _ _) H z Hz).
Qed.

Lemma omap_length_le {A B : Type} (f : A -> option B) l :
  length (omap f l) <= length l.
Proof.
  induction l as [|x l IH]; [reflexivity|].
  cbn [omap list_omap]. destruct (f x); simpl; lia.
Qed.

Variable settings : Settings.
Variable self : SearchUtils.

Lemma lexical_search_value query :
  enable_lexical_search settings = true ->
  lexical_search settings self query
  = Ok (map (fun i => strip (nth i (db_content self) ""))
            (slice_to (top_k settings)
               (rank (map (overlap (word_set query)) (db_content self))))).
Proof.
  intros Hen. unfold lexical_search. rewrite Hen. simpl.
  apply contents_at_ok. intros i Hi.
  apply slice_to_incl, rank_bound in Hi. now rewrite length_map in Hi.
Qed.

Lemma lexical_search_total query :
  exists r, lexical_search settings self query = Ok r.
Proof.
  destruct (enable_lexical_search settings) eqn:Hen.
  - rewrite (lexical_search_value query Hen). eauto.
  - unfold lexical_search. rewrite Hen. simpl. eauto.
Qed.

(** X11: [lexical_search] never raises. With a non-negative [top_k] it
    returns as many passages as [top_k] allows and the content holds,
    whatever the query: a passage that shares no word with the query is
    ranked last, not left out. *)
Theorem lexical_search_returns_top_k (query : string) :
  exists r,
    lexical_search settings self query = Ok r /\
    (enable_lexical_search settings = false -> r = []) /\
    (enable_lexical_search settings = true -> (0 <= top_k settings)%Z ->
     length r = Nat.min (Z.to_nat (top_k settings))
                        (length (db_content self))).
Proof.
  destruct (enable_lexical_search settings) eqn:Hen.
  - rewrite (lexical_search_value query Hen). eexists.
    split; [reflexivity|]. split; [discriminate|].
    intros _ Hk. rewrite length_map. unfold slice_to.
    destruct (Z.leb_spec 0 (top_k settings)); [|lia].
    now rewrite length_firstn, rank_length, length_map.
  - exists []. unfold lexical_search. rewrite Hen.
    split; [reflexivity|]. split; [reflexivity|discriminate].
Qed.

(** X12: the three strategies over the content return nothing but passages
    of the content, stripped of the white space around them. *)
Theorem search_results_are_passages (query : string) :
  (forall r x, lexical_search settings self query = Ok r -> In x r ->
               exists c, In c (db_content self) /\ x = strip c) /\
  (forall r x, semantic_search settings self query = Ok r -> In x r ->
               exists c, In c (db_content self) /\ x = strip c) /\
  (forall x, In x (text_search settings self query) ->
             exists c, In c (db_content self) /\ x = strip c).
Proof.
  split; [|split].
  - intros r x. unfold lexical_search.
    destruct (enable_lexical_search settings); simpl.
    + apply contents_at_In.
    + intros [= <-] [].
  - intros r x. unfold semantic_search.
    destruct (enable_semantic_search settings); simpl;
      [|intros [= <-] []].
    destruct (model self) as [encode|].
    + destruct (dot_flatten _ _) as [cos_scores|e]; simpl; [|discriminate].
      apply contents_at_In.
    + simpl. apply contents_at_In.
  - intros x. unfold text_search.
    destruct (enable_text_search settings); simpl; [|intros []].
    intros Hx. apply slice_to_incl, sorted_reverse_In in Hx.
    apply list_elem_of_In, list_elem_of_omap in Hx as [c [Hc Hx]].
    apply list_elem_of_In in Hc.
    destruct (existsb _ _); [|discriminate].
    injection Hx as <-. eauto.
Qed.

(** X13: with a model that has [encode], a positive [top_k] and scores for
    the rows of the embeddings, [semantic_search] returns as many passages
    as [top_k] allows and there are rows, when the content has a passage
    for every row; when the content is shorter than the embeddings and
    [top_k] covers every row, the look-up of a passage raises
    [IndexError]. *)
Theorem semantic_search_encode
  (query : string) (encode : string -> list float) (cos_scores : list float) :
  enable_semantic_search settings = true ->
  model self = Some encode ->
  dot_flatten (db_embeddings self) (encode query) = Ok cos_scores ->
  (0 < top_k settings)%Z ->
  (length cos_scores <= length (db_content self) ->
   exists r,
     semantic_search settings self query = Ok r /\
     length r = Nat.min (Z.to_nat (top_k settings)) (length cos_scores)) /\
  (length (db_content self) < length cos_scores ->
   (Z.of_nat (length cos_scores) <= top_k settings)%Z ->
   semantic_search settings self query = Raise IndexError).
Proof.
  intros Hen Hmodel Hdot Hk. unfold semantic_search.
  rewrite Hen, Hmodel, Hdot. simpl.
  assert (Hlen : length (slice_from (- top_k settings) (argsort cos_scores))
                 = Nat.min (Z.to_nat (top_k settings)) (length cos_scores)).
  { unfold slice_from. destruct (Z.leb_spec 0 (- top_k settings)); [lia|].
    rewrite length_skipn, Z.opp_involutive.
    rewrite (Permutation_length (argsort_perm cos_scores)), List.length_seq.
    lia. }
  split.
  - intros Hrows. rewrite contents_at_ok.
    + eexists. split; [reflexivity|].
      now rewrite length_map, length_rev.
    + intros i Hi. apply in_rev, slice_from_incl in Hi.
      apply (Permutation_in _ (argsort_perm cos_scores)), in_seq in Hi. lia.
  - intros Hshort Hall.
    apply (contents_at_index_error _ _ (length cos_scores - 1)); [|lia].
    apply in_rev. rewrite rev_involutive.
    unfold slice_from. destruct (Z.leb_spec 0 (- top_k settings)); [lia|].
    replace (length (argsort cos_scores) - Z.to_nat (- - top_k settings))
      with 0%nat
      by (rewrite (Permutation_length (argsort_perm cos_scores)),
            List.length_seq; lia).
    simpl. apply (Permutation_in _ (Permutation_sym (argsort_perm cos_scores))).
    apply in_seq. lia.
Qed.

(** X14: a query whose embedding has not the width of the stored
    embeddings aborts the retrieval: with semantic search enabled and
    non-empty stores, [get_relevant_context] raises the [ValueError] of the
    product, whatever the other strategies would have returned. *)
Theorem get_relevant_context_dimension_mismatch
  (user_input : string) (conversation_context : list string)
  (encode : string -> list float) (rows : list (list float)) (ncols : nat) :
  enable_semantic_search settings = true ->
  model self = Some encode ->
  db_embeddings self = Mat rows ncols ->
  rows <> [] -> ncols <> 0%nat -> db_content self <> [] ->
  ncols <> length (encode (join " " (conversation_context ++ [user_input]))) ->
  semantic_search settings self
    (join " " (conversation_context ++ [user_input])) = Raise ValueError /\
  get_relevant_context settings self user_input conversation_context
  = Raise ValueError.
Proof.
  intros Hen Hmodel Hdb Hrows Hcols Hcontent Hwidth.
  set (q := join " " (conversation_context ++ [user_input])) in *.
  assert (Hsem : semantic_search settings self q = Raise ValueError).
  { unfold semantic_search. rewrite Hen, Hmodel, Hdb. simpl.
    destruct (Nat.eqb_spec ncols (length (encode q))); [contradiction|].
    reflexivity. }
  split; [exact Hsem|].
  unfold get_relevant_context. fold q. rewrite Hdb. simpl.
  destruct (Nat.eqb_spec (length rows * ncols) 0) as [Hz|_].
  { destruct rows; [contradiction|]. simpl in Hz. lia. }
  destruct (Nat.eqb_spec (length (db_content self)) 0) as [Hz|_].
  { destruct (db_content self); [contradiction|discriminate]. }
  simpl.
  destruct (lexical_search_total q) as [r Hr].
  rewrite Hr. simpl. rewrite Hsem. reflexivity.
Qed.

(** X15: every passage [text_search] returns contains a term of the
    query, case ignored; the passages come in descending order of the
    number of query terms they contain; and when [top_k] covers the content,
    every passage that contains a term of the query is returned. A query
    without terms returns nothing. *)
Theorem text_search_matches (query : string) :
  (forall x, In x (text_search settings self query) ->
             exists term, In term (split (lower query)) /\
                          contains term (lower x) = true) /\
  StronglySorted
    (fun x y => matches (split (lower query)) y
                <= matches (split (lower query)) x)
    (text_search settings self query) /\
  (enable_text_search settings = true ->
   (Z.of_nat (length (db_content self)) <= top_k settings)%Z ->
   forall c term,
     In c (db_content self) -> In term (split (lower query)) ->
     contains term (lower (strip c)) = true ->
     In (strip c) (text_search settings self query)) /\
  (split (lower query) = [] -> text_search settings self query = []).
Proof.
  assert (Hterm : forall x, In x (text_search settings self query) ->
                            exists term, In term (split (lower query)) /\
                                         contains term (lower x) = true).
  { intros x. unfold text_search.
    destruct (enable_text_search settings); simpl; [|intros []].
    intros Hx. apply slice_to_incl, sorted_reverse_In in Hx.
    apply list_elem_of_In, list_elem_of_omap in Hx as [c [_ Hx]].
    destruct (existsb _ _) eqn:He; [|discriminate].
    injection Hx as <-. apply existsb_exists in He. exact He. }
  split; [exact Hterm|]. split; [|split].
  - unfold text_search.
    destruct (enable_text_search settings); simpl; [|constructor].
    unfold slice_to. destruct (0 <=? top_k settings)%Z;
      apply StronglySorted_firstn, sorted_reverse_sorted.
  - intros Hen Hk c term Hc Hterm' Hcontains. unfold text_search.
    rewrite Hen. simpl. rewrite slice_to_all.
    + apply sorted_reverse_In, list_elem_of_In, list_elem_of_omap.
      exists c. split; [now apply list_elem_of_In|].
      replace (existsb _ _) with true; [reflexivity|].
      symmetry. apply existsb_exists. eauto.
    + rewrite sorted_reverse_length.
      match goal with |- (Z.of_nat (length (omap ?f ?l)) <= _)%Z =>
        pose proof (omap_length_le f l) end.
      lia.
  - intros Hnil.
    destruct (text_search settings self query) as [|x r] eqn:Hr;
      [reflexivity|].
    destruct (Hterm x) as [term [Hin _]]; [now left|].
    rewrite Hnil in Hin. destruct Hin.
Qed.

(** X16: with a non-negative [top_k], no strategy returns more than
    [top_k] results, [semantic_search] with a model that has [encode]
    excepted, for which the bound holds when [top_k] is positive. *)
Theorem results_at_most_top_k (query : string) :
  (0 <= top_k settings)%Z ->
  (exists r, lexical_search settings self query = Ok r /\
             (Z.of_nat (length r) <= top_k settings)%Z) /\
  (Z.of_nat (length (text_search settings self query)) <= top_k settings)%Z /\
  (forall r, get_graph_context settings self query = Ok r ->
             (Z.of_nat (length r) <= top_k settings)%Z) /\
  (forall r, model self = None ->
             semantic_search settings self query = Ok r ->
             (Z.of_nat (length r) <= top_k settings)%Z) /\
  (forall r, (0 < top_k settings)%Z ->
             semantic_search settings self query = Ok r ->
             (Z.of_nat (length r) <= top_k settings)%Z).
Proof.
  intros Hk. split; [|split; [|split; [|split]]].
  - now apply lexical_search_top_k.
  - now apply text_search_top_k.
  - intros r. now apply get_graph_context_top_k.
  - intros r. now apply semantic_search_fallback_top_k.
  - intros r Hpos. now apply semantic_search_encode_top_k.
Qed.

End Results.

Section ResultsSample.
Import Py Search.

Lemma semantic_search_encode_witness :
  (length [1; 0; 0.5]%float <= length (db_content Examples.small_retriever) ->
   exists r,
     semantic_search Examples.top2_settings Examples.small_retriever "a"
     = Ok r /\
     length r = Nat.min (Z.to_nat (top_k Examples.top2_settings))
                        (length [1; 0; 0.5]%float)) /\
  (length (db_content Examples.small_retriever) < length [1; 0; 0.5]%float ->
   (Z.of_nat (length [1; 0; 0.5]%float) <= top_k Examples.top2_settings)%Z ->
   semantic_search Examples.top2_settings Examples.small_retriever "a"
   = Raise IndexError).
Proof.
  apply (semantic_search_encode Examples.top2_settings
           Examples.small_retriever "a" (fun _ => [1; 0]%float)
           [1; 0; 0.5]%float); reflexivity.
Defined.

Lemma get_relevant_context_dimension_mismatch_witness :
  semantic_search Examples.default_settings
    (mkSearchUtils (Some (fun _ => [1; 0; 0]%float))
                   (Mat [[1; 0]]%float 2) ["a"] Nx.empty)
    (join " " (["Hello"] ++ ["Who is Mary?"])) = Raise ValueError /\
  get_relevant_context Examples.default_settings
    (mkSearchUtils (Some (fun _ => [1; 0; 0]%float))
                   (Mat [[1; 0]]%float 2) ["a"] Nx.empty)
    "Who is Mary?" ["Hello"]
  = Raise ValueError.
Proof.
  apply (get_relevant_context_dimension_mismatch Examples.default_settings
           (mkSearchUtils (Some (fun _ => [1; 0; 0]%float))
                          (Mat [[1; 0]]%float 2) ["a"] Nx.empty)
           "Who is Mary?" ["Hello"] (fun _ => [1; 0; 0]%float)
           [[1; 0]]%float 2);
    try reflexivity; discriminate.
Defined.

Lemma results_at_most_top_k_witness :
  (exists r, lexical_search Examples.top2_settings Examples.small_retriever
               "a c" = Ok r /\
             (Z.of_nat (length r) <= top_k Examples.top2_settings)%Z) /\
  (Z.of_nat (length (text_search Examples.top2_settings
                       Examples.small_retriever "a c"))
   <= top_k Examples.top2_settings)%Z /\
  (forall r, get_graph_context Examples.top2_settings
               Examples.small_retriever "a c" = Ok r ->
             (Z.of_nat (length r) <= top_k Examples.top2_settings)%Z) /\
  (forall r, model Examples.small_retriever = None ->
             semantic_search Examples.top2_settings Examples.small_retriever
               "a c" = Ok r ->
             (Z.of_nat (length r) <= top_k Examples.top2_settings)%Z) /\
  (forall r, (0 < top_k Examples.top2_settings)%Z ->
             semantic_search Examples.top2_settings Examples.small_retriever
               "a c" = Ok r ->
             (Z.of_nat (length r) <= top_k Examples.top2_settings)%Z).
Proof.
  apply (results_at_most_top_k Examples.top2_settings
           Examples.small_retriever "a c").
  vm_compute. discriminate.
Defined.

End ResultsSample.

(** ** Graph context: errors and results *)

Section Raising.
Import Py.

Context {A B : Type}.

Lemma comprehension_raise (f : A -> result (option B)) l e :
  comprehension f l = Raise e -> exists x, In x l /\ f x = Raise e.
Proof.
  induction l as [|x l IH]; simpl; [discriminate|].
  destruct (f x) as [y|e'] eqn:Hf; simpl.
  - destruct (comprehension f l) as [ys|e'']; simpl; [discriminate|].
    intros [= ->]. destruct IH as [x' [Hin Hx']]; [reflexivity|]. eauto.
  - intros [= ->]. eauto.
Qed.

(** A comprehension whose element expression raises one exception only
    raises it when the expression raises for an element. *)
Lemma comprehension_raises (f : A -> result (option B)) l e x :
  In x l -> f x = Raise e ->
  (forall x' e', In x' l -> f x' = Raise e' -> e' = e) ->
  comprehension f l = Raise e.
Proof.
  intros Hin Hx Hall.
  destruct (comprehension f l) as [ys|e'] eqn:Hc.
  - exfalso. clear Hall. revert ys Hc.
    induction l as [|x' l IH]; intros ys; [destruct Hin|].
    simpl. destruct (f x') as [y|e'] eqn:Hf; simpl; [|discriminate].
    destruct (comprehension f l) as [ys'|e'] eqn:Hc'; simpl; [|discriminate].
    intros _. destruct Hin as [->|Hin]; [congruence|].
    now apply (IH Hin ys').
  - apply comprehension_raise in Hc as [x' [Hin' Hx']].
    f_equal. eapply Hall; eassumption.
Qed.

Lemma comprehension_none (f : A -> result (option B)) l :
  (forall x, In x l -> f x = Ok None) -> comprehension f l = Ok [].
Proof.
  induction l as [|x l IH]; intros H; simpl; [reflexivity|].
  rewrite (H x) by now left. simpl.
  rewrite IH by (intros; apply H; now right). reflexivity.
Qed.

End Raising.

Section GraphErrors.
Import Py Search.

Variable settings : Settings.
Variable self : SearchUtils.

Lemma node_type_raise n e : node_type self n = Raise e -> e = KeyError.
Proof.
  unfold node_type. destruct (Nx.node_data _ n) as [d|]; [|now intros [= <-]].
  destruct (Nx.type d); [discriminate|now intros [= <-]].
Qed.

Lemma neighbors_of_type_raise node ty e :
  neighbors_of_type self node ty = Raise e -> e = KeyError.
Proof.
  intros H. apply comprehension_raise in H as [n [_ Hn]].
  destruct (node_type self n) as [t|e'] eqn:Ht; simpl in Hn; [discriminate|].
  injection Hn as <-. eapply node_type_raise, Ht.
Qed.

Lemma first_document_raise l e :
  first_document self l = Raise e -> e = KeyError.
Proof.
  induction l as [|n l IH]; simpl; [discriminate|].
  destruct (node_type self n) as [t|e'] eqn:Ht; simpl.
  - destruct (String.eqb t "document"); [discriminate|exact IH].
  - intros [= <-]. eapply node_type_raise, Ht.
Qed.

(** The chunks whose parent is looked up are neighbours whose type was
    read: they are nodes. *)
Lemma neighbors_of_type_nodes node ty l n :
  neighbors_of_type self node ty = Ok l -> In n l ->
  Nx.has_node (knowledge_graph self) n = true.
Proof.
  intros H Hn. apply (comprehension_In _ _ _ n H) in Hn as [x [_ Hf]].
  destruct (node_type self x) as [t|e] eqn:Ht; simpl in Hf; [|discriminate].
  destruct (String.eqb t ty); [|discriminate].
  injection Hf as <-. eapply node_type_has_node, Ht.
Qed.

Lemma parent_documents_raise chunks e :
  (forall c, In c chunks -> Nx.has_node (knowledge_graph self) c = true) ->
  parent_documents self chunks = Raise e -> e = KeyError.
Proof.
  intros Hnodes H. apply comprehension_raise in H as [c [Hin Hc]].
  unfold get_parent_document in Hc. rewrite (Hnodes c Hin) in Hc.
  destruct (first_document self _) as [d|e'] eqn:Hd; simpl in Hc;
    [discriminate|].
  injection Hc as <-. eapply first_document_raise, Hd.
Qed.

Lemma entity_relevance_raise query node data e :
  entity_relevance self query node data = Raise e -> e = KeyError.
Proof.
  unfold entity_relevance.
  destruct (neighbors_of_type self node "chunk") as [chunks|e'] eqn:Hc; simpl.
  - destruct (parent_documents self chunks) as [parents|e'] eqn:Hp; simpl;
      [discriminate|].
    intros [= <-]. eapply parent_documents_raise, Hp.
    intros c. apply (neighbors_of_type_nodes _ _ _ _ Hc).
  - intros [= <-]. eapply neighbors_of_type_raise, Hc.
Qed.

Lemma score_node_raise query nd e :
  score_node settings self query nd = Raise e -> e = KeyError.
Proof.
  destruct nd as [node data]. unfold score_node.
  destruct (bool_decide _); [|discriminate].
  destruct (entity_relevance self query node data) as [[chunks rel]|e'] eqn:Hr;
    simpl; [discriminate|].
  intros [= <-]. eapply entity_relevance_raise, Hr.
Qed.

Lemma entity_context_raise x e :
  entity_context self x = Raise e -> e = KeyError.
Proof.
  destruct x as [[[entity ety] chunks] rel]. unfold entity_context.
  destruct (comprehension _ (slice_to 3 chunks)) as [texts|e'] eqn:Ht; simpl.
  - destruct (neighbors_of_type self entity "entity") as [related|e'] eqn:Hn;
      simpl; [discriminate|].
    intros [= <-]. eapply neighbors_of_type_raise, Hn.
  - intros [= <-]. apply comprehension_raise in Ht as [chunk [_ Hc]].
    unfold chunk_text in Hc.
    destruct (Nx.node_data _ chunk); simpl in Hc; [discriminate|].
    now injection Hc as <-.
Qed.

(** X17: the only exception [get_graph_context] raises is [KeyError]; and
    it does raise it, graph search being enabled, when a node typed
    'entity' has a neighbour that is not a node with a type. *)
Theorem get_graph_context_key_error (query : string) :
  (forall e, get_graph_context settings self query = Raise e ->
             e = KeyError) /\
  (enable_graph_search settings = true ->
   forall node data n,
     In (node, data) (Nx.nodes (knowledge_graph self)) ->
     Nx.type data = Some "entity" ->
     In n (Nx.neighbors (knowledge_graph self) node) ->
     has_type self n = false ->
     get_graph_context settings self query = Raise KeyError).
Proof.
  split.
  - intros e. unfold get_graph_context.
    destruct (negb _ || _); [discriminate|].
    destruct (node_scores settings self query) as [scores|e'] eqn:Hs; simpl.
    + intros H. apply comprehension_raise in H as [x [_ Hx]].
      destruct (entity_context self x) as [c|e'] eqn:Hc; simpl in Hx;
        [discriminate|].
      injection Hx as <-. eapply entity_context_raise, Hc.
    + intros [= <-]. apply comprehension_raise in Hs as [nd [_ Hnd]].
      eapply score_node_raise, Hnd.
  - intros Hen node data n Hnode Hty Hn Huntyped.
    unfold get_graph_context. rewrite Hen. simpl.
    rewrite bool_decide_eq_false_2
      by (intros Hnil; rewrite Hnil in Hnode; destruct Hnode).
    assert (Hscores : node_scores settings self query = Raise KeyError).
    { apply (comprehension_raises _ _ _ (node, data) Hnode);
        [|intros nd e' _; apply score_node_raise].
      unfold score_node. rewrite Hty.
      rewrite bool_decide_eq_true_2 by reflexivity.
      assert (Hchunks : neighbors_of_type self node "chunk" = Raise KeyError).
      { apply (comprehension_raises _ _ _ n Hn).
        - unfold has_type in Huntyped.
          destruct (node_type self n) as [t|e'] eqn:Ht; [discriminate|].
          apply node_type_raise in Ht. now subst e'.
        - intros n' e' _ Hn'.
          destruct (node_type self n') as [t|e''] eqn:Ht; simpl in Hn';
            [discriminate|].
          injection Hn' as <-. eapply node_type_raise, Ht. }
      unfold entity_relevance. rewrite Hchunks. reflexivity. }
    rewrite Hscores. reflexivity.
Qed.

Lemma get_graph_context_ok (query : string) :
  typed_neighbors self = true ->
  exists r, get_graph_context settings self query = Ok r.
Proof.
  intros Htyped. unfold get_graph_context.
  destruct (negb _ || _); [eauto|].
  destruct (node_scores_ok settings self Htyped query) as [scores Hs].
  rewrite Hs. simpl.
  apply comprehension_ok. intros [[[entity ety] cs] rel] He.
  apply slice_to_incl, sorted_reverse_In in He.
  unfold node_scores in Hs.
  apply (comprehension_In _ _ _ _ Hs) in He as [nd [_ Hnd]].
  apply (score_node_chunks settings self Htyped) in Hnd.
  destruct (entity_context_ok self Htyped entity ety cs rel Hnd) as [c ->].
  simpl. eauto.
Qed.

(** X18: when every endpoint of an edge is a node with a type, the graph
    look-ups of [get_graph_context] raise nothing: it returns a list of
    bundles, of the nodes typed 'entity' only. *)
Theorem get_graph_context_total (query : string) :
  typed_neighbors self = true ->
  exists r,
    get_graph_context settings self query = Ok r /\
    length r
    <= length (List.filter
                 (fun nd : string * Nx.NodeData =>
                    bool_decide (Nx.type (snd nd) = Some "entity"))
                 (Nx.nodes (knowledge_graph self))).
Proof.
  intros Htyped. destruct (get_graph_context_ok query Htyped) as [r Hr].
  exists r. split; [exact Hr|].
  unfold get_graph_context in Hr.
  destruct (negb _ || _); [injection Hr as <-; simpl; lia|].
  destruct (node_scores settings self query) as [scores|e] eqn:Hs;
    simpl in Hr; [|discriminate].
  apply comprehension_length in Hr.
  assert (Hslice : length (slice_to (top_k settings)
                             (sorted_reverse PrimFloat.ltb
                                (fun x : scored => snd x) scores))
                   <= length scores).
  { rewrite <- (sorted_reverse_length PrimFloat.ltb
                  (fun x : scored => snd x) scores).
    unfold slice_to. destruct (0 <=? top_k settings)%Z;
      rewrite length_firstn; lia. }
  assert (Hscores : length scores
                    <= length (List.filter
                                 (fun nd : string * Nx.NodeData =>
                                    bool_decide (Nx.type (snd nd) = Some "entity"))
                                 (Nx.nodes (knowledge_graph self)))).
  { clear - Hs. unfold node_scores in Hs. revert scores Hs.
    induction (Nx.nodes (knowledge_graph self)) as [|[n d] l IH];
      intros scores; cbn [comprehension List.filter snd].
    - intros [= <-]. simpl. lia.
    - destruct (score_node settings self query (n, d)) as [o|e] eqn:Hsc;
        [|discriminate].
      destruct (comprehension _ l) as [ys|e]; [|discriminate].
      intros [= <-]. specialize (IH ys eq_refl).
      unfold score_node in Hsc.
      destruct (bool_decide (Nx.type d = Some "entity")).
      + destruct o; simpl; lia.
      + injection Hsc as <-. exact IH. }
  lia.
Qed.

(** X19: every bundle [get_graph_context] returns is the context of a node
    of the graph typed 'entity' whose relevance for the query is not below
    the threshold. *)
Theorem get_graph_context_results
  (query : string) (r : list string) (c : string) :
  get_graph_context settings self query = Ok r -> In c r ->
  exists node data chunks relevance,
    In (node, data) (Nx.nodes (knowledge_graph self)) /\
    Nx.type data = Some "entity" /\
    entity_relevance self query node data = Ok (chunks, relevance) /\
    (entity_relevance_threshold settings <=? relevance)%float = true /\
    entity_context self
      (node, default "Unknown" (Nx.entity_type data), chunks, relevance)
    = Ok c.
Proof.
  unfold get_graph_context.
  destruct (negb _ || _); [intros [= <-] []|].
  destruct (node_scores settings self query) as [scores|e] eqn:Hs; simpl;
    [|discriminate].
  intros Hr Hc. apply (comprehension_In _ _ _ c Hr) in Hc as [x [Hx Hc]].
  destruct (entity_context self x) as [c'|e] eqn:Hctx; simpl in Hc;
    [|discriminate].
  injection Hc as ->.
  apply slice_to_incl, sorted_reverse_In in Hx.
  unfold node_scores in Hs.
  apply (comprehension_In _ _ _ x Hs) in Hx as [[node data] [Hnode Hsc]].
  unfold score_node in Hsc.
  destruct (bool_decide (Nx.type data = Some "entity")) eqn:Hty;
    [|discriminate].
  apply bool_decide_eq_true_1 in Hty.
  destruct (entity_relevance self query node data) as [[chunks rel]|e] eqn:Hrel;
    simpl in Hsc; [|discriminate].
  destruct (_ <=? _)%float eqn:Hthr; [|discriminate].
  injection Hsc as <-.
  exists node, data, chunks, rel. auto.
Qed.

(** X20: for a [chunk_node] that is not a node of the graph,
    [get_parent_document] raises the [NetworkXError] of [neighbors]. For a
    node it returns the first neighbour typed 'document', the neighbours
    before it being typed otherwise; it returns null when every neighbour
    is typed otherwise, and raises [KeyError] when it meets a neighbour
    that is not a node with a type. *)
Theorem get_parent_document_first (chunk_node : string) :
  (Nx.has_node (knowledge_graph self) chunk_node = false ->
   get_parent_document self chunk_node = Raise NetworkXError) /\
  (Nx.has_node (knowledge_graph self) chunk_node = true ->
   match get_parent_document self chunk_node with
   | Ok (Some n) =>
       exists before after,
         Nx.neighbors (knowledge_graph self) chunk_node
         = before ++ n :: after /\
         node_type self n = Ok "document" /\
         forall m, In m before ->
                   exists t, node_type self m = Ok t /\ t <> "document"
   | Ok None =>
       forall m, In m (Nx.neighbors (knowledge_graph self) chunk_node) ->
                 exists t, node_type self m = Ok t /\ t <> "document"
   | Raise e =>
       e = KeyError /\
       exists m, In m (Nx.neighbors (knowledge_graph self) chunk_node) /\
                 has_type self m = false
   end).
Proof.
  unfold get_parent_document. split; intros ->; [reflexivity|].
  induction (Nx.neighbors (knowledge_graph self) chunk_node) as [|n l IH];
    simpl; [intros m []|].
  destruct (node_type self n) as [t|e] eqn:Ht; simpl.
  - destruct (String.eqb_spec t "document") as [->|Hne].
    + exists [], l. split; [reflexivity|]. split; [exact Ht|intros m []].
    + destruct (first_document self l) as [[d|]|e].
      * destruct IH as (before & after & -> & Hd & Hb).
        exists (n :: before), after. split; [reflexivity|].
        split; [exact Hd|]. intros m [<-|Hm]; eauto.
      * intros m [<-|Hm]; eauto.
      * destruct IH as [-> [m [Hm Hu]]]. split; [reflexivity|].
        exists m. split; [now right|exact Hu].
  - split; [eapply node_type_raise, Ht|].
    exists n. split; [now left|]. unfold has_type. now rewrite Ht.
Qed.

End GraphErrors.

Section BuiltGraphSearch.
Import Py Nx Search.

Variable pipeline : string -> Spacy.Parse.
Variable pytorch_cos_sim : Kg.embedding -> Kg.embedding -> float.

Lemma above_half t :
  (0.5 <? t)%float = true ->
  (t <=? 0.5)%float = false /\ (t <=? 0)%float = false.
Proof.
  rewrite FloatAxioms.ltb_spec, !FloatAxioms.leb_spec. unfold SFltb, SFleb.
  destruct (SFcompare (Prim2SF 0.5) (Prim2SF t)) as [c|] eqn:Hc;
    [|discriminate].
  destruct c; try discriminate. intros _.
  rewrite (SFcompare_antisym _ _ _ Hc). split; [reflexivity|].
  remember (Prim2SF 0.5) as h eqn:Hh. vm_compute in Hh. subst h.
  remember (Prim2SF 0) as z eqn:Hz. vm_compute in Hz. subst z.
  destruct (Prim2SF t) as [[]|[]| |[] m e]; simpl in *;
    try discriminate; reflexivity.
Qed.

(** X21: over a graph that [create_networkx_graph] returned,
    [get_graph_context] returns nothing when the relevance threshold is
    above 0.5: an entity of such a graph scores 0.5 at most. *)
Theorem built_graph_context_empty
  (data : list string) (embeddings : list Kg.embedding) (G : Graph)
  (settings : Settings) (self : SearchUtils) (query : string) :
  Kg.create_networkx_graph pipeline pytorch_cos_sim data embeddings = Ok G ->
  knowledge_graph self = G ->
  (0.5 <? entity_relevance_threshold settings)%float = true ->
  get_graph_context settings self query = Ok [].
Proof.
  intros H <- Hthr.
  destruct (create_networkx_graph_invariants pipeline pytorch_cos_sim
              data embeddings _ H) as (Hbuilt & Hclosed & _).
  destruct (above_half _ Hthr) as [Hhalf Hzero].
  unfold get_graph_context. destruct (negb _ || _); [reflexivity|].
  assert (Hscores : node_scores settings self query = Ok []).
  { apply comprehension_none. intros [n d] Hin. unfold score_node.
    destruct (bool_decide _); [|reflexivity].
    assert (Hchunks : neighbors_of_type self n "chunk" = Ok [])
      by now apply built_graph_no_chunk.
    assert (Hrel : entity_relevance self query n d
                   = Ok ([], if contains (lower n) (lower query)
                             then 0.5%float else 0%float)).
    { unfold entity_relevance. rewrite Hchunks. simpl.
      destruct (Hbuilt n d Hin) as [_ ->]. simpl.
      destruct (contains (lower n) (lower query)); vm_compute; reflexivity. }
    rewrite Hrel. simpl.
    destruct (contains (lower n) (lower query));
      [rewrite Hhalf|rewrite Hzero]; reflexivity. }
  rewrite Hscores. simpl.
  unfold slice_to. destruct (0 <=? top_k settings)%Z; simpl;
    rewrite ?firstn_nil; reflexivity.
Qed.

End BuiltGraphSearch.

Section GraphSample.
Import Py Nx Search.

Lemma get_graph_context_total_witness :
  exists r,
    get_graph_context Examples.default_settings Examples.mary_retriever "Mary"
    = Ok r /\
    length r
    <= length (List.filter
                 (fun nd : string * Nx.NodeData =>
                    bool_decide (Nx.type (snd nd) = Some "entity"))
                 (Nx.nodes (knowledge_graph Examples.mary_retriever))).
Proof.
  apply (get_graph_context_total Examples.default_settings
           Examples.mary_retriever "Mary").
  reflexivity.
Defined.

Lemma get_parent_document_first_witness :
  get_parent_document Examples.mary_retriever "chunk_9" = Raise NetworkXError /\
  match get_parent_document Examples.mary_retriever "chunk_1" with
  | Ok (Some n) =>
      exists before after,
        Nx.neighbors (knowledge_graph Examples.mary_retriever) "chunk_1"
        = before ++ n :: after /\
        node_type Examples.mary_retriever n = Ok "document" /\
        forall m, In m before ->
                  exists t, node_type Examples.mary_retriever m = Ok t /\
                            t <> "document"
  | Ok None =>
      forall m,
        In m (Nx.neighbors (knowledge_graph Examples.mary_retriever) "chunk_1") ->
        exists t, node_type Examples.mary_retriever m = Ok t /\ t <> "document"
  | Raise e =>
      e = KeyError /\
      exists m,
        In m (Nx.neighbors (knowledge_graph Examples.mary_retriever) "chunk_1") /\
        has_type Examples.mary_retriever m = false
  end.
Proof.
  split.
  - apply (proj1 (get_parent_document_first Examples.mary_retriever "chunk_9")).
    reflexivity.
  - apply (proj2 (get_parent_document_first Examples.mary_retriever "chunk_1")).
    reflexivity.
Defined.

Lemma get_graph_context_results_witness :
  exists r c,
    get_graph_context Examples.default_settings Examples.mary_retriever "Mary"
    = Ok r /\ In c r /\
    exists node data chunks relevance,
      In (node, data) (Nx.nodes (knowledge_graph Examples.mary_retriever)) /\
      Nx.type data = Some "entity" /\
      entity_relevance Examples.mary_retriever "Mary" node data
      = Ok (chunks, relevance) /\
      (entity_relevance_threshold Examples.default_settings <=? relevance)%float
      = true /\
      entity_context Examples.mary_retriever
        (node, default "Unknown" (Nx.entity_type data), chunks, relevance)
      = Ok c.
Proof.
  destruct (get_graph_context Examples.default_settings
              Examples.mary_retriever "Mary") as [[|c r]|e] eqn:H.
  - vm_compute in H. discriminate.
  - exists (c :: r), c. split; [reflexivity|]. split; [now left|].
    exact (get_graph_context_results Examples.default_settings
             Examples.mary_retriever "Mary" (c :: r) c H (or_introl eq_refl)).
  - vm_compute in H. discriminate.
Defined.

Lemma built_graph_context_empty_witness :
  exists G,
    Kg.create_networkx_graph Examples.pipeline Examples.cosine
      [Examples.sister_text; "b"] [[1; 0]; [0.8; 0.6]]%float = Ok G /\
    get_graph_context Examples.default_settings
      (mkSearchUtils None (Vec []) [] G) "Who is Mary?" = Ok [].
Proof.
  destruct (Kg.create_networkx_graph Examples.pipeline Examples.cosine
              [Examples.sister_text; "b"] [[1; 0]; [0.8; 0.6]]%float)
    as [G|e] eqn:HG.
  - exists G. split; [reflexivity|].
    apply (built_graph_context_empty Examples.pipeline Examples.cosine
             [Examples.sister_text; "b"] [[1; 0]; [0.8; 0.6]]%float G
             Examples.default_settings (mkSearchUtils None (Vec []) [] G)
             "Who is Mary?" HG); reflexivity.
  - vm_compute in HG. discriminate.
Defined.

End GraphSample.

(** ** The constructor *)

Section Constructor.
Import Py Search.

Variable disk : Disk.
Variable encode : option (string -> list float).

(** X22: the constructor returns an object exactly when a graph is passed
    or the graph file is there and loads. With no graph passed, a graph
    file that cannot be loaded raises the exception of the loading, and a
    missing graph file raises [UnboundLocalError]: the empty graph the
    source means to fall back on is never constructed. Embeddings and
    content that are missing or cannot be loaded raise nothing. *)
Theorem init_raises_without_graph
  (embeddings : option ndarray) (content : option (list string))
  (graph : option Nx.Graph) :
  (forall e,
      init disk encode embeddings content graph = Raise e <->
      graph = None /\
      (graph_file disk = Unreadable e \/
       (graph_file disk = Missing /\ e = UnboundLocalError))) /\
  ((exists self, init disk encode embeddings content graph = Ok self) <->
   graph <> None \/ exists G, graph_file disk = Loaded G).
Proof.
  unfold init. split.
  - intros e. destruct graph as [G|]; simpl.
    + split; [discriminate|]. intros [? _]. discriminate.
    + destruct (graph_file disk) as [|e'|G]; simpl.
      * split; [intros [= <-]; auto|]. intros [_ [?|[_ ->]]];
          [discriminate|reflexivity].
      * split; [intros [= ->]; auto|].
        intros [_ [[= ->]|[? _]]]; [reflexivity|discriminate].
      * split; [discriminate|]. intros [_ [?|[? _]]]; discriminate.
  - destruct graph as [G|]; simpl.
    + split; [intros _; left; discriminate|eauto].
    + destruct (graph_file disk) as [|e'|G]; simpl.
      * split; [intros [self ?]; discriminate|].
        intros [?|[G ?]]; [contradiction|discriminate].
      * split; [intros [self ?]; discriminate|].
        intros [?|[G ?]]; [contradiction|discriminate].
      * split; [eauto|eauto].
Qed.

(** X23: unless both the embeddings and the content are passed, both are
    taken from the disk, and what was passed is not used: when the file of
    the embeddings or the file of the content is missing or cannot be
    loaded, the retriever the constructor returns, when it returns one,
    answers every request with four empty lists. *)
Theorem init_missing_files_empty_context
  (settings : Settings)
  (embeddings : option ndarray) (content : option (list string))
  (graph : option Nx.Graph) (self : SearchUtils)
  (user_input : string) (conversation_context : list string) :
  embeddings = None \/ content = None ->
  (forall a, embeddings_file disk <> Loaded a) \/
  (forall l, content_file disk <> Loaded l) ->
  init disk encode embeddings content graph = Ok self ->
  get_relevant_context settings self user_input conversation_context
  = Ok ([], [], [], []).
Proof.
  intros Hargs Hfiles Hinit. unfold init in Hinit.
  match type of Hinit with (?g ≫= _) = _ =>
    destruct g as [G|e]; simpl in Hinit; [|discriminate] end.
  injection Hinit as <-. unfold get_relevant_context. simpl.
  assert (Hstores :
            (match embeddings, content with
             | Some embeddings, Some content => (embeddings, content)
             | _, _ =>
                 (match embeddings_file disk with
                  | Loaded embeddings => embeddings
                  | _ => Vec []
                  end,
                  match content_file disk with
                  | Loaded content => content
                  | _ => []
                  end)
             end)
            = (match embeddings_file disk with
               | Loaded embeddings => embeddings
               | _ => Vec []
               end,
               match content_file disk with
               | Loaded content => content
               | _ => []
               end)).
  { destruct Hargs as [-> | ->]; [reflexivity|].
    destruct embeddings; reflexivity. }
  rewrite Hstores. simpl.
  destruct Hfiles as [H|H].
  - destruct (embeddings_file disk) as [|e|a]; [reflexivity..|].
    now destruct (H a).
  - destruct (content_file disk) as [|e|l]; [| |now destruct (H l)];
      simpl; now rewrite orb_true_r.
Qed.

End Constructor.

Section ConstructorSample.
Import Py Search.

Lemma init_missing_files_empty_context_witness :
  init (mkDisk Missing Missing Missing) None
       None (Some ["Mary met John."]) (Some Nx.empty)
  = Ok (mkSearchUtils None (Vec []) [] Nx.empty) /\
  get_relevant_context Examples.default_settings
    (mkSearchUtils None (Vec []) [] Nx.empty) "Who is Mary?" ["Hello"]
  = Ok ([], [], [], []).
Proof.
  split; [reflexivity|].
  apply (init_missing_files_empty_context
           (mkDisk Missing Missing Missing) None Examples.default_settings
           None (Some ["Mary met John."]) (Some Nx.empty)
           (mkSearchUtils None (Vec []) [] Nx.empty)
           "Who is Mary?" ["Hello"]).
  - now left.
  - left. discriminate.
  - reflexivity.
Defined.

End ConstructorSample.

(** ** The whole retrieval *)

Section Retrieval.
Import Py Search.

Variable settings : Settings.
Variable self : SearchUtils.

Lemma semantic_search_ok query :
  match model self with
  | Some encode =>
      exists cos_scores,
        dot_flatten (db_embeddings self) (encode query) = Ok cos_scores /\
        length cos_scores <= length (db_content self)
  | None => True
  end ->
  exists r, semantic_search settings self query = Ok r.
Proof.
  unfold semantic_search.
  destruct (enable_semantic_search settings); simpl; [|eauto].
  destruct (model self) as [encode|].
  - intros (cos_scores & -> & Hlen). simpl.
    rewrite contents_at_ok; [eauto|].
    intros i Hi. apply in_rev, slice_from_incl in Hi.
    apply (Permutation_in _ (argsort_perm cos_scores)), in_seq in Hi. lia.
  - intros _. simpl. rewrite contents_at_ok; [eauto|].
    intros i Hi. apply slice_to_incl, rank_bound in Hi.
    now rewrite length_map in Hi.
Qed.

(** X24: [get_relevant_context] returns its four lists, of at most [top_k]
    results each, when [top_k] is positive, every endpoint of an edge of the
    graph is a node with a type and, for a model that has [encode], the
    embedding of the query has the width of the stored embeddings and the
    content has a passage for every row of them. *)
Theorem get_relevant_context_succeeds
  (user_input : string) (conversation_context : list string) :
  typed_neighbors self = true ->
  (0 < top_k settings)%Z ->
  match model self with
  | Some encode =>
      exists cos_scores,
        dot_flatten (db_embeddings self)
          (encode (join " " (conversation_context ++ [user_input])))
        = Ok cos_scores /\
        length cos_scores <= length (db_content self)
  | None => True
  end ->
  exists lexical semantic graph text,
    get_relevant_context settings self user_input conversation_context
    = Ok (lexical, semantic, graph, text) /\
    (Z.of_nat (length lexical) <= top_k settings)%Z /\
    (Z.of_nat (length semantic) <= top_k settings)%Z /\
    (Z.of_nat (length graph) <= top_k settings)%Z /\
    (Z.of_nat (length text) <= top_k settings)%Z.
Proof.
  intros Htyped Hk Hmodel. unfold get_relevant_context.
  destruct (_ || _).
  { exists [], [], [], []. simpl. repeat split; lia. }
  set (q := join " " (conversation_context ++ [user_input])) in *.
  assert (Hnonneg : (0 <= top_k settings)%Z) by lia.
  destruct (lexical_search_top_k settings self Hnonneg q) as [l [Hl Hlb]].
  destruct (semantic_search_ok q Hmodel) as [s Hs].
  destruct (get_graph_context_ok settings self q Htyped) as [g Hg].
  rewrite Hl, Hs, Hg. simpl.
  exists l, s, g, (text_search settings self q).
  split; [reflexivity|]. split; [exact Hlb|]. split; [|split].
  - exact (semantic_search_encode_top_k settings self Hnonneg q s Hk Hs).
  - exact (get_graph_context_top_k settings self Hnonneg q g Hg).
  - exact (text_search_top_k settings self Hnonneg q).
Qed.

End Retrieval.

Section RetrievalSample.
Import Py Search.

Lemma get_relevant_context_succeeds_witness :
  exists lexical semantic graph text,
    get_relevant_context Examples.top2_settings Examples.small_retriever
                         "a" ["c"]
    = Ok (lexical, semantic, graph, text) /\
    (Z.of_nat (length lexical) <= top_k Examples.top2_settings)%Z /\
    (Z.of_nat (length semantic) <= top_k Examples.top2_settings)%Z /\
    (Z.of_nat (length graph) <= top_k Examples.top2_settings)%Z /\
    (Z.of_nat (length text) <= top_k Examples.top2_settings)%Z.
Proof.
  apply (get_relevant_context_succeeds Examples.top2_settings
           Examples.small_retriever "a" ["c"]).
  - reflexivity.
  - reflexivity.
  - exists [1; 0; 0.5]%float. split; [reflexivity|]. simpl. lia.
Defined.

End RetrievalSample.
